(** * FluxFeed stress-test seeding pipeline (scripts/stress-test.py)

    A shallow embedding of the migration runner and of the tag, feed and
    article generators, with the SQLite connection, the process-wide random
    generator and Python exceptions made explicit:

    - a Python [str] is the list of its code points, [bytes] a list of bytes;
    - the store is a record of tables, each table the list of its rows in
      rowid order; the connection keeps the live and the committed database;
    - [random] is an oracle: an arbitrary stream of numbers, reduced into the
      requested range at each call, so that every run of the script is the
      run of the model on some oracle;
    - raising is an outcome that keeps the state reached so far. *)

From Stdlib Require Import Strings.String Strings.Ascii Strings.Byte.
From Stdlib Require Import ZArith NArith List Bool Lia.
From Stdlib Require Import Sorting.Sorted Sorting.Permutation.
From Stdlib Require DecimalNat.
Import ListNotations.
Local Open Scope Z_scope.

(** ** Python values *)

(** [str]: code points.  [bytes]: octets. *)
Definition pystr := list N.
Definition pybytes := list byte.

(** A string literal of the script (all of them are ASCII). *)
Fixpoint u (s : string) : pystr :=
  match s with
  | EmptyString => []
  | String c s' => N_of_ascii c :: u s'
  end.

Definition str_eqb (a b : pystr) : bool :=
  if list_eq_dec N.eq_dec a b then true else false.

(** [a < b] on [str]: lexicographic on code points. *)
Fixpoint str_ltb (a b : pystr) : bool :=
  match a, b with
  | [], [] => false
  | [], _ :: _ => true
  | _ :: _, [] => false
  | x :: a', y :: b' =>
      if (x <? y)%N then true
      else if (y <? x)%N then false
      else str_ltb a' b'
  end.

(** [sep.join(xs)] *)
Fixpoint join (sep : pystr) (xs : list pystr) : pystr :=
  match xs with
  | [] => []
  | [x] => x
  | x :: rest => x ++ sep ++ join sep rest
  end.

(** [s.replace(a, b)] for one-character [a] and [b]. *)
Definition replace_char (a b : N) (s : pystr) : pystr :=
  map (fun c => if (c =? a)%N then b else c) s.

Definition is_ascii_lower (c : N) : bool := ((97 <=? c) && (c <=? 122))%N.
Definition is_ascii_upper (c : N) : bool := ((65 <=? c) && (c <=? 90))%N.
Definition ascii_upper (c : N) : N := if is_ascii_lower c then (c - 32)%N else c.
Definition ascii_lower (c : N) : N := if is_ascii_upper c then (c + 32)%N else c.

(** [s.capitalize()] and [s.title()], on the ASCII text the generators
    build (words of [LOREM_WORDS] separated by spaces). *)
Definition capitalize (s : pystr) : pystr :=
  match s with
  | [] => []
  | c :: rest => ascii_upper c :: map ascii_lower rest
  end.

Fixpoint title_from (prev_cased : bool) (s : pystr) : pystr :=
  match s with
  | [] => []
  | c :: rest =>
      let cased := is_ascii_lower c || is_ascii_upper c in
      (if prev_cased then ascii_lower c else ascii_upper c)
        :: title_from cased rest
  end.

Definition title (s : pystr) : pystr := title_from false s.

(** [str(n)] for a non-negative integer. *)
Fixpoint uint_digits (d : Decimal.uint) : pystr :=
  match d with
  | Decimal.Nil => []
  | Decimal.D0 d' => 48%N :: uint_digits d'
  | Decimal.D1 d' => 49%N :: uint_digits d'
  | Decimal.D2 d' => 50%N :: uint_digits d'
  | Decimal.D3 d' => 51%N :: uint_digits d'
  | Decimal.D4 d' => 52%N :: uint_digits d'
  | Decimal.D5 d' => 53%N :: uint_digits d'
  | Decimal.D6 d' => 54%N :: uint_digits d'
  | Decimal.D7 d' => 55%N :: uint_digits d'
  | Decimal.D8 d' => 56%N :: uint_digits d'
  | Decimal.D9 d' => 57%N :: uint_digits d'
  end.

Definition str_of_nat (n : nat) : pystr := uint_digits (Nat.to_uint n).

(** ['%0{width}x' % n]: lower-case hexadecimal, most significant digit
    first, exactly [width] digits of [n mod 16^width]. *)
Definition hex_digit (d : N) : N := if (d <? 10)%N then (48 + d)%N else (87 + d)%N.

Fixpoint hex_fixed (width : nat) (n : N) : pystr :=
  match width with
  | O => []
  | S w => hex_fixed w (n / 16)%N ++ [hex_digit (n mod 16)%N]
  end.

(** ** Text encoding *)

(** Code points that are not Unicode scalar values (lone surrogates) cannot
    be encoded; a [str] holds nothing above U+10FFFF. *)
Definition is_scalar (c : N) : bool :=
  ((c <? 0xD800) || ((0xDFFF <? c) && (c <=? 0x10FFFF)))%N.

Definition byte_of_N (n : N) : byte :=
  match Byte.of_N n with Some b => b | None => x00 end.

Definition utf8_encode_char (c : N) : pybytes :=
  if (c <? 0x80)%N then [byte_of_N c]
  else if (c <? 0x800)%N then
    [byte_of_N (0xC0 + c / 64); byte_of_N (0x80 + c mod 64)]%N
  else if (c <? 0x10000)%N then
    [byte_of_N (0xE0 + c / 4096); byte_of_N (0x80 + (c / 64) mod 64);
     byte_of_N (0x80 + c mod 64)]%N
  else
    [byte_of_N (0xF0 + c / 262144); byte_of_N (0x80 + (c / 4096) mod 64);
     byte_of_N (0x80 + (c / 64) mod 64); byte_of_N (0x80 + c mod 64)]%N.

(** [s.encode()] (UTF-8, strict): [None] is UnicodeEncodeError. *)
Fixpoint encode (s : pystr) : option pybytes :=
  match s with
  | [] => Some []
  | c :: rest =>
      if is_scalar c then
        match encode rest with
        | Some bs => Some (utf8_encode_char c ++ bs)
        | None => None
        end
      else None
  end.

Definition is_cont (b : byte) : bool :=
  ((0x80 <=? Byte.to_N b) && (Byte.to_N b <=? 0xBF))%N.
Definition cont_bits (b : byte) : N := (Byte.to_N b - 0x80)%N.

(** [bytes.decode()] (UTF-8, strict): shortest form only, no surrogates,
    nothing above U+10FFFF.  [None] is UnicodeDecodeError. *)
Fixpoint decode (bs : pybytes) : option pystr :=
  match bs with
  | [] => Some []
  | b0 :: r0 =>
      let n0 := Byte.to_N b0 in
      if (n0 <? 0x80)%N then option_map (cons n0) (decode r0)
      else if ((0xC2 <=? n0) && (n0 <=? 0xDF))%N then
        match r0 with
        | b1 :: r1 =>
            if is_cont b1
            then option_map (cons ((n0 - 0xC0) * 64 + cont_bits b1)%N) (decode r1)
            else None
        | _ => None
        end
      else if ((0xE0 <=? n0) && (n0 <=? 0xEF))%N then
        match r0 with
        | b1 :: b2 :: r2 =>
            let c := ((n0 - 0xE0) * 4096 + cont_bits b1 * 64 + cont_bits b2)%N in
            if is_cont b1 && is_cont b2 && (0x800 <=? c)%N && is_scalar c
            then option_map (cons c) (decode r2)
            else None
        | _ => None
        end
      else if ((0xF0 <=? n0) && (n0 <=? 0xF4))%N then
        match r0 with
        | b1 :: b2 :: b3 :: r3 =>
            let c := ((n0 - 0xF0) * 262144 + cont_bits b1 * 4096
                      + cont_bits b2 * 64 + cont_bits b3)%N in
            if is_cont b1 && is_cont b2 && is_cont b3
               && (0x10000 <=? c)%N && (c <=? 0x10FFFF)%N
            then option_map (cons c) (decode r3)
            else None
        | _ => None
        end
      else None
  end.

(** Universal newlines, as a text-mode read applies them: CR LF and a lone
    CR both become LF. *)
Fixpoint translate_newlines (s : pystr) : pystr :=
  match s with
  | [] => []
  | 13%N :: rest =>
      match rest with
      | 10%N :: rest' => 10%N :: translate_newlines rest'
      | _ => 10%N :: translate_newlines rest
      end
  | c :: rest => c :: translate_newlines rest
  end.

(** [Path.read_text()]: decode with the default encoding (UTF-8), newlines
    translated. *)
Definition read_text (contents : pybytes) : option pystr :=
  option_map translate_newlines (decode contents).

(** ** hashlib.sha384 (FIPS 180-4, SHA-384) *)

Module Sha384.

(** 64-bit words as [Z], wrap-around written out. *)
Definition wrap (x : Z) : Z := x mod 2 ^ 64.
Definition add64 (x y : Z) : Z := wrap (x + y).
Definition rotr (n x : Z) : Z :=
  wrap (Z.lor (Z.shiftr x n) (Z.shiftl x (64 - n))).
Definition not64 (x : Z) : Z := 2 ^ 64 - 1 - x.

Definition Ch (x y z : Z) : Z := Z.lxor (Z.land x y) (Z.land (not64 x) z).
Definition Maj (x y z : Z) : Z :=
  Z.lxor (Z.lxor (Z.land x y) (Z.land x z)) (Z.land y z).
Definition Sum0 (x : Z) : Z := Z.lxor (Z.lxor (rotr 28 x) (rotr 34 x)) (rotr 39 x).
Definition Sum1 (x : Z) : Z := Z.lxor (Z.lxor (rotr 14 x) (rotr 18 x)) (rotr 41 x).
Definition sig0 (x : Z) : Z := Z.lxor (Z.lxor (rotr 1 x) (rotr 8 x)) (Z.shiftr x 7).
Definition sig1 (x : Z) : Z := Z.lxor (Z.lxor (rotr 19 x) (rotr 61 x)) (Z.shiftr x 6).

Definition K : list Z :=
  [ 0x428a2f98d728ae22; 0x7137449123ef65cd; 0xb5c0fbcfec4d3b2f; 0xe9b5dba58189dbbc;
    0x3956c25bf348b538; 0x59f111f1b605d019; 0x923f82a4af194f9b; 0xab1c5ed5da6d8118;
    0xd807aa98a3030242; 0x12835b0145706fbe; 0x243185be4ee4b28c; 0x550c7dc3d5ffb4e2;
    0x72be5d74f27b896f; 0x80deb1fe3b1696b1; 0x9bdc06a725c71235; 0xc19bf174cf692694;
    0xe49b69c19ef14ad2; 0xefbe4786384f25e3; 0x0fc19dc68b8cd5b5; 0x240ca1cc77ac9c65;
    0x2de92c6f592b0275; 0x4a7484aa6ea6e483; 0x5cb0a9dcbd41fbd4; 0x76f988da831153b5;
    0x983e5152ee66dfab; 0xa831c66d2db43210; 0xb00327c898fb213f; 0xbf597fc7beef0ee4;
    0xc6e00bf33da88fc2; 0xd5a79147930aa725; 0x06ca6351e003826f; 0x142929670a0e6e70;
    0x27b70a8546d22ffc; 0x2e1b21385c26c926; 0x4d2c6dfc5ac42aed; 0x53380d139d95b3df;
    0x650a73548baf63de; 0x766a0abb3c77b2a8; 0x81c2c92e47edaee6; 0x92722c851482353b;
    0xa2bfe8a14cf10364; 0xa81a664bbc423001; 0xc24b8b70d0f89791; 0xc76c51a30654be30;
    0xd192e819d6ef5218; 0xd69906245565a910; 0xf40e35855771202a; 0x106aa07032bbd1b8;
    0x19a4c116b8d2d0c8; 0x1e376c085141ab53; 0x2748774cdf8eeb99; 0x34b0bcb5e19b48a8;
    0x391c0cb3c5c95a63; 0x4ed8aa4ae3418acb; 0x5b9cca4f7763e373; 0x682e6ff3d6b2b8a3;
    0x748f82ee5defb2fc; 0x78a5636f43172f60; 0x84c87814a1f0ab72; 0x8cc702081a6439ec;
    0x90befffa23631e28; 0xa4506cebde82bde9; 0xbef9a3f7b2c67915; 0xc67178f2e372532b;
    0xca273eceea26619c; 0xd186b8c721c0c207; 0xeada7dd6cde0eb1e; 0xf57d4f7fee6ed178;
    0x06f067aa72176fba; 0x0a637dc5a2c898a6; 0x113f9804bef90dae; 0x1b710b35131c471b;
    0x28db77f523047d84; 0x32caab7b40c72493; 0x3c9ebe0a15c9bebc; 0x431d67c49c100d4c;
    0x4cc5d4becb3e42b6; 0x597f299cfc657e2a; 0x5fcb6fab3ad6faec; 0x6c44198c4a475817 ].

Definition H0 : list Z :=
  [ 0xcbbb9d5dc1059ed8; 0x629a292a367cd507; 0x9159015a3070dd17; 0x152fecd8f70e5939;
    0x67332667ffc00b31; 0x8eb44a8768581511; 0xdb0c2e0d64f98fa7; 0x47b5481dbefa4fa4 ].

(** Big-endian bytes of a word, and back. *)
Fixpoint be_bytes (n : nat) (x : Z) : list Z :=
  match n with
  | O => []
  | S n' => be_bytes n' (x / 256) ++ [x mod 256]
  end.

Definition be_word (bs : list Z) : Z := fold_left (fun acc b => acc * 256 + b) bs 0.

(** Padding: 0x80, zeros up to 112 modulo 128, the bit length on 16 bytes. *)
Definition pad (msg : list Z) : list Z :=
  let len := Z.of_nat (length msg) in
  let zeros := Z.to_nat ((111 - len) mod 128) in
  msg ++ [0x80] ++ repeat 0 zeros ++ be_bytes 16 (8 * len).

Fixpoint chunks (size count : nat) (xs : list Z) : list (list Z) :=
  match count with
  | O => []
  | S c => firstn size xs :: chunks size c (skipn size xs)
  end.

(** The message schedule, most recent word first. *)
Fixpoint extend (steps : nat) (w : list Z) : list Z :=
  match steps with
  | O => w
  | S s =>
      let x := add64 (add64 (sig1 (nth 1 w 0)) (nth 6 w 0))
                     (add64 (sig0 (nth 14 w 0)) (nth 15 w 0)) in
      extend s (x :: w)
  end.

Definition schedule (block : list Z) : list Z :=
  rev (extend 64 (rev (map be_word (chunks 8 16 block)))).

Record regs := { ra : Z; rb : Z; rc : Z; rd : Z; re : Z; rf : Z; rg : Z; rh : Z }.

Definition round (r : regs) (kw : Z * Z) : regs :=
  let t1 := add64 (add64 (add64 (rh r) (Sum1 (re r))) (Ch (re r) (rf r) (rg r)))
                  (add64 (fst kw) (snd kw)) in
  let t2 := add64 (Sum0 (ra r)) (Maj (ra r) (rb r) (rc r)) in
  {| ra := add64 t1 t2; rb := ra r; rc := rb r; rd := rc r;
     re := add64 (rd r) t1; rf := re r; rg := rf r; rh := rg r |}.

Definition compress (h : regs) (block : list Z) : regs :=
  let r := fold_left round (combine K (schedule block)) h in
  {| ra := add64 (ra h) (ra r); rb := add64 (rb h) (rb r);
     rc := add64 (rc h) (rc r); rd := add64 (rd h) (rd r);
     re := add64 (re h) (re r); rf := add64 (rf h) (rf r);
     rg := add64 (rg h) (rg r); rh := add64 (rh h) (rh r) |}.

Definition init : regs :=
  {| ra := nth 0 H0 0; rb := nth 1 H0 0; rc := nth 2 H0 0; rd := nth 3 H0 0;
     re := nth 4 H0 0; rf := nth 5 H0 0; rg := nth 6 H0 0; rh := nth 7 H0 0 |}.

(** The digest: the first six words of the final state, 48 bytes. *)
Definition digest_Z (msg : list Z) : list Z :=
  let p := pad msg in
  let r := fold_left compress (chunks 128 (length p / 128) p) init in
  flat_map (be_bytes 8) [ra r; rb r; rc r; rd r; re r; rf r].

Definition digest (msg : pybytes) : pybytes :=
  map (fun z => byte_of_N (Z.to_N z))
      (digest_Z (map (fun b => Z.of_N (Byte.to_N b)) msg)).

End Sha384.

(** [bytes.hex()], to read digests. *)
Definition hex (bs : pybytes) : pystr :=
  flat_map (fun b => hex_fixed 2 (Byte.to_N b)) bs.

(** The ASCII bytes of a literal. *)
Definition ascii_bytes (s : string) : pybytes := map byte_of_N (u s).

(** ** re.match(r"(\d+)_(.+)\.sql", name) *)

(** The zero digits of the Unicode decimal-digit blocks (category Nd): on
    [str] patterns [\d] matches every such digit, and [int] reads them. *)
Definition Nd_zeros : list N :=
  [ 0x30; 0x660; 0x6f0; 0x7c0; 0x966; 0x9e6; 0xa66; 0xae6; 0xb66; 0xbe6;
    0xc66; 0xce6; 0xd66; 0xde6; 0xe50; 0xed0; 0xf20; 0x1040; 0x1090; 0x17e0;
    0x1810; 0x1946; 0x19d0; 0x1a80; 0x1a90; 0x1b50; 0x1bb0; 0x1c40; 0x1c50;
    0xa620; 0xa8d0; 0xa900; 0xa9d0; 0xa9f0; 0xaa50; 0xabf0; 0xff10; 0x104a0;
    0x10d30; 0x11066; 0x110f0; 0x11136; 0x111d0; 0x112f0; 0x11450; 0x114d0;
    0x11650; 0x116c0; 0x11730; 0x118e0; 0x11950; 0x11c50; 0x11d50; 0x11da0;
    0x16a60; 0x16ac0; 0x16b50; 0x1d7ce; 0x1d7d8; 0x1d7e2; 0x1d7ec; 0x1d7f6;
    0x1e140; 0x1e2f0; 0x1e950; 0x1fbf0 ]%N.

(** The value of a decimal digit, [None] when [\d] does not match. *)
Definition decimal (c : N) : option Z :=
  match find (fun z => (z <=? c) && (c <? z + 10))%N Nd_zeros with
  | Some z => Some (Z.of_N (c - z))
  | None => None
  end.

(** [\d+], greedy: the digits of the longest run, and what follows. *)
Fixpoint span_digits (s : pystr) : list Z * pystr :=
  match s with
  | [] => ([], [])
  | c :: rest =>
      match decimal c with
      | Some d => let (ds, r) := span_digits rest in (d :: ds, r)
      | None => ([], s)
      end
  end.

(** [int] of a run of digits. *)
Definition int_of_digits (ds : list Z) : Z :=
  fold_left (fun acc d => 10 * acc + d) ds 0.

Fixpoint starts_with (p s : pystr) : bool :=
  match p, s with
  | [], _ => true
  | _ :: _, [] => false
  | x :: p', y :: s' => (x =? y)%N && starts_with p' s'
  end.

Definition ends_with (p s : pystr) : bool := starts_with (rev p) (rev s).

(** [.*] then [\.sql]: the longest prefix without a newline after which
    [.sql] follows (greedy, backtracking to shorter prefixes). *)
Fixpoint dot_star_sql (s : pystr) : option pystr :=
  let here := if starts_with (u ".sql") s then Some [] else None in
  match s with
  | [] => None
  | c :: rest =>
      if (c =? 10)%N then here
      else match dot_star_sql rest with
           | Some p => Some (c :: p)
           | None => here
           end
  end.

(** [(.+)\.sql] *)
Definition dot_plus_sql (s : pystr) : option pystr :=
  match s with
  | [] => None
  | c :: rest =>
      if (c =? 10)%N then None else option_map (cons c) (dot_star_sql rest)
  end.

(** The match, anchored at the start only: [int(group(1))] and [group(2)]. *)
Definition re_match (name : pystr) : option (Z * pystr) :=
  match span_digits name with
  | ([], _) => None
  | (ds, 95%N :: rest) =>
      option_map (fun g2 => (int_of_digits ds, g2)) (dot_plus_sql rest)
  | _ => None
  end.

(** ** The migrations directory *)

(** A file: its name and its bytes.  A directory lists its files in an
    arbitrary order, under distinct names. *)
Definition file := (pystr * pybytes)%type.
Definition directory := list file.

(** [MIGRATIONS_DIR.glob("*.sql")] *)
Definition glob_sql (dir : directory) : list file :=
  filter (fun f => ends_with (u ".sql") (fst f)) dir.

(** [sorted]: stable, by [<] alone. *)
Fixpoint insert_by {A} (ltb : A -> A -> bool) (x : A) (l : list A) : list A :=
  match l with
  | [] => [x]
  | y :: l' => if ltb y x then y :: insert_by ltb x l' else x :: l
  end.

Fixpoint sorted {A} (ltb : A -> A -> bool) (l : list A) : list A :=
  match l with
  | [] => []
  | x :: xs => insert_by ltb x (sorted ltb xs)
  end.

(** Paths of one directory compare as their names. *)
Definition path_ltb (f g : file) : bool := str_ltb (fst f) (fst g).

(** ** The store *)

Record migration := {
  version : Z;
  description : pystr;
  success : bool;
  checksum : pybytes;
  execution_time : Z
}.

Record tag := { tag_name : pystr; tag_color : pystr; tag_style : pystr }.

(** Timestamps are kept as instants (microseconds); the columns hold their
    [isoformat()] text. *)
Record feed := {
  feed_url : pystr;
  feed_title : pystr;
  feed_description : pystr;
  feed_site_url : pystr;
  feed_color : pystr;
  fetch_frequency : pystr;
  feed_created_at : Z;
  feed_updated_at : Z
}.

Record article := {
  feed_id : Z;
  guid : pystr;
  article_title : pystr;
  url : pystr;
  content : pystr;
  summary : pystr;
  author : pystr;
  published_at : Z;
  is_read : bool;
  is_starred : bool;
  created_at : Z;
  updated_at : Z
}.

Record fts_entry := {
  fts_article_id : Z;
  fts_title : pystr;
  fts_content : pystr;
  fts_summary : pystr;
  fts_author : pystr
}.

(** A table: its rows with their rowids, in rowid order. *)
Definition table (A : Type) := list (Z * A).

Definition rowids {A} (t : table A) : list Z := map fst t.

Definition has_rowid {A} (k : Z) (t : table A) : bool :=
  existsb (Z.eqb k) (rowids t).

(** The rowid SQLite gives a new row: one more than the largest in use
    (as long as that is below the largest 64-bit integer). *)
Definition next_rowid {A} (t : table A) : Z :=
  match rowids t with
  | [] => 1
  | k :: ks => 1 + fold_left Z.max ks k
  end.

(** Modelled from the spec: the declarations of the tables [tags], [feeds],
    [feed_tags], [articles] and [articles_fts], which are made by the
    migration scripts and are not among the sources (spec, sections 3 and 6).
    Their columns are those the INSERT statements of the script name.  Tag
    names are unique, a (feed_id, tag_id) pair is unique, an FTS entry is
    keyed by the identifier of its article (its rowid); no other constraint
    is stated, and foreign keys are not enforced by a default connection.

    [sqlx_migrations] is the tracking table, created by the script itself:
    [None] until it exists; its [installed_on] column, filled by the clock
    of the store, is left out.  [sqlite_master] stands for the schema, which
    only the migration scripts change. *)
Record db := {
  sqlite_master : list pystr;
  sqlx_migrations : option (list migration);
  tags : table tag;
  feeds : table feed;
  feed_tags : list (Z * Z);
  articles : table article;
  articles_fts : table fts_entry;
  triggers : list pystr
}.

(** A connection: what its statements see, and what is committed. *)
Record connection := { live : db; durable : db }.

Definition empty_db : db :=
  {| sqlite_master := []; sqlx_migrations := None; tags := []; feeds := [];
     feed_tags := []; articles := []; articles_fts := []; triggers := [] |}.

Definition set_migrations (m : option (list migration)) (d : db) : db :=
  {| sqlite_master := sqlite_master d; sqlx_migrations := m; tags := tags d;
     feeds := feeds d; feed_tags := feed_tags d; articles := articles d;
     articles_fts := articles_fts d; triggers := triggers d |}.

Definition set_tags (t : table tag) (d : db) : db :=
  {| sqlite_master := sqlite_master d; sqlx_migrations := sqlx_migrations d;
     tags := t; feeds := feeds d; feed_tags := feed_tags d;
     articles := articles d; articles_fts := articles_fts d;
     triggers := triggers d |}.

Definition set_feeds (t : table feed) (d : db) : db :=
  {| sqlite_master := sqlite_master d; sqlx_migrations := sqlx_migrations d;
     tags := tags d; feeds := t; feed_tags := feed_tags d;
     articles := articles d; articles_fts := articles_fts d;
     triggers := triggers d |}.

Definition set_feed_tags (t : list (Z * Z)) (d : db) : db :=
  {| sqlite_master := sqlite_master d; sqlx_migrations := sqlx_migrations d;
     tags := tags d; feeds := feeds d; feed_tags := t;
     articles := articles d; articles_fts := articles_fts d;
     triggers := triggers d |}.

Definition set_articles (t : table article) (d : db) : db :=
  {| sqlite_master := sqlite_master d; sqlx_migrations := sqlx_migrations d;
     tags := tags d; feeds := feeds d; feed_tags := feed_tags d;
     articles := t; articles_fts := articles_fts d;
     triggers := triggers d |}.

Definition set_articles_fts (t : table fts_entry) (d : db) : db :=
  {| sqlite_master := sqlite_master d; sqlx_migrations := sqlx_migrations d;
     tags := tags d; feeds := feeds d; feed_tags := feed_tags d;
     articles := articles d; articles_fts := t;
     triggers := triggers d |}.

Definition set_triggers (t : list pystr) (d : db) : db :=
  {| sqlite_master := sqlite_master d; sqlx_migrations := sqlx_migrations d;
     tags := tags d; feeds := feeds d; feed_tags := feed_tags d;
     articles := articles d; articles_fts := articles_fts d;
     triggers := t |}.

(** ** Effects: the connection, the random generator, exceptions *)

Inductive exn :=
| ValueError
| IndexError
| OverflowError
| UnicodeDecodeError
| UnicodeEncodeError
| IntegrityError
| OperationalError.

(** The generator's state: the oracle and how many numbers were drawn. *)
Record rng_state := { oracle : N -> N; drawn : N }.

(** The calls made on the connection and its cursor, oldest first. *)
Inductive event :=
| Execute
| Executemany (rows : nat)
| Executescript (sql : pystr) (ok : bool)
| Commit.

Record world := { conn : connection; rng : rng_state; trace : list event }.

Inductive outcome (A : Type) :=
| Return (a : A) (w : world)
| Raise (e : exn) (w : world).
Arguments Return {A} a w.
Arguments Raise {A} e w.

Definition M (A : Type) := world -> outcome A.

Definition ret {A} (a : A) : M A := fun w => Return a w.
Definition raise {A} (e : exn) : M A := fun w => Raise e w.
Definition bind {A B} (m : M A) (k : A -> M B) : M B :=
  fun w => match m w with
           | Return a w' => k a w'
           | Raise e w' => Raise e w'
           end.

Notation "x <- m ;; k" := (bind m (fun x => k))
  (at level 61, m at next level, right associativity).
Notation "m ;; k" := (bind m (fun _ => k))
  (at level 61, right associativity).

(** [for x in xs: ...], the loop's local variables threaded as [s]. *)
Fixpoint for_each {A S} (xs : list A) (body : A -> S -> M S) (s : S) : M S :=
  match xs with
  | [] => ret s
  | x :: rest => s' <- body x s ;; for_each rest body s'
  end.

(** [[f() for _ in range(n)]] *)
Fixpoint repeatM {A} (n : nat) (m : M A) : M (list A) :=
  match n with
  | O => ret []
  | S n' => x <- m ;; rest <- repeatM n' m ;; ret (x :: rest)
  end.

(** [print] of text taken from the file system: standard output, UTF-8 as
    under a UTF-8 locale, encodes strictly and rejects the lone surrogates
    of an undecodable file name.  (The progress lines built from literals
    and numbers cannot fail and are not modelled.) *)
Definition print (s : pystr) : M unit :=
  if forallb is_scalar s then ret tt else raise UnicodeEncodeError.

(** *** random *)

Definition randbelow (n : N) : M N := fun w =>
  Return (oracle (rng w) (drawn (rng w)) mod n)%N
         {| conn := conn w;
            rng := {| oracle := oracle (rng w); drawn := N.succ (drawn (rng w)) |};
            trace := trace w |}.

(** [random.randint(a, b)] *)
Definition randint (a b : Z) : M Z :=
  k <- randbelow (Z.to_N (b - a + 1)) ;; ret (a + Z.of_N k).

(** [random.choice(xs)] *)
Definition choice {A} (xs : list A) : M A :=
  match xs with
  | [] => raise IndexError
  | x :: _ => k <- randbelow (N.of_nat (length xs)) ;; ret (nth (N.to_nat k) xs x)
  end.

(** [random.choices(xs, k=k)] *)
Definition choices {A} (xs : list A) (k : nat) : M (list A) := repeatM k (choice xs).

Fixpoint set_nth {A} (j : nat) (v : A) (l : list A) : list A :=
  match l, j with
  | [], _ => []
  | _ :: l', O => v :: l'
  | x :: l', S j' => x :: set_nth j' v l'
  end.

(** [random.sample(xs, k)]: the elements at [k] distinct positions.  The
    library selects them from a shrinking pool, the element picked being
    replaced by the last one of the pool (for large populations it draws
    positions until they are new, with the same results); the pool is the
    model. *)
Fixpoint sample_pool {A} (pool : list A) (k : nat) : M (list A) :=
  match k with
  | O => ret []
  | S k' =>
      match pool with
      | [] => raise ValueError
      | x :: _ =>
          j <- randbelow (N.of_nat (length pool)) ;;
          rest <- sample_pool (removelast (set_nth (N.to_nat j) (last pool x) pool)) k' ;;
          ret (nth (N.to_nat j) pool x :: rest)
      end
  end.

Definition sample {A} (xs : list A) (k : nat) : M (list A) :=
  if (length xs <? k)%nat then raise ValueError else sample_pool xs k.

(** [random.random() < 0.3] and [random.random() < 0.05]: [random()] is
    [k / 2^53] for a 53-bit [k]; the doubles nearest to 0.3 and 0.05 are
    [5404319552844595 / 2^54] and [7205759403792794 / 2^57]. *)
Definition random_lt_0_3 : M bool :=
  k <- randbelow (2 ^ 53) ;; ret (2 * k <? 5404319552844595)%N.
Definition random_lt_0_05 : M bool :=
  k <- randbelow (2 ^ 53) ;; ret (16 * k <? 7205759403792794)%N.

(** [str(uuid.uuid4())]: 128 random bits (of the operating system; they are
    drawn from the same oracle), version and variant set. *)
Definition uuid4 : M pystr :=
  r <- randbelow (2 ^ 128) ;;
  let n := N.lor (N.ldiff r (N.shiftl 0xc000 48)) (N.shiftl 0x8000 48) in
  let n := N.lor (N.ldiff n (N.shiftl 0xf000 64)) (N.shiftl 4 76) in
  let h := hex_fixed 32 n in
  ret (firstn 8 h ++ u "-" ++ firstn 4 (skipn 8 h) ++ u "-"
       ++ firstn 4 (skipn 12 h) ++ u "-" ++ firstn 4 (skipn 16 h) ++ u "-"
       ++ skipn 20 h).

(** *** sqlite3 *)

Definition log (ev : event) : M unit := fun w =>
  Return tt {| conn := conn w; rng := rng w; trace := trace w ++ [ev] |}.

(** A statement changes the live database or fails, leaving it as it was. *)
Definition apply_stmt (stmt : db -> exn + db) : M unit := fun w =>
  match stmt (live (conn w)) with
  | inr d => Return tt {| conn := {| live := d; durable := durable (conn w) |};
                          rng := rng w; trace := trace w |}
  | inl e => Raise e w
  end.

(** [cursor.execute(stmt)] *)
Definition execute (stmt : db -> exn + db) : M unit :=
  log Execute ;; apply_stmt stmt.

(** [cursor.execute] of an INSERT, followed by [cursor.lastrowid]. *)
Definition execute_insert (stmt : db -> exn + (db * Z)) : M Z :=
  log Execute ;;
  fun w =>
    match stmt (live (conn w)) with
    | inr (d, k) => Return k {| conn := {| live := d; durable := durable (conn w) |};
                                rng := rng w; trace := trace w |}
    | inl e => Raise e w
    end.

(** [conn.commit()] *)
Definition commit : M unit :=
  log Commit ;;
  fun w => Return tt {| conn := {| live := live (conn w); durable := live (conn w) |};
                        rng := rng w; trace := trace w |}.

(** CREATE TABLE IF NOT EXISTS _sqlx_migrations (version BIGINT PRIMARY KEY, ...) *)
Definition create_migrations_table (d : db) : exn + db :=
  match sqlx_migrations d with
  | Some _ => inr d
  | None => inr (set_migrations (Some []) d)
  end.

(** INSERT INTO _sqlx_migrations: the version is bound as a 64-bit integer
    and is the primary key. *)
Definition insert_migration (m : migration) (d : db) : exn + db :=
  if 2 ^ 63 <=? version m then inl OverflowError
  else match sqlx_migrations d with
       | None => inl OperationalError
       | Some rows =>
           if existsb (fun r => version r =? version m) rows
           then inl IntegrityError
           else inr (set_migrations (Some (rows ++ [m])) d)
       end.

(** Modelled from the spec: the tags table rejects a name that is in use
    (spec, section 3: name unique).  INSERT INTO tags (name, color, style). *)
Definition insert_tag (t : tag) (d : db) : exn + (db * Z) :=
  if existsb (fun r => str_eqb (tag_name (snd r)) (tag_name t)) (tags d)
  then inl IntegrityError
  else let k := next_rowid (tags d) in inr (set_tags (tags d ++ [(k, t)]) d, k).

(** Modelled from the spec: the feeds table, for which no constraint is
    stated.  INSERT INTO feeds (url, title, ...). *)
Definition insert_feed (f : feed) (d : db) : exn + (db * Z) :=
  let k := next_rowid (feeds d) in inr (set_feeds (feeds d ++ [(k, f)]) d, k).

Definition pair_eqb (p q : Z * Z) : bool := (fst p =? fst q) && (snd p =? snd q).

(** Modelled from the spec: the pairs of feed_tags are unique (spec,
    section 3).  INSERT OR IGNORE INTO feed_tags (feed_id, tag_id): a pair
    that is there already is skipped. *)
Definition insert_or_ignore_feed_tag (p : Z * Z) (d : db) : exn + db :=
  if existsb (pair_eqb p) (feed_tags d) then inr d
  else inr (set_feed_tags (feed_tags d ++ [p]) d).

Definition has_trigger (name : pystr) (d : db) : bool :=
  existsb (str_eqb name) (triggers d).

(** DROP TRIGGER IF EXISTS name *)
Definition drop_trigger (name : pystr) (d : db) : exn + db :=
  inr (set_triggers (filter (fun n => negb (str_eqb name n)) (triggers d)) d).

(** CREATE TRIGGER IF NOT EXISTS name ...; a trigger is known by its name,
    the three FTS triggers having the bodies the script gives them. *)
Definition create_trigger (name : pystr) (d : db) : exn + db :=
  if has_trigger name d then inr d
  else inr (set_triggers (triggers d ++ [name]) d).

(** The FTS entry of an article: VALUES (id, id, title, content, summary, author) *)
Definition fts_of (k : Z) (a : article) : fts_entry :=
  {| fts_article_id := k; fts_title := article_title a; fts_content := content a;
     fts_summary := summary a; fts_author := author a |}.

(** Modelled from the spec: an entry of articles_fts is keyed by the
    identifier of its article (spec, section 3), which the statements of the
    script give as rowid; as in any table, a row under a rowid in use is
    rejected.  One row INSERTed into articles_fts. *)
Definition fts_insert (k : Z) (e : fts_entry) (t : table fts_entry)
  : option (table fts_entry) :=
  if has_rowid k t then None else Some (t ++ [(k, e)]).

(** Modelled from the spec: the articles table, for which no constraint is
    stated.  INSERT INTO articles (...): the new row, then the insert
    trigger when it is in place. *)
Definition insert_article (a : article) (d : db) : exn + db :=
  let k := next_rowid (articles d) in
  let d1 := set_articles (articles d ++ [(k, a)]) d in
  if has_trigger (u "articles_fts_insert") d then
    match fts_insert k (fts_of k a) (articles_fts d1) with
    | Some t => inr (set_articles_fts t d1)
    | None => inl IntegrityError
    end
  else inr d1.

(** [cursor.executemany(INSERT INTO articles ..., rows)] *)
Definition executemany_articles (rows : list article) : M unit :=
  log (Executemany (length rows)) ;;
  for_each rows (fun a _ => apply_stmt (insert_article a)) tt.

(** INSERT INTO articles_fts(rowid, article_id, title, content, summary, author)
    SELECT id, id, title, content, summary, author FROM articles: one
    statement, all rows or none. *)
Fixpoint fts_insert_all (rows : table article) (t : table fts_entry)
  : option (table fts_entry) :=
  match rows with
  | [] => Some t
  | (k, a) :: rest =>
      match fts_insert k (fts_of k a) t with
      | Some t' => fts_insert_all rest t'
      | None => None
      end
  end.

Definition populate_fts (d : db) : exn + db :=
  match fts_insert_all (articles d) (articles_fts d) with
  | Some t => inr (set_articles_fts t d)
  | None => inl IntegrityError
  end.

(** ** The script *)

Definition NUM_FEEDS : nat := 1000.
#[local] Set Warnings "-abstract-large-number".
Definition NUM_ARTICLES : nat := 100000.
#[local] Set Warnings "+abstract-large-number".
Definition NUM_TAGS : nat := 50.

Definition LOREM_WORDS : list pystr := map u [
  "lorem"; "ipsum"; "dolor"; "sit"; "amet"; "consectetur"; "adipiscing";
  "elit"; "sed"; "do"; "eiusmod"; "tempor"; "incididunt"; "ut"; "labore";
  "et"; "dolore"; "magna"; "aliqua"; "enim"; "ad"; "minim"; "veniam";
  "quis"; "nostrud"; "exercitation"; "ullamco"; "laboris"; "nisi";
  "aliquip"; "ex"; "ea"; "commodo"; "consequat"; "duis"; "aute"; "irure";
  "in"; "reprehenderit"; "voluptate"; "velit"; "esse"; "cillum"; "fugiat";
  "nulla"; "pariatur"; "excepteur"; "sint"; "occaecat"; "cupidatat"; "non";
  "proident"; "sunt"; "culpa"; "qui"; "officia"; "deserunt"; "mollit";
  "anim"; "id"; "est"; "laborum"; "cras"; "justo"; "odio"; "dapibus";
  "facilisis"; "egestas"; "felis"; "donec"; "pulvinar"; "neque"; "laoreet";
  "suspendisse"; "interdum"; "faucibus"; "nisl"; "tincidunt"; "integer";
  "posuere"; "erat"; "ante"; "venenatis"; "morbi"; "leo"; "risus"; "porta";
  "ac"; "vestibulum"; "at"; "eros"; "praesent"; "blandit"; "euismod"
]%string.

Definition TAG_NAMES : list pystr := map u [
  "tech"; "news"; "science"; "politics"; "sports"; "entertainment";
  "gaming"; "programming"; "rust"; "python"; "javascript"; "linux";
  "open-source"; "security"; "ai"; "machine-learning"; "data-science";
  "web-dev"; "mobile"; "devops"; "cloud"; "database"; "networking";
  "hardware"; "software"; "tutorials"; "reviews"; "opinion"; "analysis";
  "breaking"; "daily"; "weekly"; "monthly"; "featured"; "popular";
  "trending"; "archived"; "important"; "bookmarked"; "read-later";
  "favorites"; "must-read"; "recommended"; "community"; "official";
  "indie"; "mainstream"; "international"; "local"
]%string.

Definition COLORS : list pystr := map u [
  "#3B82F6"; "#EF4444"; "#10B981"; "#F59E0B"; "#8B5CF6";
  "#EC4899"; "#06B6D4"; "#84CC16"; "#F97316"; "#6366F1"
]%string.

Definition STYLES : list pystr := map u ["solid"; "outline"; "subtle"]%string.

Definition lorem_words (count : nat) : M pystr :=
  ws <- choices LOREM_WORDS count ;; ret (join (u " ") ws).

Definition lorem_sentence : M pystr :=
  n <- randint 5 15 ;;
  sentence <- lorem_words (Z.to_nat n) ;;
  ret (capitalize sentence ++ u ".").

Definition lorem_paragraph : M pystr :=
  n <- randint 3 8 ;;
  sentences <- repeatM (Z.to_nat n) lorem_sentence ;;
  ret (join (u " ") sentences).

Definition lorem_paragraphs (count : nat) : M pystr :=
  paragraphs <- repeatM count
                  (p <- lorem_paragraph ;; ret (u "<p>" ++ p ++ u "</p>")) ;;
  ret (join [10%N] paragraphs).

(** [timedelta(days=d, hours=h, minutes=m)], in microseconds. *)
Definition timedelta (d h m : Z) : Z :=
  d * 86400000000 + h * 3600000000 + m * 60000000.

Section Migrations.

(** [conn.executescript(sql)]: what a script does to the connection, its
    pending transaction included, and whether it ran to its end ([false]:
    it raised part-way, OperationalError standing for the errors of the
    store).  The scripts are not among the sources. *)
Variable executescript : pystr -> connection -> connection * bool.

Definition conn_executescript (sql : pystr) : M unit := fun w =>
  let (c, ok) := executescript sql (conn w) in
  let w' := {| conn := c; rng := rng w;
               trace := trace w ++ [Executescript sql ok] |} in
  if ok then Return tt w' else Raise OperationalError w'.

(** The body of the loop over the migration files. *)
Definition run_migration (migration_file : file) : M unit :=
  print (u "  Running migration: " ++ fst migration_file) ;;
  sql <- match read_text (snd migration_file) with
         | Some sql => ret sql
         | None => raise UnicodeDecodeError
         end ;;
  match re_match (fst migration_file) with
  | None => raise ValueError
  | Some (version, group2) =>
      let description := replace_char 95 32 group2 in
      encoded <- match encode sql with
                 | Some bs => ret bs
                 | None => raise UnicodeEncodeError
                 end ;;
      let checksum := Sha384.digest encoded in
      conn_executescript sql ;;
      execute (insert_migration
                 {| version := version; description := description;
                    success := true; checksum := checksum;
                    execution_time := 1000000 |}) ;;
      commit
  end.

Definition run_migrations (MIGRATIONS_DIR : directory) : M unit :=
  execute create_migrations_table ;;
  commit ;;
  let migration_files := sorted path_ltb (glob_sql MIGRATIONS_DIR) in
  for_each migration_files (fun migration_file _ => run_migration migration_file) tt.

End Migrations.

Definition create_tags (num_tags : nat) : M (list Z) :=
  tag_ids <- for_each (firstn num_tags TAG_NAMES)
               (fun name tag_ids =>
                  color <- choice COLORS ;;
                  style <- choice STYLES ;;
                  k <- execute_insert
                         (insert_tag {| tag_name := name; tag_color := color;
                                        tag_style := style |}) ;;
                  ret (tag_ids ++ [k]))
               [] ;;
  commit ;;
  ret tag_ids.

(** One turn of the loop of [create_feeds]. *)
Definition create_feed (now : Z) (tag_ids : list Z) (i : nat) (feed_ids : list Z)
  : M (list Z) :=
  w3 <- lorem_words 3 ;;
  let title_ := u "Feed #" ++ str_of_nat (i + 1) ++ u ": " ++ title w3 in
  let url_ := u "https://invalid-feed-" ++ str_of_nat (i + 1)
              ++ u ".example.invalid/rss.xml" in
  description_ <- lorem_sentence ;;
  let site_url := u "https://invalid-feed-" ++ str_of_nat (i + 1)
                  ++ u ".example.invalid" in
  color <- choice COLORS ;;
  frequency <- choice (map u ["smart"; "frequent"; "normal"; "rare"]%string) ;;
  days <- randint 0 365 ;;
  let created := now - timedelta days 0 0 in
  k <- execute_insert
         (insert_feed {| feed_url := url_; feed_title := title_;
                         feed_description := description_;
                         feed_site_url := site_url; feed_color := color;
                         fetch_frequency := frequency;
                         feed_created_at := created;
                         feed_updated_at := created |}) ;;
  let feed_ids := feed_ids ++ [k] in
  num_tags <- randint 0 5 ;;
  (if (0 <? num_tags) && negb (length tag_ids =? 0)%nat then
     selected_tags <- sample tag_ids (Nat.min (Z.to_nat num_tags) (length tag_ids)) ;;
     for_each selected_tags
       (fun tag_id _ =>
          execute (insert_or_ignore_feed_tag (last feed_ids 0, tag_id)))
       tt
   else ret tt) ;;
  ret feed_ids.

Definition create_feeds (num_feeds : nat) (now : Z) (tag_ids : list Z) : M (list Z) :=
  feed_ids <- for_each (seq 0 num_feeds) (create_feed now tag_ids) [] ;;
  commit ;;
  ret feed_ids.

Definition batch_size : nat := 1000.

(** The record generated at turn [i] of the loop of [create_articles]. *)
Definition generate_article (now : Z) (feed_ids : list Z) (i : nat) : M article :=
  feed <- choice feed_ids ;;
  nwords <- randint 4 10 ;;
  ws <- lorem_words (Z.to_nat nwords) ;;
  let title_ := u "Article #" ++ str_of_nat (i + 1) ++ u ": " ++ title ws in
  guid_ <- uuid4 ;;
  let url_ := u "https://example.invalid/article/" ++ guid_ in
  nparagraphs <- randint 2 6 ;;
  content_ <- lorem_paragraphs (Z.to_nat nparagraphs) ;;
  summary_ <- lorem_paragraph ;;
  w2 <- lorem_words 2 ;;
  let author_ := title w2 in
  days <- randint 0 365 ;;
  hours <- randint 0 23 ;;
  minutes <- randint 0 59 ;;
  let published := now - timedelta days hours minutes in
  read <- random_lt_0_3 ;;
  starred <- random_lt_0_05 ;;
  offset <- randint 1 60 ;;
  let created := published + timedelta 0 0 offset in
  ret {| feed_id := feed; guid := guid_; article_title := title_; url := url_;
         content := content_; summary := summary_; author := author_;
         published_at := published; is_read := read; is_starred := starred;
         created_at := created; updated_at := created |}.

(** One turn of the batching loop. *)
Definition buffer_article (now : Z) (feed_ids : list Z) (i : nat)
    (articles_batch : list article) : M (list article) :=
  a <- generate_article now feed_ids i ;;
  let articles_batch := articles_batch ++ [a] in
  if (batch_size <=? length articles_batch)%nat then
    executemany_articles articles_batch ;;
    commit ;;
    ret []
  else ret articles_batch.

(** The three FTS triggers are dropped before the load. *)
Definition disable_fts_triggers : M unit :=
  execute (drop_trigger (u "articles_fts_insert")) ;;
  execute (drop_trigger (u "articles_fts_update")) ;;
  execute (drop_trigger (u "articles_fts_delete")) ;;
  commit.

(** The batched load: the loop, then the remaining articles. *)
Definition insert_articles (num_articles : nat) (now : Z) (feed_ids : list Z) : M unit :=
  articles_batch <- for_each (seq 0 num_articles) (buffer_article now feed_ids) [] ;;
  match articles_batch with
  | [] => ret tt
  | _ :: _ => executemany_articles articles_batch ;; commit
  end.

(** The bulk population of the FTS table and the triggers recreated. *)
Definition rebuild_fts : M unit :=
  execute populate_fts ;;
  commit ;;
  execute (create_trigger (u "articles_fts_insert")) ;;
  execute (create_trigger (u "articles_fts_delete")) ;;
  execute (create_trigger (u "articles_fts_update")) ;;
  commit.

Definition create_articles (num_articles : nat) (now : Z) (feed_ids : list Z) : M unit :=
  disable_fts_triggers ;;
  insert_articles num_articles now feed_ids ;;
  rebuild_fts.

(** SELECT COUNT( * ) FROM a table. *)
Definition count_rows {A} (rows : db -> list A) : M nat :=
  log Execute ;;
  fun w => Return (length (rows (live (conn w)))) w.

(** The statistics printed: feeds, articles, tags, feed-tag associations. *)
Definition print_stats : M (nat * nat * nat * nat) :=
  num_feeds <- count_rows feeds ;;
  num_articles <- count_rows articles ;;
  num_tags <- count_rows tags ;;
  num_feed_tags <- count_rows feed_tags ;;
  ret (num_feeds, num_articles, num_tags, num_feed_tags).

Definition final_world {A} (o : outcome A) : world :=
  match o with Return _ w => w | Raise _ w => w end.

Definition new_connection : connection := {| live := empty_db; durable := empty_db |}.

(** [DB_PATH.unlink()] then [sqlite3.connect(DB_PATH)]: a new, empty database. *)
Definition connect : M unit := fun w =>
  Return tt {| conn := new_connection; rng := rng w; trace := trace w |}.

(** [main]; [now1] and [now2] are the clock readings of [create_feeds] and
    [create_articles]; the value returned is what [print_stats] prints. *)
Definition main (executescript : pystr -> connection -> connection * bool)
    (MIGRATIONS_DIR : directory) (now1 now2 : Z) : M (nat * nat * nat * nat) :=
  connect ;;
  run_migrations executescript MIGRATIONS_DIR ;;
  tag_ids <- create_tags NUM_TAGS ;;
  feed_ids <- create_feeds NUM_FEEDS now1 tag_ids ;;
  create_articles NUM_ARTICLES now2 feed_ids ;;
  print_stats.

Definition start (o : N -> N) : world :=
  {| conn := new_connection; rng := {| oracle := o; drawn := 0 |}; trace := [] |}.

(** ** Observations *)

(** The rows of the tracking table, in the order of their insertion. *)
Definition migration_rows (d : db) : list migration :=
  match sqlx_migrations d with
  | Some rows => rows
  | None => []
  end.

Definition recorded_versions (d : db) : list Z := map version (migration_rows d).

(** The scripts passed to [executescript], with their success. *)
Definition scripts (tr : list event) : list (pystr * bool) :=
  flat_map (fun ev => match ev with
                      | Executescript sql ok => [(sql, ok)]
                      | _ => []
                      end) tr.

(** The text of a migration file, as the runner reads it. *)
Definition script_of (f : file) : pystr :=
  match read_text (snd f) with
  | Some sql => sql
  | None => []
  end.

Definition ran_ok (f : file) : pystr * bool := (script_of f, true).

(** [recorded f r]: [r] is the tracking record the runner writes for [f]. *)
Inductive recorded (f : file) (r : migration) : Prop :=
| recorded_intro (sql : pystr) (bs : pybytes) (group2 : pystr) :
    read_text (snd f) = Some sql ->
    encode sql = Some bs ->
    re_match (fst f) = Some (version r, group2) ->
    description r = replace_char 95 32 group2 ->
    success r = true ->
    checksum r = Sha384.digest bs ->
    execution_time r = 1000000 ->
    recorded f r.

(** Migration scripts leave the tracking table alone. *)
Definition keeps_tracking_table
    (executescript : pystr -> connection -> connection * bool) : Prop :=
  forall sql c,
    sqlx_migrations (live (fst (executescript sql c))) = sqlx_migrations (live c).

(** Faults raised before the script of a file is executed. *)
Definition before_script (e : exn) : Prop :=
  e = UnicodeEncodeError \/ e = UnicodeDecodeError \/ e = ValueError.

(** What a run of the migrations leaves behind, whatever its outcome: a
    prefix [done] of the sorted files is applied and recorded, and the run
    stops at the first file of [rest]. *)
Definition stops_at_first_fault
    (executescript : pystr -> connection -> connection * bool)
    (dir : directory) (w : world) : Prop :=
  let o := run_migrations executescript dir w in
  exists done rest recs,
    sorted path_ltb (glob_sql dir) = done ++ rest /\
    Forall2 recorded done recs /\
    migration_rows (live (conn (final_world o)))
      = migration_rows (live (conn w)) ++ recs /\
    match o with
    | Return _ w' =>
        rest = [] /\ scripts (trace w') = scripts (trace w) ++ map ran_ok done
    | Raise e w' =>
        exists f rest',
          rest = f :: rest' /\
          (re_match (fst f) = None ->
           scripts (trace w') = scripts (trace w) ++ map ran_ok done) /\
          ((before_script e /\
            scripts (trace w') = scripts (trace w) ++ map ran_ok done)
           \/ (e = OperationalError /\
               scripts (trace w')
                 = scripts (trace w) ++ map ran_ok done ++ [(script_of f, false)])
           \/ ((e = IntegrityError \/ e = OverflowError) /\
               scripts (trace w')
                 = scripts (trace w) ++ map ran_ok done ++ [(script_of f, true)]))
    end.

(** One success record per script that ran to its end. *)
Definition one_record_per_script_run (w : world) : Prop :=
  length (filter success (migration_rows (live (conn w))))
  = length (filter snd (scripts (trace w))).

(** The recorded versions ascend, in the order of their application. *)
Definition applied_in_version_order (w : world) : Prop :=
  Sorted Z.lt (recorded_versions (live (conn w))).

Definition is_ascii_digit (c : N) : bool := ((48 <=? c) && (c <=? 57))%N.

(** A name that starts with exactly [n] ASCII digits and an underscore. *)
Definition fixed_width (n : nat) (f : file) : bool :=
  forallb is_ascii_digit (firstn n (fst f))
  && (length (firstn n (fst f)) =? n)%nat
  && match skipn n (fst f) with
     | 95%N :: _ => true
     | _ => false
     end.

(** [f] is not after [g] in the order of their names. *)
Definition name_le (f g : file) : Prop := str_ltb (fst g) (fst f) = false.

(** The runner applies the files in the order of their names; that is the
    order of their versions when the names have versions of one width. *)
Definition applies_in_filename_order
    (executescript : pystr -> connection -> connection * bool)
    (dir : directory) (w : world) : Prop :=
  let files := sorted path_ltb (glob_sql dir) in
  let w' := final_world (run_migrations executescript dir w) in
  Sorted name_le files /\
  Permutation (glob_sql dir) files /\
  exists done rest recs,
    files = done ++ rest /\
    Forall2 recorded done recs /\
    migration_rows (live (conn w')) = migration_rows (live (conn w)) ++ recs /\
    forall n, forallb (fixed_width n) (glob_sql dir) = true ->
              Sorted Z.le (map version recs).

(** Every record written by a run is a success record with the constant
    execution time, and only applied files have one. *)
Definition writes_success_records_only
    (executescript : pystr -> connection -> connection * bool)
    (dir : directory) (w : world) : Prop :=
  let o := run_migrations executescript dir w in
  exists done rest recs,
    sorted path_ltb (glob_sql dir) = done ++ rest /\
    length recs = length done /\
    migration_rows (live (conn (final_world o)))
      = migration_rows (live (conn w)) ++ recs /\
    Forall (fun r => success r = true /\ execution_time r = 1000000) recs /\
    match o with
    | Return _ _ => rest = []
    | Raise _ _ => rest <> []
    end.

(** [draws m P]: [m] only consults the random generator; it returns, with a
    value that satisfies [P], and leaves the connection and the trace alone. *)
Definition draws {A} (m : M A) (P : A -> Prop) : Prop :=
  forall w, exists a w',
    m w = Return a w' /\ P a /\ conn w' = conn w /\ trace w' = trace w.

(** The causal order of the timestamps of an article. *)
Definition causal (a : article) : Prop :=
  exists minutes,
    1 <= minutes <= 60 /\
    created_at a = published_at a + timedelta 0 0 minutes /\
    published_at a <= created_at a.

(** The rows that an [executemany] appends to the articles table. *)
Definition append_rows (rows : list article) (t : table article) : table article :=
  fold_left (fun t a => t ++ [(next_rowid t, a)]) rows t.

(** The FTS table that mirrors a table of articles. *)
Definition fts_mirror (t : table article) : table fts_entry :=
  map (fun ka => (fst ka, fts_of (fst ka) (snd ka))) t.

(** The calls of a load of [k] articles: full batches, each committed, then
    the remaining articles, committed too. *)
Definition batch_events (k : nat) : list event :=
  concat (repeat [Executemany batch_size; Commit] (k / batch_size))
  ++ (if (k mod batch_size =? 0)%nat then []
      else [Executemany (k mod batch_size); Commit]).

(** An article made by the generator for one of the given feeds. *)
Definition generated (feed_ids : list Z) (a : article) : Prop :=
  causal a /\ In (feed_id a) feed_ids.

Definition fts_trigger_off (w : world) : Prop :=
  has_trigger (u "articles_fts_insert") (live (conn w)) = false.

(** The value of an ASCII digit. *)
Definition digit_value (c : N) : Z := Z.of_N (c - 48).

(** Every FTS entry belongs to an article. *)
Definition no_orphan_entries (d : db) : Prop :=
  incl (rowids (articles_fts d)) (rowids (articles d)).

(** The FTS table is the mirror of the articles: one entry per article,
    under the same identifier, with the article's text fields. *)
Definition mirrors (d : db) : Prop :=
  articles_fts d = fts_mirror (articles d) /\
  NoDup (rowids (articles d)) /\
  length (articles_fts d) = length (articles d).

Definition mirror_after_load (count : nat) (now : Z) (feed_ids : list Z)
    (w : world) : Prop :=
  (forall w', create_articles count now feed_ids w = Return tt w' ->
              mirrors (live (conn w')) /\ durable (conn w') = live (conn w'))
  /\ (feed_ids <> [] -> articles (live (conn w)) = [] ->
      exists w', create_articles count now feed_ids w = Return tt w').

(** The three maintenance triggers are in place. *)
Definition triggers_active (d : db) : bool :=
  has_trigger (u "articles_fts_insert") d
  && has_trigger (u "articles_fts_delete") d
  && has_trigger (u "articles_fts_update") d.

(** Every article has its FTS entry. *)
Definition mirror_populated (d : db) : bool :=
  forallb (fun k => has_rowid k (articles_fts d)) (rowids (articles d)).

(** A rebuild that changes nothing, or that fails and changes nothing. *)
Definition rebuild_is_noop_or_error (w : world) : Prop :=
  match rebuild_fts w with
  | Return _ w' => live (conn w') = live (conn w)
  | Raise e w' => e = IntegrityError /\ conn w' = conn w
  end.

(** The load appends [count] rows, all of them committed, by the calls of
    [batch_events]; what follows on the trace is the rebuild. *)
Definition loads_in_batches (count : nat) (now : Z) (feed_ids : list Z)
    (w : world) : Prop :=
  let w' := final_world (create_articles count now feed_ids w) in
  length (articles (live (conn w'))) = (length (articles (live (conn w))) + count)%nat /\
  articles (durable (conn w')) = articles (live (conn w')) /\
  exists tail,
    trace w' = trace w ++ [Execute; Execute; Execute; Commit]
                       ++ batch_events count ++ tail /\
    Forall (fun ev => ev = Execute \/ ev = Commit) tail.

(** The rows of feed_tags after a sequence of INSERT OR IGNORE. *)
Definition add_pairs (ps : list (Z * Z)) (ft : list (Z * Z)) : list (Z * Z) :=
  fold_left (fun ft p => if existsb (pair_eqb p) ft then ft else ft ++ [p]) ps ft.

(** The association rows of feeds [ks] with the tags selected for each. *)
Definition association_rows (ks : list Z) (sels : list (list Z)) : list (Z * Z) :=
  concat (map (fun ks => map (pair (fst ks)) (snd ks)) (combine ks sels)).

(** [sel] is drawn from [xs] without replacement. *)
Definition sampled_from (xs sel : list Z) : Prop :=
  exists rest, Permutation (sel ++ rest) xs.

(** Referential integrity of feed_tags, and no pair twice. *)
Definition feed_tags_consistent (d : db) : Prop :=
  NoDup (feed_tags d) /\
  forall p, In p (feed_tags d) ->
            In (fst p) (rowids (feeds d)) /\ In (snd p) (rowids (tags d)).

Definition assigns_sampled_tags (num_feeds : nat) (now : Z) (tag_ids : list Z)
    (w : world) : Prop :=
  exists feed_ids sels w',
    create_feeds num_feeds now tag_ids w = Return feed_ids w' /\
    length feed_ids = num_feeds /\
    length sels = num_feeds /\
    rowids (feeds (live (conn w'))) = rowids (feeds (live (conn w))) ++ feed_ids /\
    Forall (fun sel => (length sel <= 5)%nat /\ NoDup sel /\ incl sel tag_ids) sels /\
    feed_tags (live (conn w'))
    = feed_tags (live (conn w)) ++ association_rows feed_ids sels /\
    feed_tags_consistent (live (conn w')).

(** [preserves I m]: when [I] holds of the live database, it holds of it
    after [m], whatever the outcome. *)
Definition preserves {A} (I : db -> Prop) (m : M A) : Prop :=
  forall w, I (live (conn w)) -> I (live (conn (final_world (m w)))).



(** The names of the tags, in the order of their rows. *)
Definition tag_names (d : db) : list pystr := map (fun r => tag_name (snd r)) (tags d).


(** ** The generated text *)

(** How often a character occurs in a text. *)
Definition occurrences (c : N) (s : pystr) : nat := count_occ N.eq_dec s c.

(** The characters of the words: lower-case letters, and the space that
    separates them. *)
Definition is_word_char (c : N) : bool := is_ascii_lower c || (c =? 32)%N.

(** [count] words of the vocabulary, separated by single spaces. *)
Definition words_text (count : nat) (s : pystr) : Prop :=
  (exists ws, length ws = count /\
              Forall (fun x => In x LOREM_WORDS) ws /\
              s = join (u " ") ws) /\
  forallb is_word_char s = true /\
  occurrences 32 s = (count - 1)%nat.

(** A sentence: an upper-case letter, the rest of 5 to 15 words, and a
    full stop. *)
Definition sentence (s : pystr) : Prop :=
  exists c rest,
    s = c :: rest ++ u "." /\
    is_ascii_upper c = true /\
    forallb is_word_char rest = true /\
    (4 <= occurrences 32 rest <= 14)%nat.

(** A paragraph: 3 to 8 sentences, separated by single spaces. *)
Definition paragraph (p : pystr) : Prop :=
  exists sentences,
    (3 <= length sentences <= 8)%nat /\
    Forall sentence sentences /\
    p = join (u " ") sentences /\
    occurrences 46 p = length sentences.

(** [count] paragraphs as HTML, one per line. *)
Definition paragraphs_html (count : nat) (s : pystr) : Prop :=
  exists ps,
    length ps = count /\
    Forall paragraph ps /\
    s = join [10%N] (map (fun p => u "<p>" ++ p ++ u "</p>") ps) /\
    occurrences 10 s = (count - 1)%nat.

(** [count] words of the vocabulary with initial capitals, separated by
    single spaces. *)
Definition capitalized_words (count : nat) (s : pystr) : Prop :=
  exists ws, length ws = count /\
             Forall (fun x => In x LOREM_WORDS) ws /\
             s = join (u " ") (map capitalize ws).

(** ** The rows of the tracking table *)

(** A record as the runner writes it: a version that fits a 64-bit integer,
    a digest of 48 bytes, a description without underscores. *)
Definition well_formed_record (r : migration) : Prop :=
  0 <= version r < 2 ^ 63 /\
  length (checksum r) = 48%nat /\
  ~ In 95%N (description r) /\
  success r = true.

(** What a run adds to the tracking table, whatever its outcome: well-formed
    records under versions that are new and pairwise distinct. *)
Definition adds_well_formed_records
    (executescript : pystr -> connection -> connection * bool)
    (dir : directory) (w : world) : Prop :=
  let w' := final_world (run_migrations executescript dir w) in
  exists recs,
    migration_rows (live (conn w')) = migration_rows (live (conn w)) ++ recs /\
    Forall well_formed_record recs /\
    NoDup (map version recs) /\
    forall r, In r recs -> ~ In (version r) (recorded_versions (live (conn w))).

(** A second run over the same files: the script of the first file is
    executed again, and the run stops there without a new record. *)
Definition second_run_is_rejected
    (executescript : pystr -> connection -> connection * bool)
    (dir : directory) (w1 : world) : Prop :=
  exists f e ok w2,
    hd_error (sorted path_ltb (glob_sql dir)) = Some f /\
    run_migrations executescript dir w1 = Raise e w2 /\
    ((e = IntegrityError /\ ok = true) \/ (e = OperationalError /\ ok = false)) /\
    scripts (trace w2) = scripts (trace w1) ++ [(script_of f, ok)] /\
    migration_rows (live (conn w2)) = migration_rows (live (conn w1)).

(** The record the runner writes for a file. *)
Definition record_of (v : Z) (group2 : pystr) (bs : pybytes) : migration :=
  {| version := v; description := replace_char 95 32 group2; success := true;
     checksum := Sha384.digest bs; execution_time := 1000000 |}.

(** ** The rows of the tags and feeds tables *)

(** The row of a tag: its name, a colour and a style of the palettes. *)
Definition tag_row (name : pystr) (t : tag) : Prop :=
  tag_name t = name /\ In (tag_color t) COLORS /\ In (tag_style t) STYLES.

(** [create_tags] appends one row per name, in order, returns the
    identifiers of the new rows, and commits. *)
Definition appends_tag_rows (num_tags : nat) (w : world) : Prop :=
  exists new w',
    create_tags num_tags w = Return (rowids new) w' /\
    tags (live (conn w')) = tags (live (conn w)) ++ new /\
    Forall2 tag_row (firstn num_tags TAG_NAMES) (map snd new) /\
    durable (conn w') = live (conn w').

(** The row of the feed made at turn [i] of the loop. *)
Definition feed_row (now : Z) (i : nat) (f : feed) : Prop :=
  feed_url f = u "https://invalid-feed-" ++ str_of_nat (i + 1)
               ++ u ".example.invalid/rss.xml" /\
  feed_site_url f = u "https://invalid-feed-" ++ str_of_nat (i + 1)
                    ++ u ".example.invalid" /\
  (exists words, capitalized_words 3 words /\
                 feed_title f = u "Feed #" ++ str_of_nat (i + 1) ++ u ": " ++ words) /\
  sentence (feed_description f) /\
  In (feed_color f) COLORS /\
  In (fetch_frequency f) (map u ["smart"; "frequent"; "normal"; "rare"]%string) /\
  now - timedelta 365 0 0 <= feed_created_at f <= now /\
  feed_updated_at f = feed_created_at f.

(** [create_feeds] appends one row per turn, in order, under pairwise
    distinct URLs, returns the identifiers of the new rows, and commits. *)
Definition appends_feed_rows (num_feeds : nat) (now : Z) (tag_ids : list Z)
    (w : world) : Prop :=
  exists new w',
    create_feeds num_feeds now tag_ids w = Return (rowids new) w' /\
    feeds (live (conn w')) = feeds (live (conn w)) ++ new /\
    Forall2 (feed_row now) (seq 0 num_feeds) (map snd new) /\
    NoDup (map (fun kf => feed_url (snd kf)) new) /\
    durable (conn w') = live (conn w').

(** ** The rows of the articles table *)

(** The record generated at turn [i] of the loop of [create_articles]. *)
Definition article_row (now : Z) (feed_ids : list Z) (i : nat) (a : article) : Prop :=
  In (feed_id a) feed_ids /\
  (exists n words,
     (4 <= n <= 10)%nat /\ capitalized_words n words /\
     article_title a = u "Article #" ++ str_of_nat (i + 1) ++ u ": " ++ words) /\
  length (guid a) = 36%nat /\
  url a = u "https://example.invalid/article/" ++ guid a /\
  (exists n, (2 <= n <= 6)%nat /\ paragraphs_html n (content a)) /\
  paragraph (summary a) /\
  capitalized_words 2 (author a) /\
  now - timedelta 365 23 59 <= published_at a <= now /\
  published_at a < created_at a <= now + timedelta 0 0 60 /\
  updated_at a = created_at a.

(** The rows that [create_articles] appends, whatever its outcome. *)
Definition appends_article_rows (count : nat) (now : Z) (feed_ids : list Z)
    (w : world) : Prop :=
  let w' := final_world (create_articles count now feed_ids w) in
  exists added,
    articles (live (conn w')) = articles (live (conn w)) ++ added /\
    Forall2 (article_row now feed_ids) (seq 0 count) (map snd added).

(** On a table that was empty, the counter in the title of an article is
    its identifier. *)
Definition numbers_articles_by_identifier (count : nat) (now : Z)
    (feed_ids : list Z) (w : world) : Prop :=
  let w' := final_world (create_articles count now feed_ids w) in
  Forall2 (fun i ka =>
             fst ka = Z.of_nat (i + 1) /\
             exists words,
               article_title (snd ka)
               = u "Article #" ++ str_of_nat (i + 1) ++ u ": " ++ words)
          (seq 0 count) (articles (live (conn w'))).

(** None of the three maintenance triggers is in place. *)
Definition fts_triggers_dropped (d : db) : Prop :=
  has_trigger (u "articles_fts_insert") d = false /\
  has_trigger (u "articles_fts_update") d = false /\
  has_trigger (u "articles_fts_delete") d = false.

(** The two ways in which [create_articles] ends.  When it returns, the
    triggers are in place and every article has its FTS entry.  When it
    raises, the triggers are left dropped: for want of a feed, before any
    article is inserted, or at the bulk population of the FTS table, after
    all the articles are inserted. *)
Definition create_articles_ends (count : nat) (now : Z) (feed_ids : list Z)
    (w : world) : Prop :=
  match create_articles count now feed_ids w with
  | Return _ w' =>
      triggers_active (live (conn w')) = true /\
      mirror_populated (live (conn w')) = true /\
      length (articles (live (conn w')))
      = (length (articles (live (conn w))) + count)%nat /\
      durable (conn w') = live (conn w')
  | Raise e w' =>
      fts_triggers_dropped (live (conn w')) /\
      articles_fts (live (conn w')) = articles_fts (live (conn w)) /\
      durable (conn w') = live (conn w') /\
      ((e = IndexError /\ feed_ids = [] /\ count <> 0%nat /\
        articles (live (conn w')) = articles (live (conn w)))
       \/ (e = IntegrityError /\
           length (articles (live (conn w')))
           = (length (articles (live (conn w))) + count)%nat))
  end.

(** ** Commits and frames *)

(** A call that returns leaves nothing uncommitted. *)
Definition returns_committed {A} (o : outcome A) : Prop :=
  match o with
  | Return _ w' => durable (conn w') = live (conn w')
  | Raise _ _ => True
  end.




(** One commit, at the end: all the rows of the call or none. *)
Definition commits_all_or_nothing {A} (w : world) (o : outcome A) : Prop :=
  match o with
  | Return _ w' => durable (conn w') = live (conn w')
  | Raise _ w' => durable (conn w') = durable (conn w)
  end.

(** The tracking table as committed is the tracking table as seen. *)
Definition tracking_table_committed (w : world) : Prop :=
  sqlx_migrations (durable (conn w)) = sqlx_migrations (live (conn w)).

(** Migration scripts leave the committed tracking table alone: executed on
    a connection whose tracking table is committed, a script leaves it
    committed as it was. *)
Definition keeps_committed_tracking_table
    (executescript : pystr -> connection -> connection * bool) : Prop :=
  forall sql c,
    sqlx_migrations (durable c) = sqlx_migrations (live c) ->
    sqlx_migrations (durable (fst (executescript sql c)))
    = sqlx_migrations (live c).

(** ** Sample inputs *)

(** A script interpreter for the examples: a script whose text starts with
    [!] fails at once; any other script runs to its end and is entered in
    the schema table. *)
Definition sample_executescript (sql : pystr) (c : connection) : connection * bool :=
  match sql with
  | 33%N :: _ => (c, false)
  | _ =>
      let d := live c in
      let d' := {| sqlite_master := sqlite_master d ++ [sql];
                   sqlx_migrations := sqlx_migrations d; tags := tags d;
                   feeds := feeds d; feed_tags := feed_tags d;
                   articles := articles d; articles_fts := articles_fts d;
                   triggers := triggers d |} in
      ({| live := d'; durable := durable c |}, true)
  end.

Definition sample_oracle (i : N) : N := (7 * i + 3)%N.

Definition sql_file (name contents : string) : file := (u name, ascii_bytes contents).


(** Version 9 and version 10: the widths differ. *)
Definition dir_9_10 : directory :=
  [sql_file "9_x.sql" "SELECT 9;"; sql_file "10_x.sql" "SELECT 10;"].

(** Two files of version 1. *)
Definition dir_1_01 : directory :=
  [sql_file "1_a.sql" "SELECT 1;"; sql_file "01_b.sql" "SELECT 2;"].

(** Versions of one width, listed out of order, and a faulty script. *)
Definition dir_fixed : directory :=
  [sql_file "0003_c.sql" "!"; sql_file "0002_b.sql" "SELECT 2;";
   sql_file "0001_a.sql" "SELECT 1;"].

(** A migration file with a CR LF line ending. *)
Definition crlf_file : file :=
  (u "1_crlf.sql", ascii_bytes "SELECT 1;" ++ [x0d; x0a]).

(** A migration file that is not valid UTF-8. *)
Definition invalid_utf8_file : file := (u "2_bad.sql", [xff; xfe]).

(** A store with three tags. *)
Definition tagged_world : world :=
  final_world (create_tags 3 (start sample_oracle)).

(** A store after a load of three articles. *)
Definition loaded_world : world :=
  final_world (create_articles 3 1000000000000000 [1; 2] (start sample_oracle)).

(** A migration file named as the repository names them, and its record. *)
Definition initial_schema_file : file :=
  sql_file "20260102000001_initial_schema.sql" "SELECT 1;".

Definition initial_schema_record : migration :=
  record_of 20260102000001 (u "initial_schema") (ascii_bytes "SELECT 1;").

(** A store after a run over two migration files. *)
Definition migrated_world : world :=
  final_world (run_migrations sample_executescript dir_9_10 (start sample_oracle)).

(** An article inserted after the load. *)
Definition later_article : article :=
  {| feed_id := 1; guid := u "later"; article_title := u "Later";
     url := u "https://example.invalid/article/later"; content := u "<p>Later.</p>";
     summary := u "Later."; author := u "Lorem Ipsum";
     published_at := 1000000000000000; is_read := false; is_starred := false;
     created_at := 1000000060000000; updated_at := 1000000060000000 |}.

(** * Properties *)

(** ** The library functions, on examples *)

(** The digests of the empty message and of "abc" (FIPS 180-4 test vectors). *)
Example sha384_empty :
  hex (Sha384.digest [])
  = u "38b060a751ac96384cd9327eb1b1e36a21fdb71114be07434c0cc7bf63f6e1da274edebfe76f65fbd51ad2f14898b95b".
Proof. vm_compute. reflexivity. Qed.

Example sha384_abc :
  hex (Sha384.digest (ascii_bytes "abc"))
  = u "cb00753f45a35e8bb5a03d699ac65007272c32ab0eded1631a8b605a43ff5bed8086072ba1e7cc2358baeca134c825a7".
Proof. vm_compute. reflexivity. Qed.

(** A message of more than one block. *)
Example sha384_two_blocks :
  hex (Sha384.digest (repeat "a"%byte 200))
  = u "0691b6e978614b67d60557b2a2cddd53406508522efa21c624dbbfa8ab6e726d5c586b489c7c09f24109a64c10211d48".
Proof. vm_compute. reflexivity. Qed.

Example re_match_timestamp :
  re_match (u "20260102000001_initial_schema.sql")
  = Some (20260102000001, u "initial_schema").
Proof. vm_compute. reflexivity. Qed.

(** The pattern is anchored at the start only, and [.+] is greedy. *)
Example re_match_greedy : re_match (u "1_a.sqlb.sql") = Some (1, u "a.sqlb").
Proof. vm_compute. reflexivity. Qed.

Example re_match_rejects :
  map re_match [u "_a.sql"; u "1a.sql"; u "1_.sql"; u "x1_a.sql"]
  = [None; None; None; None].
Proof. vm_compute. reflexivity. Qed.

(** Text order puts 10 before 9. *)
Example sorted_names :
  map fst (sorted path_ltb (glob_sql dir_9_10)) = [u "10_x.sql"; u "9_x.sql"].
Proof. vm_compute. reflexivity. Qed.

(** The digests of a line of SQL that ends in LF and in CR LF. *)
Example sha384_lf :
  hex (Sha384.digest (ascii_bytes "SELECT 1;" ++ [x0a]))
  = u "24454095d8d7876ca8e842f34296ca645c83e0f7b50f048c99db4b2ff4da659267afc4ef3e994f3d74e18c741165d931".
Proof. vm_compute. reflexivity. Qed.

Example sha384_crlf :
  hex (Sha384.digest (snd crlf_file))
  = u "17397e2e60835e677161a3f8f86849089bb0b9ac29484fca0511f769d62d8c2e143ab512c903b43a60a01ad7452c86c6".
Proof. vm_compute. reflexivity. Qed.

Example read_text_crlf :
  read_text (snd crlf_file) = Some (u "SELECT 1;" ++ [10%N]).
Proof. vm_compute. reflexivity. Qed.

Example decode_rejects_overlong : decode [xc0; x80] = None.
Proof. reflexivity. Qed.

Example uuid4_format :
  uuid4 (start (fun _ => 0%N))
  = Return (u "00000000-0000-4000-8000-000000000000")
           {| conn := new_connection;
              rng := {| oracle := fun _ => 0%N; drawn := 1 |};
              trace := [] |}.
Proof. vm_compute. reflexivity. Qed.

(** ** The migration runner *)

Lemma scripts_app (tr1 tr2 : list event) :
  scripts (tr1 ++ tr2) = scripts tr1 ++ scripts tr2.
Proof. unfold scripts. apply flat_map_app. Qed.

Lemma migration_rows_some (d : db) (rows : list migration) :
  sqlx_migrations d = Some rows -> migration_rows d = rows.
Proof. unfold migration_rows. now intros ->. Qed.

(** What the calls on the connection return. *)
Lemma execute_ok (stmt : db -> exn + db) (w : world) (d : db) :
  stmt (live (conn w)) = inr d ->
  execute stmt w
  = Return tt {| conn := {| live := d; durable := durable (conn w) |};
                 rng := rng w; trace := trace w ++ [Execute] |}.
Proof. intros H. unfold execute, log, apply_stmt, bind. cbn. now rewrite H. Qed.

Lemma execute_err (stmt : db -> exn + db) (w : world) (e : exn) :
  stmt (live (conn w)) = inl e ->
  execute stmt w
  = Raise e {| conn := conn w; rng := rng w; trace := trace w ++ [Execute] |}.
Proof. intros H. unfold execute, log, apply_stmt, bind. cbn. now rewrite H. Qed.

Lemma commit_eq (w : world) :
  commit w
  = Return tt {| conn := {| live := live (conn w); durable := live (conn w) |};
                 rng := rng w; trace := trace w ++ [Commit] |}.
Proof. reflexivity. Qed.

Lemma insert_migration_cases (m : migration) (d : db) (rows : list migration) :
  sqlx_migrations d = Some rows ->
  insert_migration m d = inl OverflowError
  \/ insert_migration m d = inl IntegrityError
  \/ insert_migration m d = inr (set_migrations (Some (rows ++ [m])) d).
Proof.
  intros H. unfold insert_migration. rewrite H.
  destruct (2 ^ 63 <=? version m); [now left|].
  destruct (existsb _ rows); auto.
Qed.

Section RunMigration.

Variable executescript : pystr -> connection -> connection * bool.
Hypothesis keeps : keeps_tracking_table executescript.

(** One turn of the loop: either the file is applied and recorded, or the
    turn raises and the tracking table is as before. *)
Lemma run_migration_step (f : file) (w : world) (rows : list migration) :
  sqlx_migrations (live (conn w)) = Some rows ->
  match run_migration executescript f w with
  | Return _ w' =>
      exists r, recorded f r /\
                sqlx_migrations (live (conn w')) = Some (rows ++ [r]) /\
                scripts (trace w') = scripts (trace w) ++ [ran_ok f]
  | Raise e w' =>
      sqlx_migrations (live (conn w')) = Some rows /\
      (re_match (fst f) = None -> scripts (trace w') = scripts (trace w)) /\
      ((before_script e /\ scripts (trace w') = scripts (trace w))
       \/ (e = OperationalError /\
           scripts (trace w') = scripts (trace w) ++ [(script_of f, false)])
       \/ ((e = IntegrityError \/ e = OverflowError) /\
           scripts (trace w') = scripts (trace w) ++ [(script_of f, true)]))
  end.
Proof.
  intros Hrows.
  unfold run_migration, print, bind.
  destruct (forallb is_scalar _); cbn [ret raise].
  2:{ unfold before_script. auto 12. }
  destruct (read_text (snd f)) as [sql|] eqn:Hread; cbn [ret raise].
  2:{ unfold before_script. auto 12. }
  destruct (re_match (fst f)) as [[v group2]|] eqn:Hmatch; cbn [ret raise].
  2:{ unfold before_script. auto 12. }
  destruct (encode sql) as [bs|] eqn:Henc; cbn [ret raise].
  2:{ unfold before_script. split; [assumption|]. split; [discriminate|]. auto 12. }
  unfold conn_executescript.
  pose proof (keeps sql (conn w)) as Hkeep.
  destruct (executescript sql (conn w)) as [c ok] eqn:Hexec.
  cbn [fst] in Hkeep. rewrite Hrows in Hkeep.
  assert (Hscript : script_of f = sql) by (unfold script_of; now rewrite Hread).
  destruct ok.
  - set (m := {| version := v; description := replace_char 95 32 group2;
                 success := true; checksum := Sha384.digest bs;
                 execution_time := 1000000 |}).
    set (w1 := {| conn := c; rng := rng w;
                  trace := trace w ++ [Executescript sql true] |}).
    destruct (insert_migration_cases m (live (conn w1)) rows Hkeep)
      as [Hins|[Hins|Hins]].
    + rewrite (execute_err _ _ _ Hins). cbn [conn trace w1].
      rewrite !scripts_app, Hscript. cbn [scripts flat_map app].
      rewrite !app_nil_r.
      split; [assumption|]. split; [discriminate|]. auto 12.
    + rewrite (execute_err _ _ _ Hins). cbn [conn trace w1].
      rewrite !scripts_app, Hscript. cbn [scripts flat_map app].
      rewrite !app_nil_r.
      split; [assumption|]. split; [discriminate|]. auto 12.
    + rewrite (execute_ok _ _ _ Hins), commit_eq.
      cbn [conn trace live w1 set_migrations sqlx_migrations].
      rewrite !scripts_app. cbn [scripts flat_map app]. rewrite !app_nil_r.
      exists m. split; [|split; [reflexivity|]].
      * econstructor; subst m; cbn; eauto.
      * unfold ran_ok. now rewrite Hscript.
  - cbn [conn trace]. rewrite !scripts_app, Hscript. cbn [scripts flat_map app].
    split; [assumption|]. split; [discriminate|]. auto 12.
Qed.

(** The loop over the sorted files. *)
Lemma run_migration_loop (fs : list file) :
  forall (w : world) (rows : list migration),
    sqlx_migrations (live (conn w)) = Some rows ->
    let o := for_each fs (fun f _ => run_migration executescript f) tt w in
    exists done rest recs,
      fs = done ++ rest /\
      Forall2 recorded done recs /\
      sqlx_migrations (live (conn (final_world o))) = Some (rows ++ recs) /\
      match o with
      | Return _ w' =>
          rest = [] /\ scripts (trace w') = scripts (trace w) ++ map ran_ok done
      | Raise e w' =>
          exists f rest',
            rest = f :: rest' /\
            (re_match (fst f) = None ->
             scripts (trace w') = scripts (trace w) ++ map ran_ok done) /\
            ((before_script e /\
              scripts (trace w') = scripts (trace w) ++ map ran_ok done)
             \/ (e = OperationalError /\
                 scripts (trace w')
                 = scripts (trace w) ++ map ran_ok done ++ [(script_of f, false)])
             \/ ((e = IntegrityError \/ e = OverflowError) /\
                 scripts (trace w')
                 = scripts (trace w) ++ map ran_ok done ++ [(script_of f, true)]))
      end.
Proof.
  induction fs as [|f fs IH]; intros w rows Hrows.
  - exists [], [], []. cbn. rewrite !app_nil_r. auto.
  - cbn [for_each]. unfold bind.
    pose proof (run_migration_step f w rows Hrows) as Hstep.
    destruct (run_migration executescript f w) as [[] w1|e w1].
    + destruct Hstep as (r & Hrec & Hrows1 & Htr1).
      specialize (IH w1 _ Hrows1). cbn zeta in IH.
      destruct IH as (done & rest & recs & -> & Hdone & Hfinal & Hout).
      exists (f :: done), rest, (r :: recs).
      split; [reflexivity|]. split; [now constructor|].
      rewrite <- app_assoc in Hfinal. split; [exact Hfinal|].
      destruct (for_each (done ++ rest) _ tt w1) as [[] w2|e w2].
      * destruct Hout as [-> Htr]. split; [reflexivity|].
        rewrite Htr, Htr1, <- app_assoc. reflexivity.
      * destruct Hout as (g & rest' & -> & Hnone & Hcases).
        exists g, rest'. split; [reflexivity|].
        rewrite Htr1 in Hnone, Hcases.
        repeat rewrite <- app_assoc in Hcases. rewrite <- app_assoc in Hnone.
        cbn [map]. split; [exact Hnone|exact Hcases].
    + destruct Hstep as (Hrows1 & Hnone & Hcases).
      exists [], (f :: fs), []. cbn [app map final_world]. rewrite !app_nil_r.
      split; [reflexivity|]. split; [constructor|]. split; [assumption|].
      exists f, fs. split; [reflexivity|]. split; [assumption|].
      cbn [app] in *. exact Hcases.
Qed.

End RunMigration.

Lemma create_migrations_table_ok (d : db) :
  exists d', create_migrations_table d = inr d' /\
             sqlx_migrations d' = Some (migration_rows d).
Proof.
  unfold create_migrations_table, migration_rows.
  destruct (sqlx_migrations d) eqn:H; eexists; split; try reflexivity; auto.
Qed.

(** The table is there when the loop starts. *)
Lemma run_migrations_loop_start
    (executescript : pystr -> connection -> connection * bool)
    (dir : directory) (w : world) :
  exists w0,
    run_migrations executescript dir w
    = for_each (sorted path_ltb (glob_sql dir))
        (fun f _ => run_migration executescript f) tt w0 /\
    sqlx_migrations (live (conn w0)) = Some (migration_rows (live (conn w))) /\
    scripts (trace w0) = scripts (trace w).
Proof.
  destruct (create_migrations_table_ok (live (conn w))) as (d' & Hcreate & Hrows).
  eexists. split.
  - unfold run_migrations. unfold bind at 1. rewrite (execute_ok _ _ _ Hcreate).
    unfold bind at 1. rewrite commit_eq. reflexivity.
  - cbn [conn live trace]. split; [exact Hrows|].
    rewrite !scripts_app. cbn. now rewrite !app_nil_r.
Qed.

(** The outcome of a whole run. *)
Lemma run_migrations_outcome
    (executescript : pystr -> connection -> connection * bool)
    (dir : directory) (w : world) :
  keeps_tracking_table executescript ->
  stops_at_first_fault executescript dir w.
Proof.
  intros keeps. unfold stops_at_first_fault.
  destruct (run_migrations_loop_start executescript dir w) as (w0 & -> & Hrows0 & Htr0).
  pose proof (run_migration_loop executescript keeps
                (sorted path_ltb (glob_sql dir)) w0 _ Hrows0) as Hloop.
  cbn zeta in Hloop. cbn zeta.
  destruct Hloop as (done & rest & recs & Hsplit & Hrec & Hfinal & Hout).
  exists done, rest, recs.
  split; [assumption|]. split; [assumption|].
  split; [now apply migration_rows_some|].
  rewrite Htr0 in Hout. exact Hout.
Qed.

(** *** Sorting *)

Lemma str_ltb_asym (a : pystr) :
  forall b, str_ltb a b = true -> str_ltb b a = false.
Proof.
  induction a as [|x a IH]; intros [|y b]; cbn; try easy.
  destruct (x <? y)%N eqn:Hxy.
  - intros _. apply N.ltb_lt in Hxy.
    destruct (y <? x)%N eqn:Hyx; [apply N.ltb_lt in Hyx; lia|].
    reflexivity.
  - destruct (y <? x)%N eqn:Hyx; [discriminate|]. apply IH.
Qed.

Lemma insert_by_perm {A} (ltb : A -> A -> bool) (x : A) (l : list A) :
  Permutation (x :: l) (insert_by ltb x l).
Proof.
  induction l as [|y l IH]; cbn; [reflexivity|].
  destruct (ltb y x); [|reflexivity].
  rewrite perm_swap. now constructor.
Qed.

Lemma sorted_perm {A} (ltb : A -> A -> bool) (l : list A) :
  Permutation l (sorted ltb l).
Proof.
  induction l as [|x l IH]; cbn; [constructor|].
  rewrite <- insert_by_perm. now constructor.
Qed.

Lemma insert_by_hd (x y : file) (l : list file) :
  name_le y x -> HdRel name_le y l -> HdRel name_le y (insert_by path_ltb x l).
Proof.
  intros Hyx Hl. destruct l as [|z l]; cbn; [now constructor|].
  destruct (path_ltb z x); constructor; [now inversion Hl|assumption].
Qed.

Lemma insert_by_sorted (x : file) (l : list file) :
  Sorted name_le l -> Sorted name_le (insert_by path_ltb x l).
Proof.
  induction 1 as [|y l Hl IH Hhd]; cbn; [repeat constructor|].
  destruct (path_ltb y x) eqn:Hyx.
  - constructor; [assumption|].
    apply insert_by_hd; [|assumption].
    unfold name_le. now apply str_ltb_asym.
  - constructor; [now constructor|]. constructor. exact Hyx.
Qed.

Lemma sorted_by_name (l : list file) : Sorted name_le (sorted path_ltb l).
Proof.
  induction l as [|x l IH]; cbn; [constructor|]. now apply insert_by_sorted.
Qed.

Lemma Sorted_app_l {A} (R : A -> A -> Prop) (l1 l2 : list A) :
  Sorted R (l1 ++ l2) -> Sorted R l1.
Proof.
  induction l1 as [|x l1 IH]; cbn; intros H; [constructor|].
  inversion H as [|? ? Hs Hhd]; subst. constructor; [now apply IH|].
  destruct l1; [constructor|]. inversion Hhd; subst. now constructor.
Qed.

(** *** Names with versions of one width *)

Lemma decimal_ascii_digit (c : N) :
  is_ascii_digit c = true -> decimal c = Some (digit_value c).
Proof.
  unfold is_ascii_digit, decimal, Nd_zeros. intros H.
  apply andb_prop in H as [H1 H2]. apply N.leb_le in H1, H2.
  cbn [find].
  replace ((48 <=? c) && (c <? 48 + 10))%N with true; [reflexivity|].
  symmetry. apply andb_true_intro. split; [now apply N.leb_le|apply N.ltb_lt; lia].
Qed.

Lemma span_digits_ascii (ds rest : pystr) :
  forallb is_ascii_digit ds = true ->
  span_digits (ds ++ 95%N :: rest) = (map digit_value ds, 95%N :: rest).
Proof.
  induction ds as [|c ds IH]; intros H.
  - reflexivity.
  - cbn [forallb] in H. apply andb_prop in H as [Hc Hds].
    cbn [app span_digits]. rewrite (decimal_ascii_digit c Hc), (IH Hds).
    reflexivity.
Qed.

Lemma int_of_digits_acc (ds : list Z) :
  forall acc, fold_left (fun acc d => 10 * acc + d) ds acc
              = acc * 10 ^ Z.of_nat (length ds) + int_of_digits ds.
Proof.
  unfold int_of_digits.
  induction ds as [|d ds IH]; intros acc.
  - cbn. lia.
  - cbn [fold_left length]. rewrite IH, (IH (10 * 0 + d)).
    rewrite Nat2Z.inj_succ, Z.pow_succ_r by lia. lia.
Qed.

Lemma int_of_digits_cons (d : Z) (ds : list Z) :
  int_of_digits (d :: ds) = d * 10 ^ Z.of_nat (length ds) + int_of_digits ds.
Proof.
  unfold int_of_digits at 1. cbn [fold_left]. rewrite int_of_digits_acc. lia.
Qed.

Lemma digit_value_range (c : N) :
  is_ascii_digit c = true -> 0 <= digit_value c <= 9.
Proof.
  unfold is_ascii_digit, digit_value. intros H.
  apply andb_prop in H as [H1 H2]. apply N.leb_le in H1, H2. lia.
Qed.

Lemma int_of_digits_bound (ds : pystr) :
  forallb is_ascii_digit ds = true ->
  0 <= int_of_digits (map digit_value ds) < 10 ^ Z.of_nat (length ds).
Proof.
  induction ds as [|c ds IH]; intros H.
  - cbn. lia.
  - cbn [forallb] in H. apply andb_prop in H as [Hc Hds].
    cbn [map length]. rewrite int_of_digits_cons, length_map.
    specialize (IH Hds). pose proof (digit_value_range c Hc).
    rewrite Nat2Z.inj_succ, Z.pow_succ_r by lia. nia.
Qed.

(** Among digit strings of one length, the order of the text is the order
    of the numbers. *)
Lemma fixed_width_order (ds1 : pystr) :
  forall ds2 r1 r2,
    length ds1 = length ds2 ->
    forallb is_ascii_digit ds1 = true ->
    forallb is_ascii_digit ds2 = true ->
    str_ltb (ds2 ++ r2) (ds1 ++ r1) = false ->
    int_of_digits (map digit_value ds1) <= int_of_digits (map digit_value ds2).
Proof.
  induction ds1 as [|c1 ds1 IH]; intros [|c2 ds2] r1 r2 Hlen H1 H2 Hle;
    try (cbn in Hlen; discriminate Hlen).
  - apply Z.le_refl.
  - cbn [forallb] in H1, H2.
    apply andb_prop in H1 as [Hc1 Hds1]. apply andb_prop in H2 as [Hc2 Hds2].
    cbn [length] in Hlen. injection Hlen as Hlen.
    cbn [map]. rewrite !int_of_digits_cons, !length_map, <- Hlen.
    pose proof (int_of_digits_bound ds1 Hds1) as B1.
    pose proof (int_of_digits_bound ds2 Hds2) as B2. rewrite <- Hlen in B2.
    cbn [app str_ltb] in Hle.
    destruct (c2 <? c1)%N eqn:H21; [discriminate|]. apply N.ltb_ge in H21.
    destruct (c1 <? c2)%N eqn:H12.
    + apply N.ltb_lt in H12.
      assert (digit_value c1 + 1 <= digit_value c2).
      { unfold digit_value. unfold is_ascii_digit in Hc1.
        apply andb_prop in Hc1 as [Hc1 _]. apply N.leb_le in Hc1. lia. }
      nia.
    + apply N.ltb_ge in H12. assert (c1 = c2) by lia. subst c2.
      specialize (IH ds2 r1 r2 Hlen Hds1 Hds2 Hle). lia.
Qed.

Lemma fixed_width_version (n : nat) (f : file) (r : migration) :
  fixed_width n f = true -> recorded f r ->
  fst f = firstn n (fst f) ++ skipn n (fst f) /\
  forallb is_ascii_digit (firstn n (fst f)) = true /\
  length (firstn n (fst f)) = n /\
  version r = int_of_digits (map digit_value (firstn n (fst f))).
Proof.
  unfold fixed_width. intros H Hrec.
  apply andb_prop in H as [H Hsep]. apply andb_prop in H as [Hdig Hlen].
  apply Nat.eqb_eq in Hlen.
  split; [symmetry; apply firstn_skipn|]. split; [assumption|].
  split; [assumption|].
  destruct Hrec as [sql bs g2 _ _ Hmatch _ _ _ _].
  unfold re_match in Hmatch.
  rewrite <- (firstn_skipn n (fst f)) in Hmatch.
  destruct (skipn n (fst f)) as [|c rest]; [discriminate|].
  destruct c as [|p]; [discriminate|].
  assert (Hc : N.pos p = 95%N).
  { destruct (N.eq_dec (N.pos p) 95) as [E|E]; [exact E|].
    exfalso. revert Hsep. clear -E.
    do 7 (destruct p as [p|p|]; try discriminate); congruence. }
  rewrite Hc in Hmatch.
  rewrite (span_digits_ascii _ rest Hdig) in Hmatch.
  destruct (map digit_value (firstn n (fst f))) as [|d ds] eqn:Hmap;
    [discriminate|].
  destruct (dot_plus_sql rest); cbn in Hmatch; [|discriminate].
  now injection Hmatch as <- _.
Qed.

Lemma fixed_width_names_order (n : nat) (f g : file) (r s : migration) :
  fixed_width n f = true -> fixed_width n g = true ->
  recorded f r -> recorded g s -> name_le f g ->
  version r <= version s.
Proof.
  intros Hf Hg Hr Hs Hle.
  destruct (fixed_width_version n f r Hf Hr) as (Ef & Df & Lf & ->).
  destruct (fixed_width_version n g s Hg Hs) as (Eg & Dg & Lg & ->).
  unfold name_le in Hle. rewrite Ef, Eg in Hle.
  eapply fixed_width_order; eauto. congruence.
Qed.

Lemma recorded_versions_sorted (n : nat) (done : list file) :
  forall recs,
    Forall2 recorded done recs ->
    Sorted name_le done ->
    forallb (fixed_width n) done = true ->
    Sorted Z.le (map version recs).
Proof.
  induction done as [|f done IH]; intros recs H2 Hs Hw.
  - inversion H2; subst. constructor.
  - inversion H2 as [|? r ? recs' Hr Hrest]; subst.
    cbn [forallb] in Hw. apply andb_prop in Hw as [Hf Hw].
    inversion Hs as [|? ? Hs' Hhd]; subst.
    cbn [map]. constructor; [now apply IH|].
    destruct Hrest as [|g s done' recs'' Hg Hrest']; cbn [map]; constructor.
    cbn [forallb] in Hw. apply andb_prop in Hw as [Hgw _].
    inversion Hhd; subst.
    exact (fixed_width_names_order n f g r s Hf Hgw Hr Hg ltac:(assumption)).
Qed.

(** ** The checksum of text files *)

Lemma byte_of_to_N (b : byte) : byte_of_N (Byte.to_N b) = b.
Proof. unfold byte_of_N. now rewrite Byte.of_to_N. Qed.

(** The digits of a code point in base 64. *)
Lemma base64_digits_2 (x y : N) :
  (y < 64 ->
   (x * 64 + y) / 64 = x /\ (x * 64 + y) mod 64 = y)%N.
Proof.
  intros Hy. split; symmetry.
  - apply (N.div_unique _ _ _ y); lia.
  - apply (N.mod_unique _ _ x); lia.
Qed.

Lemma base64_digits_3 (x y z : N) :
  (y < 64 -> z < 64 ->
   let c := x * 4096 + y * 64 + z in
   c / 4096 = x /\ (c / 64) mod 64 = y /\ c mod 64 = z)%N.
Proof.
  intros Hy Hz c. subst c.
  assert (E : ((x * 4096 + y * 64 + z) / 64 = x * 64 + y)%N).
  { symmetry. apply (N.div_unique _ _ _ z); lia. }
  split; [|split].
  - symmetry. apply (N.div_unique _ _ _ (y * 64 + z)); lia.
  - rewrite E. symmetry. apply (N.mod_unique _ _ x); lia.
  - symmetry. apply (N.mod_unique _ _ (x * 64 + y)); lia.
Qed.

Lemma base64_digits_4 (x y z t : N) :
  (y < 64 -> z < 64 -> t < 64 ->
   let c := x * 262144 + y * 4096 + z * 64 + t in
   c / 262144 = x /\ (c / 4096) mod 64 = y /\ (c / 64) mod 64 = z /\ c mod 64 = t)%N.
Proof.
  intros Hy Hz Ht c. subst c.
  assert (E1 : ((x * 262144 + y * 4096 + z * 64 + t) / 4096 = x * 64 + y)%N).
  { symmetry. apply (N.div_unique _ _ _ (z * 64 + t)); lia. }
  assert (E2 : ((x * 262144 + y * 4096 + z * 64 + t) / 64 = x * 4096 + y * 64 + z)%N).
  { symmetry. apply (N.div_unique _ _ _ t); lia. }
  split; [|split; [|split]].
  - symmetry. apply (N.div_unique _ _ _ (y * 4096 + z * 64 + t)); lia.
  - rewrite E1. symmetry. apply (N.mod_unique _ _ x); lia.
  - rewrite E2. symmetry. apply (N.mod_unique _ _ (x * 64 + y)); lia.
  - symmetry. apply (N.mod_unique _ _ (x * 4096 + y * 64 + z)); lia.
Qed.

Lemma is_cont_range (b : byte) :
  is_cont b = true -> (cont_bits b < 64 /\ Byte.to_N b = 0x80 + cont_bits b)%N.
Proof.
  unfold is_cont, cont_bits. intros H. apply andb_prop in H as [H1 H2].
  apply N.leb_le in H1, H2. lia.
Qed.

Ltac ltb_false := symmetry; apply N.ltb_ge; lia.
Ltac ltb_true := symmetry; apply N.ltb_lt; lia.

(** Encoding what was decoded gives the bytes back: the decoder accepts
    shortest forms only. *)
Lemma decode_encode_upto (n : nat) :
  forall bs s, (length bs <= n)%nat -> decode bs = Some s -> encode s = Some bs.
Proof.
  induction n as [|n IH]; intros bs s Hlen Hdec.
  - destruct bs; [|cbn in Hlen; lia]. cbn in Hdec. injection Hdec as <-. reflexivity.
  - destruct bs as [|b0 r0]; [cbn in Hdec; injection Hdec as <-; reflexivity|].
    cbn [length] in Hlen. cbn [decode] in Hdec.
    destruct (Byte.to_N b0 <? 0x80)%N eqn:H1.
    { (* one byte *)
      apply N.ltb_lt in H1.
      destruct (decode r0) as [s'|] eqn:Hd; [|discriminate].
      cbn [option_map] in Hdec. injection Hdec as <-.
      cbn [encode]. unfold is_scalar.
      replace (Byte.to_N b0 <? 55296)%N with true by ltb_true. cbn [orb].
      rewrite (IH r0 s') by (assumption || lia).
      unfold utf8_encode_char. replace (Byte.to_N b0 <? 128)%N with true by ltb_true.
      now rewrite byte_of_to_N. }
    destruct ((0xC2 <=? Byte.to_N b0) && (Byte.to_N b0 <=? 0xDF))%N eqn:H2.
    { (* two bytes *)
      apply andb_prop in H2 as [H2a H2b]. apply N.leb_le in H2a, H2b.
      destruct r0 as [|b1 r1]; [discriminate|].
      destruct (is_cont b1) eqn:Hc1; [|discriminate].
      destruct (is_cont_range b1 Hc1) as [B1 E1].
      destruct (decode r1) as [s'|] eqn:Hd; [|discriminate].
      cbn [option_map] in Hdec. injection Hdec as <-.
      set (x := (Byte.to_N b0 - 192)%N) in *.
      destruct (base64_digits_2 x (cont_bits b1) B1) as [D1 D2].
      cbn [encode]. unfold is_scalar.
      replace (x * 64 + cont_bits b1 <? 55296)%N with true by (subst x; ltb_true).
      cbn [orb]. cbn [length] in Hlen.
      rewrite (IH r1 s') by (assumption || lia).
      unfold utf8_encode_char.
      replace (x * 64 + cont_bits b1 <? 128)%N with false by (subst x; ltb_false).
      replace (x * 64 + cont_bits b1 <? 2048)%N with true by (subst x; ltb_true).
      rewrite D1, D2.
      replace (192 + x)%N with (Byte.to_N b0) by (subst x; lia).
      rewrite <- E1, !byte_of_to_N. reflexivity. }
    destruct ((0xE0 <=? Byte.to_N b0) && (Byte.to_N b0 <=? 0xEF))%N eqn:H3.
    { (* three bytes *)
      apply andb_prop in H3 as [H3a H3b]. apply N.leb_le in H3a, H3b.
      destruct r0 as [|b1 [|b2 r2]]; try discriminate.
      set (x := (Byte.to_N b0 - 224)%N) in *.
      set (c := (x * 4096 + cont_bits b1 * 64 + cont_bits b2)%N) in *.
      destruct (is_cont b1 && is_cont b2 && (2048 <=? c)%N && is_scalar c) eqn:Hok;
        [|discriminate].
      apply andb_prop in Hok as [Hok Hsc]. apply andb_prop in Hok as [Hok Hmin].
      apply andb_prop in Hok as [Hc1 Hc2]. apply N.leb_le in Hmin.
      destruct (is_cont_range b1 Hc1) as [B1 E1].
      destruct (is_cont_range b2 Hc2) as [B2 E2].
      destruct (decode r2) as [s'|] eqn:Hd; [|discriminate].
      cbn [option_map] in Hdec. injection Hdec as <-.
      destruct (base64_digits_3 x (cont_bits b1) (cont_bits b2) B1 B2) as (D1 & D2 & D3).
      fold c in D1, D2, D3.
      cbn [encode]. rewrite Hsc. cbn [length] in Hlen.
      rewrite (IH r2 s') by (assumption || lia).
      unfold utf8_encode_char.
      replace (c <? 128)%N with false by ltb_false.
      replace (c <? 2048)%N with false by ltb_false.
      replace (c <? 65536)%N with true by (subst c x; ltb_true).
      rewrite D1, D2, D3.
      replace (224 + x)%N with (Byte.to_N b0) by (subst x; lia).
      rewrite <- E1, <- E2, !byte_of_to_N. reflexivity. }
    destruct ((0xF0 <=? Byte.to_N b0) && (Byte.to_N b0 <=? 0xF4))%N eqn:H4;
      [|discriminate].
    (* four bytes *)
    apply andb_prop in H4 as [H4a H4b]. apply N.leb_le in H4a, H4b.
    destruct r0 as [|b1 [|b2 [|b3 r3]]]; try discriminate.
    set (x := (Byte.to_N b0 - 240)%N) in *.
    set (c := (x * 262144 + cont_bits b1 * 4096 + cont_bits b2 * 64 + cont_bits b3)%N) in *.
    destruct (is_cont b1 && is_cont b2 && is_cont b3 && (65536 <=? c)%N
              && (c <=? 1114111)%N) eqn:Hok; [|discriminate].
    apply andb_prop in Hok as [Hok Hmax]. apply andb_prop in Hok as [Hok Hmin].
    apply andb_prop in Hok as [Hok Hc3]. apply andb_prop in Hok as [Hc1 Hc2].
    apply N.leb_le in Hmin, Hmax.
    destruct (is_cont_range b1 Hc1) as [B1 E1].
    destruct (is_cont_range b2 Hc2) as [B2 E2].
    destruct (is_cont_range b3 Hc3) as [B3 E3].
    destruct (decode r3) as [s'|] eqn:Hd; [|discriminate].
    cbn [option_map] in Hdec. injection Hdec as <-.
    destruct (base64_digits_4 x (cont_bits b1) (cont_bits b2) (cont_bits b3) B1 B2 B3)
      as (D1 & D2 & D3 & D4).
    fold c in D1, D2, D3, D4.
    cbn [encode]. unfold is_scalar.
    replace (c <? 55296)%N with false by ltb_false.
    replace (57343 <? c)%N with true by ltb_true.
    replace (c <=? 1114111)%N with true by (symmetry; now apply N.leb_le).
    cbn [orb andb]. cbn [length] in Hlen.
    rewrite (IH r3 s') by (assumption || lia).
    unfold utf8_encode_char.
    replace (c <? 128)%N with false by ltb_false.
    replace (c <? 2048)%N with false by ltb_false.
    replace (c <? 65536)%N with false by ltb_false.
    rewrite D1, D2, D3, D4.
    replace (240 + x)%N with (Byte.to_N b0) by (subst x; lia).
    rewrite <- E1, <- E2, <- E3, !byte_of_to_N. reflexivity.
Qed.

Lemma decode_encode (bs : pybytes) (s : pystr) :
  decode bs = Some s -> encode s = Some bs.
Proof. apply (decode_encode_upto (length bs)). apply Nat.le_refl. Qed.

Lemma translate_newlines_other (c : N) (rest : pystr) :
  c <> 13%N -> translate_newlines (c :: rest) = c :: translate_newlines rest.
Proof.
  intros Hc. destruct c as [|p]; [reflexivity|].
  do 4 (destruct p as [p|p|]; try reflexivity). congruence.
Qed.

(** Text without a carriage return is read as it is. *)
Lemma translate_newlines_no_cr (s : pystr) :
  ~ In 13%N s -> translate_newlines s = s.
Proof.
  induction s as [|c s IH]; intros H; [reflexivity|].
  rewrite translate_newlines_other by (intros ->; apply H; now left).
  rewrite IH; [reflexivity|]. intros Hin. apply H. now right.
Qed.

(** X8.  For a file of valid UTF-8 text without a carriage return, the
    recorded checksum is the SHA-384 digest of the bytes of the file: what
    [read_text] decodes, [encode] gives back byte for byte. *)
Lemma checksum_of_text_file (f : file) (r : migration) (s : pystr) :
  decode (snd f) = Some s -> ~ In 13%N s -> recorded f r ->
  checksum r = Sha384.digest (snd f).
Proof.
  intros Hdec Hcr [sql bs g2 Hread Henc _ _ _ Hsum _].
  unfold read_text in Hread. rewrite Hdec in Hread. cbn [option_map] in Hread.
  rewrite (translate_newlines_no_cr s Hcr) in Hread. injection Hread as <-.
  rewrite (decode_encode _ _ Hdec) in Henc. injection Henc as <-. exact Hsum.
Qed.

Lemma sample_executescript_keeps_tracking_table :
  keeps_tracking_table sample_executescript.
Proof.
  intros sql c. unfold sample_executescript.
  destruct sql as [|[|p] rest]; try reflexivity.
  do 6 (destruct p as [p|p|]; try reflexivity).
Qed.

(** C2, as amended.  The runner applies and records the migration files in
    the ascending order of their names, compared as text; this is the
    ascending order of their versions when every name starts with the same
    number of ASCII digits followed by an underscore. *)
Theorem run_migrations_in_filename_order
    (executescript : pystr -> connection -> connection * bool)
    (dir : directory) (w : world) :
  keeps_tracking_table executescript ->
  applies_in_filename_order executescript dir w.
Proof.
  intros keeps. unfold applies_in_filename_order. cbn zeta.
  split; [apply sorted_by_name|]. split; [apply sorted_perm|].
  destruct (run_migrations_outcome executescript dir w keeps)
    as (done & rest & recs & Hsplit & Hrec & Hrows & _).
  exists done, rest, recs.
  split; [assumption|]. split; [assumption|]. split; [assumption|].
  intros n Hwidth.
  apply (recorded_versions_sorted n done recs Hrec).
  - apply Sorted_app_l with (l2 := rest). rewrite <- Hsplit. apply sorted_by_name.
  - apply forallb_forall. intros f Hf.
    rewrite forallb_forall in Hwidth. apply Hwidth.
    apply (Permutation_in f (Permutation_sym (sorted_perm path_ltb (glob_sql dir)))).
    rewrite Hsplit. apply in_or_app. now left.
Qed.

Lemma run_migrations_in_filename_order_witness :
  keeps_tracking_table sample_executescript /\
  forallb (fixed_width 4) (glob_sql dir_fixed) = true /\
  applies_in_filename_order sample_executescript dir_fixed (start sample_oracle).
Proof.
  split; [exact sample_executescript_keeps_tracking_table|].
  split; [reflexivity|].
  exact (run_migrations_in_filename_order sample_executescript dir_fixed
           (start sample_oracle) sample_executescript_keeps_tracking_table).
Defined.

(** C2, as stated, fails: with the files 9_x.sql and 10_x.sql the runner
    records version 10 before version 9. *)
Lemma version_order_counterexample :
  ~ applied_in_version_order
      (final_world (run_migrations sample_executescript dir_9_10 (start sample_oracle))).
Proof.
  unfold applied_in_version_order.
  assert (E : recorded_versions
                (live (conn (final_world (run_migrations sample_executescript dir_9_10
                                            (start sample_oracle)))))
              = [10; 9]) by (vm_compute; reflexivity).
  rewrite E. intros H.
  inversion H as [|? ? _ Hhd]; subst. inversion Hhd; subst. lia.
Qed.

(** C5, as amended.  The files are processed in their sorted order and the
    run stops at the first faulty one: a prefix of the files is applied, each
    with exactly one success record, in order, and nothing is rolled back.
    A fault raised before the script (a name that does not match, text that
    cannot be read) leaves that script and all later ones unexecuted; a
    script that fails has no record; when the fault is the rejection of the
    tracking record (a version already recorded, or one of 2^63 or more) the
    script of the faulty file has run to its end and has no record. *)
Theorem run_migrations_stops_at_first_fault
    (executescript : pystr -> connection -> connection * bool)
    (dir : directory) (w : world) :
  keeps_tracking_table executescript ->
  stops_at_first_fault executescript dir w.
Proof. apply run_migrations_outcome. Qed.

Lemma run_migrations_stops_at_first_fault_witness :
  keeps_tracking_table sample_executescript /\
  stops_at_first_fault sample_executescript dir_fixed (start sample_oracle).
Proof.
  split; [exact sample_executescript_keeps_tracking_table|].
  exact (run_migrations_stops_at_first_fault sample_executescript dir_fixed
           (start sample_oracle) sample_executescript_keeps_tracking_table).
Defined.

(** C5, as stated, fails: with the files 01_b.sql and 1_a.sql both scripts
    run to their end, and the tracking table holds one record. *)
Lemma one_record_per_script_counterexample :
  ~ one_record_per_script_run
      (final_world (run_migrations sample_executescript dir_1_01 (start sample_oracle))).
Proof.
  unfold one_record_per_script_run. vm_compute. discriminate.
Qed.

(** C10.  Every record a run writes to the tracking table has success = true
    and execution_time = 1000000; records are written for the applied prefix
    of the files only, so that a file whose migration fails has none. *)
Theorem tracking_records_are_success_records
    (executescript : pystr -> connection -> connection * bool)
    (dir : directory) (w : world) :
  keeps_tracking_table executescript ->
  writes_success_records_only executescript dir w.
Proof.
  intros keeps. unfold writes_success_records_only. cbn zeta.
  destruct (run_migrations_outcome executescript dir w keeps)
    as (done & rest & recs & Hsplit & Hrec & Hrows & Hout).
  exists done, rest, recs.
  split; [assumption|].
  split; [symmetry; eapply Forall2_length; eassumption|].
  split; [assumption|]. split.
  - clear -Hrec. induction Hrec as [|f r done recs Hr _ IH]; constructor; auto.
    destruct Hr. auto.
  - destruct (run_migrations executescript dir w).
    + tauto.
    + destruct Hout as (f & rest' & -> & _). discriminate.
Qed.

Lemma tracking_records_are_success_records_witness :
  keeps_tracking_table sample_executescript /\
  writes_success_records_only sample_executescript dir_fixed (start sample_oracle).
Proof.
  split; [exact sample_executescript_keeps_tracking_table|].
  exact (tracking_records_are_success_records sample_executescript dir_fixed
           (start sample_oracle) sample_executescript_keeps_tracking_table).
Defined.

(** C4, at the failing input.  For a migration file that ends in CR LF the
    recorded checksum is the digest of the text with its newline translated
    to LF, which is not the digest of the bytes of the file. *)
Theorem crlf_checksum_is_not_of_the_file_bytes :
  let w' := final_world (run_migrations sample_executescript [crlf_file]
                           (start sample_oracle)) in
  map checksum (migration_rows (live (conn w')))
  = [Sha384.digest (ascii_bytes "SELECT 1;" ++ [x0a])]
  /\ Sha384.digest (ascii_bytes "SELECT 1;" ++ [x0a])
     <> Sha384.digest (snd crlf_file).
Proof.
  split.
  - vm_compute. reflexivity.
  - intros H. vm_compute in H. discriminate H.
Qed.

(** A file that is not valid UTF-8 is not applied: reading it raises before
    its script is executed, and nothing is recorded. *)
Lemma invalid_utf8_file_is_not_applied :
  exists w',
    run_migrations sample_executescript [invalid_utf8_file] (start sample_oracle)
    = Raise UnicodeDecodeError w' /\
    migration_rows (live (conn w')) = [] /\
    scripts (trace w') = [].
Proof. eexists. split; [vm_compute; reflexivity|]. split; reflexivity. Qed.

(** ** Random draws *)

Lemma draws_ret {A} (a : A) (P : A -> Prop) : P a -> draws (ret a) P.
Proof. intros H w. exists a, w. auto. Qed.

Lemma draws_bind {A B} (m : M A) (k : A -> M B) (P : A -> Prop) (Q : B -> Prop) :
  draws m P -> (forall a, P a -> draws (k a) Q) -> draws (bind m k) Q.
Proof.
  intros Hm Hk w. destruct (Hm w) as (a & w1 & E1 & Pa & C1 & T1).
  destruct (Hk a Pa w1) as (b & w2 & E2 & Qb & C2 & T2).
  exists b, w2. unfold bind. rewrite E1, E2. repeat split; congruence.
Qed.

Lemma draws_weaken {A} (m : M A) (P Q : A -> Prop) :
  draws m P -> (forall a, P a -> Q a) -> draws m Q.
Proof.
  intros Hm HPQ w. destruct (Hm w) as (a & w1 & E1 & Pa & C1 & T1).
  exists a, w1. auto.
Qed.

Lemma draws_randbelow (n : N) : n <> 0%N -> draws (randbelow n) (fun v => (v < n)%N).
Proof.
  intros Hn w. eexists. eexists. split; [reflexivity|].
  split; [now apply N.mod_lt|]. split; reflexivity.
Qed.

Lemma draws_randint (a b : Z) :
  a <= b -> draws (randint a b) (fun v => a <= v <= b).
Proof.
  intros Hab. unfold randint.
  apply draws_bind with (P := fun v => (v < Z.to_N (b - a + 1))%N).
  - apply draws_randbelow. lia.
  - intros v Hv. apply draws_ret.
    apply N2Z.inj_lt in Hv. rewrite Z2N.id in Hv by lia. lia.
Qed.

Lemma draws_choice {A} (xs : list A) : xs <> [] -> draws (choice xs) (fun x => In x xs).
Proof.
  intros Hxs. destruct xs as [|x xs]; [congruence|]. unfold choice.
  apply draws_bind with (P := fun v => (v < N.of_nat (length (x :: xs)))%N).
  - apply draws_randbelow. cbn [length]. lia.
  - intros v Hv. apply draws_ret. apply nth_In. lia.
Qed.

Lemma draws_repeatM {A} (n : nat) (m : M A) (P : A -> Prop) :
  draws m P -> draws (repeatM n m) (fun xs => length xs = n /\ Forall P xs).
Proof.
  intros Hm. induction n as [|n IH]; cbn [repeatM].
  - apply draws_ret. auto.
  - apply draws_bind with (P := P); [assumption|]. intros x Px.
    apply draws_bind with (P := fun xs => length xs = n /\ Forall P xs); [assumption|].
    intros xs [Hlen Hxs]. apply draws_ret. cbn [length]. auto.
Qed.

Lemma draws_any {A} (m : M A) (P : A -> Prop) : draws m P -> draws m (fun _ => True).
Proof. intros H. now apply draws_weaken with (P := P). Qed.

(** Stepping through a draw in a longer computation. *)
Lemma bind_draws {A B} (m : M A) (k : A -> M B) (P : A -> Prop) (w : world) :
  draws m P ->
  exists a w1, P a /\ conn w1 = conn w /\ trace w1 = trace w /\ bind m k w = k a w1.
Proof.
  intros H. destruct (H w) as (a & w1 & E & Pa & C & T).
  exists a, w1. unfold bind. rewrite E. auto.
Qed.

Ltac draw H a w1 Pa C T :=
  match goal with
  | |- context [bind ?m ?k ?w] =>
      let E := fresh "E" in
      destruct (bind_draws m k _ w H) as (a & w1 & Pa & C & T & E);
      rewrite E; clear E; cbv beta
  end.

Lemma LOREM_WORDS_nonempty : LOREM_WORDS <> [].
Proof. discriminate. Qed.

Lemma COLORS_nonempty : COLORS <> [].
Proof. discriminate. Qed.

Lemma STYLES_nonempty : STYLES <> [].
Proof. discriminate. Qed.

Lemma draws_lorem_words (count : nat) : draws (lorem_words count) (fun _ => True).
Proof.
  unfold lorem_words, choices.
  eapply draws_bind.
  - apply draws_repeatM. apply draws_choice, LOREM_WORDS_nonempty.
  - intros ws _. now apply draws_ret.
Qed.

Lemma draws_lorem_sentence : draws lorem_sentence (fun _ => True).
Proof.
  unfold lorem_sentence.
  eapply draws_bind; [apply (draws_randint 5 15); lia|]. intros n _.
  eapply draws_bind; [apply draws_lorem_words|]. intros s _.
  now apply draws_ret.
Qed.

Lemma draws_lorem_paragraph : draws lorem_paragraph (fun _ => True).
Proof.
  unfold lorem_paragraph.
  eapply draws_bind; [apply (draws_randint 3 8); lia|]. intros n _.
  eapply draws_bind; [apply draws_repeatM, draws_lorem_sentence|]. intros s _.
  now apply draws_ret.
Qed.

Lemma draws_lorem_paragraphs (count : nat) : draws (lorem_paragraphs count) (fun _ => True).
Proof.
  unfold lorem_paragraphs.
  eapply draws_bind.
  - apply draws_repeatM with (P := fun _ => True).
    eapply draws_bind; [apply draws_lorem_paragraph|]. intros p _. now apply draws_ret.
  - intros ps _. now apply draws_ret.
Qed.

Lemma draws_uuid4 : draws uuid4 (fun _ => True).
Proof.
  unfold uuid4. eapply draws_bind; [apply draws_randbelow; discriminate|].
  intros r _. now apply draws_ret.
Qed.

Lemma draws_random_lt_0_3 : draws random_lt_0_3 (fun _ => True).
Proof.
  unfold random_lt_0_3. eapply draws_bind; [apply draws_randbelow; discriminate|].
  intros r _. now apply draws_ret.
Qed.

Lemma draws_random_lt_0_05 : draws random_lt_0_05 (fun _ => True).
Proof.
  unfold random_lt_0_05. eapply draws_bind; [apply draws_randbelow; discriminate|].
  intros r _. now apply draws_ret.
Qed.

(** ** The article generator *)

Lemma timedelta_minutes (m : Z) : timedelta 0 0 m = m * 60000000.
Proof. unfold timedelta. lia. Qed.

Lemma draws_generate_article (now : Z) (feed_ids : list Z) (i : nat) :
  feed_ids <> [] ->
  draws (generate_article now feed_ids i)
        (fun a => causal a /\ In (feed_id a) feed_ids).
Proof.
  intros Hfeeds. unfold generate_article.
  eapply draws_bind; [apply draws_choice, Hfeeds|]. intros feed Hfeed.
  eapply draws_bind; [apply (draws_randint 4 10); lia|]. intros nwords _.
  eapply draws_bind; [apply draws_lorem_words|]. intros ws _.
  eapply draws_bind; [apply draws_uuid4|]. intros g _.
  eapply draws_bind; [apply (draws_randint 2 6); lia|]. intros np _.
  eapply draws_bind; [apply draws_lorem_paragraphs|]. intros c _.
  eapply draws_bind; [apply draws_lorem_paragraph|]. intros s _.
  eapply draws_bind; [apply draws_lorem_words|]. intros w2 _.
  eapply draws_bind; [apply (draws_randint 0 365); lia|]. intros days _.
  eapply draws_bind; [apply (draws_randint 0 23); lia|]. intros hours _.
  eapply draws_bind; [apply (draws_randint 0 59); lia|]. intros minutes _.
  eapply draws_bind; [apply draws_random_lt_0_3|]. intros rd _.
  eapply draws_bind; [apply draws_random_lt_0_05|]. intros st _.
  eapply draws_bind; [apply (draws_randint 1 60); lia|]. intros offset Hoffset.
  apply draws_ret. split; [|exact Hfeed].
  exists offset. cbn [created_at published_at].
  cbv beta in Hoffset.
  split; [exact Hoffset|]. split; [reflexivity|]. rewrite timedelta_minutes. lia.
Qed.

Lemma generate_article_no_feeds (now : Z) (i : nat) (w : world) :
  generate_article now [] i w = Raise IndexError w.
Proof. reflexivity. Qed.

(** ** Tables *)

Lemma fold_max_ge (ks : list Z) :
  forall k0, k0 <= fold_left Z.max ks k0 /\
             forall k, In k ks -> k <= fold_left Z.max ks k0.
Proof.
  induction ks as [|k1 ks IH]; intros k0; cbn [fold_left].
  - split; [lia|]. intros k [].
  - destruct (IH (Z.max k0 k1)) as [H0 Hin]. split; [lia|].
    intros k [<-|Hk]; [lia|]. now apply Hin.
Qed.

Lemma next_rowid_above {A} (t : table A) (k : Z) :
  In k (rowids t) -> k < next_rowid t.
Proof.
  unfold next_rowid. destruct (rowids t) as [|k0 ks]; [intros []|].
  destruct (fold_max_ge ks k0) as [H0 Hin].
  intros [<-|Hk]; [lia|]. specialize (Hin k Hk). lia.
Qed.

Lemma next_rowid_fresh {A} (t : table A) : ~ In (next_rowid t) (rowids t).
Proof. intros H. apply next_rowid_above in H. lia. Qed.

Lemma rowids_app {A} (t1 t2 : table A) : rowids (t1 ++ t2) = rowids t1 ++ rowids t2.
Proof. unfold rowids. apply map_app. Qed.

Lemma NoDup_snoc {A} (l : list A) (x : A) : NoDup l -> ~ In x l -> NoDup (l ++ [x]).
Proof.
  intros Hl Hx. apply NoDup_rev in Hl.
  rewrite <- (rev_involutive (l ++ [x])). apply NoDup_rev.
  rewrite rev_app_distr. cbn. constructor; [|assumption].
  now rewrite <- in_rev.
Qed.

Lemma has_rowid_In {A} (k : Z) (t : table A) : has_rowid k t = true <-> In k (rowids t).
Proof.
  unfold has_rowid. rewrite existsb_exists. split.
  - intros (x & Hx & E). apply Z.eqb_eq in E. now subst.
  - intros H. exists k. split; [assumption|apply Z.eqb_refl].
Qed.

Lemma has_rowid_not_In {A} (k : Z) (t : table A) :
  has_rowid k t = false <-> ~ In k (rowids t).
Proof.
  rewrite <- has_rowid_In. destruct (has_rowid k t); split; congruence.
Qed.

(** *** Rows appended by executemany *)

Lemma append_rows_spec (rows : list article) :
  forall t, exists added,
    append_rows rows t = t ++ added /\ map snd added = rows /\
    (NoDup (rowids t) -> NoDup (rowids (t ++ added))).
Proof.
  unfold append_rows.
  induction rows as [|a rows IH]; intros t; cbn [fold_left].
  - exists []. rewrite app_nil_r. auto.
  - destruct (IH (t ++ [(next_rowid t, a)])) as (added & E & Hsnd & Hnd).
    exists ((next_rowid t, a) :: added).
    rewrite E, <- app_assoc. cbn [app map snd].
    split; [reflexivity|]. split; [now rewrite Hsnd|].
    intros Ht. change (t ++ (next_rowid t, a) :: added)
      with (t ++ [(next_rowid t, a)] ++ added).
    rewrite app_assoc. apply Hnd.
    rewrite rowids_app. cbn. apply NoDup_snoc; [assumption|apply next_rowid_fresh].
Qed.

(** *** The FTS table *)

Lemma rowids_fts_mirror (t : table article) : rowids (fts_mirror t) = rowids t.
Proof. unfold rowids, fts_mirror. rewrite map_map. reflexivity. Qed.

Lemma fts_insert_all_some (rows : table article) :
  forall t t',
    fts_insert_all rows t = Some t' ->
    t' = t ++ fts_mirror rows /\
    NoDup (rowids rows) /\
    (forall k, In k (rowids rows) -> ~ In k (rowids t)).
Proof.
  induction rows as [|[k a] rows IH]; intros t t' H; cbn [fts_insert_all] in H.
  - injection H as <-. rewrite app_nil_r. repeat split; [constructor|intros k []].
  - unfold fts_insert in H. destruct (has_rowid k t) eqn:Hk; [discriminate|].
    apply has_rowid_not_In in Hk.
    destruct (IH _ _ H) as (-> & Hnd & Hfresh).
    rewrite <- app_assoc. cbn [app fts_mirror map fst snd].
    split; [reflexivity|]. split.
    + cbn. constructor; [|assumption].
      intros Hin. apply (Hfresh k Hin). rewrite rowids_app. cbn.
      apply in_or_app. right. now left.
    + intros k' [<-|Hk']; [assumption|].
      intros Hin. apply (Hfresh k' Hk'). rewrite rowids_app.
      apply in_or_app. now left.
Qed.

Lemma fts_insert_all_fresh (rows : table article) :
  forall t,
    NoDup (rowids rows) ->
    (forall k, In k (rowids rows) -> ~ In k (rowids t)) ->
    fts_insert_all rows t = Some (t ++ fts_mirror rows).
Proof.
  induction rows as [|[k a] rows IH]; intros t Hnd Hfresh; cbn [fts_insert_all].
  - now rewrite app_nil_r.
  - unfold fts_insert.
    assert (Hk : has_rowid k t = false).
    { apply has_rowid_not_In. apply Hfresh. now left. }
    rewrite Hk. cbn in Hnd. inversion Hnd as [|? ? Hnotin Hnd']; subst.
    rewrite IH.
    + rewrite <- app_assoc. reflexivity.
    + assumption.
    + intros k' Hk' Hin. rewrite rowids_app in Hin. apply in_app_or in Hin.
      destruct Hin as [Hin|[<-|[]]].
      * apply (Hfresh k'); [now right|assumption].
      * contradiction.
Qed.

(** A populated mirror rejects the first article. *)
Lemma fts_insert_all_populated (rows : table article) (t : table fts_entry) :
  rows <> [] -> incl (rowids rows) (rowids t) -> fts_insert_all rows t = None.
Proof.
  destruct rows as [|[k a] rows]; [congruence|]. intros _ Hincl.
  cbn [fts_insert_all]. unfold fts_insert.
  assert (Hk : has_rowid k t = true).
  { apply has_rowid_In. apply Hincl. now left. }
  now rewrite Hk.
Qed.

(** *** Triggers *)

Lemma has_trigger_filter (name other : pystr) (l : list pystr) :
  existsb (str_eqb name) l = false ->
  existsb (str_eqb name) (filter (fun n => negb (str_eqb other n)) l) = false.
Proof.
  induction l as [|x l IH]; cbn; [reflexivity|].
  intros H. apply orb_false_iff in H as [Hx Hl].
  destruct (negb (str_eqb other x)); cbn; [rewrite Hx|]; auto.
Qed.

Lemma has_trigger_dropped (name : pystr) (l : list pystr) :
  existsb (str_eqb name) (filter (fun n => negb (str_eqb name n)) l) = false.
Proof.
  induction l as [|x l IH]; cbn; [reflexivity|].
  destruct (str_eqb name x) eqn:E; cbn; [assumption|]. now rewrite E.
Qed.

(** ** The bulk load *)

Lemma insert_article_no_trigger (a : article) (d : db) :
  has_trigger (u "articles_fts_insert") d = false ->
  insert_article a d
  = inr (set_articles (articles d ++ [(next_rowid (articles d), a)]) d).
Proof. unfold insert_article. now intros ->. Qed.

Lemma executemany_articles_spec (rows : list article) :
  forall w,
    fts_trigger_off w ->
    exists w',
      executemany_articles rows w = Return tt w' /\
      articles (live (conn w')) = append_rows rows (articles (live (conn w))) /\
      articles_fts (live (conn w')) = articles_fts (live (conn w)) /\
      triggers (live (conn w')) = triggers (live (conn w)) /\
      trace w' = trace w ++ [Executemany (length rows)].
Proof.
  unfold executemany_articles, bind, log. intros w Hoff.
  set (w0 := {| conn := conn w; rng := rng w; trace := _ |}).
  assert (H0 : fts_trigger_off w0) by exact Hoff.
  change (articles (live (conn w))) with (articles (live (conn w0))).
  change (articles_fts (live (conn w))) with (articles_fts (live (conn w0))).
  change (triggers (live (conn w))) with (triggers (live (conn w0))).
  change (trace w ++ [Executemany (length rows)]) with (trace w0).
  clearbody w0. clear w Hoff. revert w0 H0.
  induction rows as [|a rows IH]; intros w Hoff; cbn [for_each].
  - exists w. auto.
  - unfold bind, apply_stmt.
    rewrite (insert_article_no_trigger a _ Hoff).
    set (w1 := {| conn := _; rng := rng w; trace := trace w |}).
    destruct (IH w1) as (w' & E & Ha & Hf & Ht & Htr); [exact Hoff|].
    exists w'. split; [exact E|]. auto.
Qed.

Lemma disable_fts_triggers_spec (w : world) :
  exists w',
    disable_fts_triggers w = Return tt w' /\
    fts_trigger_off w' /\
    articles (live (conn w')) = articles (live (conn w)) /\
    articles_fts (live (conn w')) = articles_fts (live (conn w)) /\
    durable (conn w') = live (conn w') /\
    trace w' = trace w ++ [Execute; Execute; Execute; Commit].
Proof.
  eexists. split; [reflexivity|].
  unfold fts_trigger_off, has_trigger. cbn [conn live durable trace articles articles_fts triggers set_triggers].
  split.
  - do 2 apply has_trigger_filter. apply has_trigger_dropped.
  - repeat split. rewrite <- !app_assoc. reflexivity.
Qed.

Lemma execute_create_trigger (name : pystr) (w : world) :
  exists w',
    execute (create_trigger name) w = Return tt w' /\
    articles (live (conn w')) = articles (live (conn w)) /\
    articles_fts (live (conn w')) = articles_fts (live (conn w)) /\
    (has_trigger name (live (conn w)) = true -> live (conn w') = live (conn w)) /\
    (forall n, has_trigger n (live (conn w)) = true ->
               has_trigger n (live (conn w')) = true) /\
    has_trigger name (live (conn w')) = true /\
    trace w' = trace w ++ [Execute].
Proof.
  unfold create_trigger.
  destruct (has_trigger name (live (conn w))) eqn:Hn.
  - eexists. split; [apply execute_ok; now rewrite Hn|].
    cbn [conn live trace]. auto 8.
  - eexists. split; [apply execute_ok; now rewrite Hn|].
    cbn [conn live trace articles articles_fts set_triggers].
    repeat split; try discriminate.
    + intros n H. unfold has_trigger in *. cbn [triggers set_triggers].
      rewrite existsb_app, H. reflexivity.
    + unfold has_trigger. cbn [triggers set_triggers].
      rewrite existsb_app. cbn [existsb]. unfold str_eqb at 2.
      destruct (list_eq_dec N.eq_dec name name); [|congruence].
      now rewrite orb_true_r.
Qed.

(** [rebuild_fts]: the bulk statement inserts all the rows or fails. *)
Lemma rebuild_fts_ok (w : world) (t : table fts_entry) :
  fts_insert_all (articles (live (conn w))) (articles_fts (live (conn w))) = Some t ->
  exists w',
    rebuild_fts w = Return tt w' /\
    articles_fts (live (conn w')) = t /\
    articles (live (conn w')) = articles (live (conn w)) /\
    durable (conn w') = live (conn w') /\
    triggers_active (live (conn w')) = true /\
    trace w' = trace w ++ [Execute; Commit; Execute; Execute; Execute; Commit].
Proof.
  intros H. unfold rebuild_fts. unfold bind at 1.
  rewrite (execute_ok populate_fts w (set_articles_fts t (live (conn w))))
    by (unfold populate_fts; now rewrite H).
  unfold bind at 1. rewrite commit_eq.
  set (w1 := {| conn := _; rng := _; trace := _ |}).
  destruct (execute_create_trigger (u "articles_fts_insert") w1)
    as (w2 & E2 & A2 & F2 & _ & _ & H2 & T2).
  destruct (execute_create_trigger (u "articles_fts_delete") w2)
    as (w3 & E3 & A3 & F3 & _ & M3 & H3 & T3).
  destruct (execute_create_trigger (u "articles_fts_update") w3)
    as (w4 & E4 & A4 & F4 & _ & M4 & H4 & T4).
  unfold bind at 1. rewrite E2. unfold bind at 1. rewrite E3.
  unfold bind. rewrite E4, commit_eq.
  eexists. split; [reflexivity|].
  cbn [conn live durable trace].
  rewrite F4, F3, F2, A4, A3, A2, T4, T3, T2. subst w1.
  cbn [conn live trace articles articles_fts set_articles_fts].
  repeat split.
  - unfold triggers_active. rewrite H4, (M4 _ H3), (M4 _ (M3 _ H2)). reflexivity.
  - rewrite <- !app_assoc. reflexivity.
Qed.

Lemma rebuild_fts_rejected (w : world) :
  fts_insert_all (articles (live (conn w))) (articles_fts (live (conn w))) = None ->
  rebuild_fts w
  = Raise IntegrityError
      {| conn := conn w; rng := rng w; trace := trace w ++ [Execute] |}.
Proof.
  intros H. unfold rebuild_fts. unfold bind at 1.
  rewrite (execute_err populate_fts w IntegrityError)
    by (unfold populate_fts; now rewrite H).
  reflexivity.
Qed.

Lemma batch_size_pos : batch_size <> 0%nat.
Proof. discriminate. Qed.

Lemma concat_repeat_succ {A} (x : list A) (n : nat) :
  concat (repeat x (n + 1)) = x ++ concat (repeat x n).
Proof. rewrite Nat.add_comm. reflexivity. Qed.

Section Load.

Variables (now : Z) (feed_ids : list Z).
Hypothesis some_feed : feed_ids <> [].

(** The loop: every article generated is either in the table or in the
    buffer, the buffer stays below the batch size, and every batch that
    was flushed is committed. *)
Lemma buffer_loop (turns : list nat) :
  forall batch w,
    fts_trigger_off w -> (length batch < batch_size)%nat ->
    exists batch' w' added gen,
      for_each turns (buffer_article now feed_ids) batch w = Return batch' w' /\
      fts_trigger_off w' /\
      articles (live (conn w')) = articles (live (conn w)) ++ added /\
      map snd added ++ batch' = batch ++ gen /\
      length gen = length turns /\
      Forall (generated feed_ids) gen /\
      (NoDup (rowids (articles (live (conn w)))) ->
       NoDup (rowids (articles (live (conn w'))))) /\
      articles_fts (live (conn w')) = articles_fts (live (conn w)) /\
      (durable (conn w) = live (conn w) -> durable (conn w') = live (conn w')) /\
      length batch' = ((length batch + length turns) mod batch_size)%nat /\
      trace w' = trace w ++ concat (repeat [Executemany batch_size; Commit]
                                      ((length batch + length turns) / batch_size)).
Proof.
  induction turns as [|i turns IH]; intros batch w Hoff Hlen.
  - exists batch, w, [], []. cbn [for_each length]. rewrite Nat.add_0_r.
    rewrite Nat.mod_small, Nat.div_small by assumption.
    cbn. rewrite !app_nil_r. repeat split; auto.
  - cbn [for_each]. unfold bind at 1. unfold buffer_article at 1. unfold bind at 1.
    destruct (draws_generate_article now feed_ids i some_feed w)
      as (a & w1 & E1 & Ha & C1 & T1).
    rewrite E1.
    assert (Hoff1 : fts_trigger_off w1) by (unfold fts_trigger_off; now rewrite C1).
    destruct (batch_size <=? length (batch ++ [a]))%nat eqn:Hflush.
    + apply Nat.leb_le in Hflush. rewrite length_app in Hflush. cbn [length] in Hflush.
      assert (Hfull : (length batch + 1 = batch_size)%nat) by lia.
      destruct (executemany_articles_spec (batch ++ [a]) w1 Hoff1)
        as (w2 & E2 & A2 & F2 & G2 & T2).
      unfold bind at 1. rewrite E2. unfold bind at 1. rewrite commit_eq.
      cbn [ret].
      set (w3 := {| conn := _; rng := rng w2; trace := _ |}).
      assert (Hoff3 : fts_trigger_off w3).
      { unfold fts_trigger_off, has_trigger. cbn [w3 conn live]. rewrite G2, C1.
        exact Hoff. }
      destruct (IH [] w3 Hoff3) as (batch' & w' & added & gen & E & Hoff' & A & Hs
                                    & Lg & Fg & Nd & F & D & Lb & T).
      { cbn [length]. pose proof batch_size_pos. lia. }
      destruct (append_rows_spec (batch ++ [a]) (articles (live (conn w1))))
        as (added1 & EA & SA & NA).
      exists batch', w', (added1 ++ added), (a :: gen).
      split; [exact E|]. split; [exact Hoff'|].
      split.
      { rewrite A. cbn [w3 conn live]. rewrite A2, EA, C1, app_assoc. reflexivity. }
      split.
      { rewrite map_app, SA, <- !app_assoc. cbn [app] in Hs. rewrite Hs. reflexivity. }
      split; [cbn [length]; now rewrite Lg|].
      split; [now constructor|].
      split.
      { intros Hnd. apply Nd. cbn [w3 conn live]. rewrite A2, EA.
        apply NA. now rewrite C1. }
      split; [rewrite F; cbn [w3 conn live]; now rewrite F2, C1|].
      split; [intros _; now apply D|].
      cbn [length] in Lb, T |- *.
      replace (length batch + S (length turns))%nat
        with (length turns + 1 * batch_size)%nat by lia.
      rewrite Nat.Div0.mod_add, Nat.div_add by apply batch_size_pos.
      split; [exact Lb|].
      rewrite T, concat_repeat_succ. cbn [w3 trace]. rewrite T2, T1.
      rewrite length_app. cbn [length]. rewrite Hfull.
      rewrite <- !app_assoc. reflexivity.
    + apply Nat.leb_gt in Hflush. cbn [ret].
      destruct (IH (batch ++ [a]) w1 Hoff1 Hflush)
        as (batch' & w' & added & gen & E & Hoff' & A & Hs
            & Lg & Fg & Nd & F & D & Lb & T).
      exists batch', w', added, (a :: gen).
      split; [exact E|]. split; [exact Hoff'|].
      rewrite C1 in A, Nd, F, D. rewrite T1 in T.
      split; [exact A|].
      split; [rewrite Hs, <- app_assoc; reflexivity|].
      split; [cbn [length]; now rewrite Lg|].
      split; [now constructor|].
      split; [exact Nd|]. split; [exact F|]. split; [exact D|].
      rewrite length_app in Lb, T. cbn [length] in Lb, T |- *.
      replace (length batch + S (length turns))%nat
        with (length batch + 1 + length turns)%nat by lia.
      split; [exact Lb|exact T].
Qed.

(** The whole load: [count] rows appended, all committed, in batches. *)
Lemma insert_articles_spec (count : nat) (w : world) :
  fts_trigger_off w ->
  durable (conn w) = live (conn w) ->
  exists w' added,
    insert_articles count now feed_ids w = Return tt w' /\
    articles (live (conn w')) = articles (live (conn w)) ++ added /\
    length added = count /\
    Forall (fun ka => generated feed_ids (snd ka)) added /\
    (NoDup (rowids (articles (live (conn w)))) ->
     NoDup (rowids (articles (live (conn w'))))) /\
    articles_fts (live (conn w')) = articles_fts (live (conn w)) /\
    durable (conn w') = live (conn w') /\
    trace w' = trace w ++ batch_events count.
Proof.
  intros Hoff Hdur. unfold insert_articles, bind.
  destruct (buffer_loop (seq 0 count) [] w Hoff)
    as (batch' & w1 & added & gen & E & Hoff1 & A & Hs & Lg & Fg & Nd & F & D & Lb & T).
  { cbn [length]. pose proof batch_size_pos. lia. }
  rewrite E. rewrite length_seq in Lg, Lb, T. cbn [length Nat.add app] in Lb, T, Hs.
  unfold batch_events.
  destruct batch' as [|a batch'].
  - exists w1, added. cbn [ret]. rewrite app_nil_r in Hs.
    split; [reflexivity|]. split; [exact A|].
    split; [rewrite <- (length_map snd), Hs; exact Lg|].
    split.
    { apply Forall_forall. intros ka Hka. rewrite Forall_forall in Fg.
      apply Fg. rewrite <- Hs. now apply in_map. }
    split; [exact Nd|]. split; [exact F|]. split; [now apply D|].
    cbn [length] in Lb. rewrite <- Lb. cbn [Nat.eqb]. now rewrite app_nil_r.
  - destruct (executemany_articles_spec (a :: batch') w1 Hoff1)
      as (w2 & E2 & A2 & F2 & G2 & T2).
    rewrite E2, commit_eq.
    destruct (append_rows_spec (a :: batch') (articles (live (conn w1))))
      as (added1 & EA & SA & NA).
    eexists. exists (added ++ added1). split; [reflexivity|].
    cbn [conn live durable trace].
    split; [rewrite A2, EA, A, app_assoc; reflexivity|].
    split.
    { rewrite <- (length_map snd), map_app, SA, Hs. exact Lg. }
    split.
    { apply Forall_forall. intros ka Hka. rewrite Forall_forall in Fg.
      apply Fg. rewrite <- Hs, <- SA, <- map_app. now apply in_map. }
    split; [intros Hnd; rewrite A2, EA; apply NA, Nd, Hnd|].
    split; [rewrite F2; exact F|]. split; [reflexivity|].
    rewrite T2, T, <- Lb.
    destruct (length (a :: batch') =? 0)%nat eqn:E0; [discriminate|].
    rewrite <- !app_assoc. reflexivity.
Qed.

End Load.

(** Without feeds the first article cannot be generated. *)
Lemma insert_articles_no_feeds (count : nat) (now : Z) (w : world) :
  insert_articles (S count) now [] w = Raise IndexError w.
Proof. reflexivity. Qed.

Lemma insert_articles_none (now : Z) (feed_ids : list Z) (w : world) :
  insert_articles 0 now feed_ids w = Return tt w.
Proof. reflexivity. Qed.

(** ** create_articles *)

(** The state [w2] in which the rebuild starts, or in which the call stops
    for want of a feed. *)
Lemma create_articles_cases (count : nat) (now : Z) (feed_ids : list Z) (w : world) :
  exists w2 added,
    articles (live (conn w2)) = articles (live (conn w)) ++ added /\
    Forall (fun ka => generated feed_ids (snd ka)) added /\
    articles_fts (live (conn w2)) = articles_fts (live (conn w)) /\
    (NoDup (rowids (articles (live (conn w)))) ->
     NoDup (rowids (articles (live (conn w2))))) /\
    ((feed_ids = [] /\ count <> 0%nat /\
      create_articles count now feed_ids w = Raise IndexError w2)
     \/ ((feed_ids <> [] \/ count = 0%nat) /\
         length added = count /\
         durable (conn w2) = live (conn w2) /\
         trace w2 = trace w ++ [Execute; Execute; Execute; Commit] ++ batch_events count /\
         create_articles count now feed_ids w = rebuild_fts w2)).
Proof.
  destruct (disable_fts_triggers_spec w) as (w1 & E1 & Hoff & A1 & F1 & D1 & T1).
  assert (E : create_articles count now feed_ids w
              = match insert_articles count now feed_ids w1 with
                | Return _ w2 => rebuild_fts w2
                | Raise e w2 => Raise e w2
                end).
  { unfold create_articles. unfold bind at 1. rewrite E1. reflexivity. }
  rewrite E. clear E.
  destruct feed_ids as [|f feed_ids].
  - destruct count as [|count].
    + exists w1, []. rewrite insert_articles_none, app_nil_r.
      split; [exact A1|]. split; [constructor|]. split; [exact F1|].
      split; [now rewrite A1|]. right.
      split; [now right|]. split; [reflexivity|]. split; [exact D1|].
      split; [|reflexivity]. rewrite T1. reflexivity.
    + exists w1, []. rewrite insert_articles_no_feeds, app_nil_r.
      split; [exact A1|]. split; [constructor|]. split; [exact F1|].
      split; [now rewrite A1|]. left. auto.
  - destruct (insert_articles_spec now (f :: feed_ids) ltac:(discriminate) count w1 Hoff D1)
      as (w2 & added & E2 & A2 & L2 & G2 & N2 & F2 & D2 & T2).
    rewrite E2. exists w2, added.
    split; [now rewrite A2, A1|]. split; [exact G2|]. split; [now rewrite F2, F1|].
    split; [now rewrite <- A1|]. right.
    split; [left; discriminate|]. split; [exact L2|]. split; [exact D2|].
    split; [|reflexivity]. rewrite T2, T1, <- app_assoc. reflexivity.
Qed.

(** The articles of the final state, whatever the outcome of the rebuild. *)
Lemma rebuild_fts_frame (w : world) :
  let w' := final_world (rebuild_fts w) in
  articles (live (conn w')) = articles (live (conn w)) /\
  (durable (conn w) = live (conn w) -> durable (conn w') = live (conn w')) /\
  exists tail, trace w' = trace w ++ tail /\
               Forall (fun ev => ev = Execute \/ ev = Commit) tail.
Proof.
  cbn zeta.
  destruct (fts_insert_all (articles (live (conn w))) (articles_fts (live (conn w))))
    as [t|] eqn:H.
  - destruct (rebuild_fts_ok w t H) as (w' & -> & _ & A & D & _ & T).
    cbn [final_world]. split; [exact A|]. split; [auto|].
    eexists. split; [exact T|].
    repeat (apply Forall_cons; [auto|]). apply Forall_nil.
  - rewrite (rebuild_fts_rejected w H). cbn [final_world conn trace].
    split; [reflexivity|]. split; [auto|].
    eexists. split; [reflexivity|].
    repeat (apply Forall_cons; [auto|]). apply Forall_nil.
Qed.

Lemma incl_nil_inv {A} (l : list A) : incl l [] -> l = [].
Proof. destruct l as [|x l]; [reflexivity|]. intros H. destruct (H x). now left. Qed.

(** The mirror after the load. *)
Lemma mirror_after_load_holds
    (count : nat) (now : Z) (feed_ids : list Z) (w : world) :
  no_orphan_entries (live (conn w)) ->
  mirror_after_load count now feed_ids w.
Proof.
  intros Horphan. unfold mirror_after_load.
  destruct (create_articles_cases count now feed_ids w)
    as (w2 & added & A & _ & F & N & Hcases).
  split.
  - intros w' Hret.
    destruct Hcases as [(_ & _ & E)|(_ & _ & _ & _ & E)]; [congruence|].
    rewrite E in Hret.
    destruct (fts_insert_all (articles (live (conn w2))) (articles_fts (live (conn w2))))
      as [t|] eqn:H.
    2:{ rewrite (rebuild_fts_rejected w2 H) in Hret. discriminate. }
    destruct (rebuild_fts_ok w2 t H) as (w'' & E' & Ft & At & Dt & _).
    rewrite E' in Hret. injection Hret as <-.
    destruct (fts_insert_all_some _ _ _ H) as (-> & Hnd & Hfresh).
    assert (Hempty : articles_fts (live (conn w)) = []).
    { destruct (articles_fts (live (conn w))) as [|[k e] rest] eqn:Hfts; [reflexivity|].
      exfalso. apply (Hfresh k).
      - rewrite A, rowids_app. apply in_or_app. left.
        apply Horphan. rewrite Hfts. now left.
      - rewrite F. now left. }
    rewrite F, Hempty in Ft. cbn [app] in Ft.
    split; [|exact Dt]. unfold mirrors. rewrite At, Ft.
    split; [reflexivity|]. split; [exact Hnd|].
    unfold fts_mirror. apply length_map.
  - intros Hfeeds Hnone.
    destruct Hcases as [(Hf & _)|(_ & _ & _ & _ & E)]; [contradiction|].
    assert (Hempty : articles_fts (live (conn w)) = []).
    { apply incl_nil_inv. unfold no_orphan_entries in Horphan.
      rewrite Hnone in Horphan.
      destruct (articles_fts (live (conn w))); [intros x []|].
      destruct (Horphan (fst p)). now left. }
    assert (H : fts_insert_all (articles (live (conn w2))) (articles_fts (live (conn w2)))
                = Some (articles_fts (live (conn w2)) ++ fts_mirror (articles (live (conn w2))))).
    { apply fts_insert_all_fresh.
      - apply N. rewrite Hnone. constructor.
      - intros k _. rewrite F, Hempty. intros []. }
    destruct (rebuild_fts_ok w2 _ H) as (w' & E' & _).
    exists w'. now rewrite E.
Qed.

(** C3.  When [create_articles] returns on a store whose FTS table has no
    entry without an article, the FTS table holds exactly one entry per
    article, under the identifier of the article and with its title, content,
    summary and author: the table is the mirror of the articles, the
    identifiers are distinct and the two counts are equal.  On a store
    without articles and with at least one feed the call does return. *)
Theorem fts_mirrors_articles_after_load
    (count : nat) (now : Z) (feed_ids : list Z) (w : world) :
  no_orphan_entries (live (conn w)) ->
  mirror_after_load count now feed_ids w.
Proof. apply mirror_after_load_holds. Qed.

Lemma fts_mirrors_articles_after_load_witness :
  no_orphan_entries (live (conn (start sample_oracle))) /\
  mirror_after_load 3 1000000000000000 [1; 2] (start sample_oracle).
Proof.
  assert (H : no_orphan_entries (live (conn (start sample_oracle))))
    by (intros k Hk; exact Hk).
  split; [exact H|].
  exact (fts_mirrors_articles_after_load 3 1000000000000000 [1; 2]
           (start sample_oracle) H).
Defined.

(** The rows and the calls of the load. *)
Lemma loads_in_batches_holds
    (count : nat) (now : Z) (feed_ids : list Z) (w : world) :
  feed_ids <> [] ->
  loads_in_batches count now feed_ids w.
Proof.
  intros Hfeeds. unfold loads_in_batches. cbn zeta.
  destruct (create_articles_cases count now feed_ids w)
    as (w2 & added & A & _ & _ & _ & Hcases).
  destruct Hcases as [(Hf & _)|(_ & L & D & T & E)]; [contradiction|].
  rewrite E.
  destruct (rebuild_fts_frame w2) as (A' & D' & tail & T' & Htail).
  split; [rewrite A', A, length_app, L; reflexivity|].
  split; [now rewrite (D' D)|].
  exists tail. split; [|exact Htail].
  rewrite T', T, <- !app_assoc. reflexivity.
Qed.

(** C6.  For every count and every non-empty list of feeds,
    [create_articles] appends exactly [count] rows to the articles table:
    the records are flushed by one executemany per full batch of
    [batch_size] = 1000, each followed by a commit, and the remaining
    records, when the count is not a multiple of the batch size, by a last
    executemany and commit; all the rows are committed. *)
Theorem create_articles_inserts_all_in_batches
    (count : nat) (now : Z) (feed_ids : list Z) (w : world) :
  feed_ids <> [] ->
  loads_in_batches count now feed_ids w.
Proof. apply loads_in_batches_holds. Qed.

Lemma create_articles_inserts_all_in_batches_witness :
  [1; 2] <> [] /\
  loads_in_batches 2500 1000000000000000 [1; 2] (start sample_oracle).
Proof.
  assert (H : [1; 2] <> []) by discriminate.
  split; [exact H|].
  exact (create_articles_inserts_all_in_batches 2500 1000000000000000 [1; 2]
           (start sample_oracle) H).
Defined.

(** The articles added, whatever the outcome of the call. *)
Lemma added_articles_causal
    (count : nat) (now : Z) (feed_ids : list Z) (w : world) :
  exists added,
    articles (live (conn (final_world (create_articles count now feed_ids w))))
    = articles (live (conn w)) ++ added /\
    Forall (fun ka => causal (snd ka)) added /\
    (feed_ids <> [] -> length added = count).
Proof.
  destruct (create_articles_cases count now feed_ids w)
    as (w2 & added & A & G & _ & _ & Hcases).
  exists added. split; [|split].
  - destruct Hcases as [(_ & _ & E)|(_ & _ & _ & _ & E)]; rewrite E.
    + exact A.
    + destruct (rebuild_fts_frame w2) as (A' & _). now rewrite A'.
  - apply Forall_forall. intros ka Hka. rewrite Forall_forall in G.
    now destruct (G ka Hka).
  - intros Hfeeds.
    destruct Hcases as [(Hf & _)|(_ & L & _)]; [contradiction|exact L].
Qed.

(** C8.  Every article that [create_articles] adds has created_at equal to
    published_at plus a whole number of minutes between 1 and 60, hence
    created_at >= published_at; with at least one feed, [count] articles
    are added. *)
Theorem created_at_follows_published_at
    (count : nat) (now : Z) (feed_ids : list Z) (w : world) :
  exists added,
    articles (live (conn (final_world (create_articles count now feed_ids w))))
    = articles (live (conn w)) ++ added /\
    Forall (fun ka => causal (snd ka)) added /\
    (feed_ids <> [] -> length added = count).
Proof. apply added_articles_causal. Qed.

Lemma set_articles_fts_same (d : db) : set_articles_fts (articles_fts d) d = d.
Proof. now destruct d. Qed.

Lemma execute_create_trigger_present (name : pystr) (w : world) :
  has_trigger name (live (conn w)) = true ->
  execute (create_trigger name) w
  = Return tt {| conn := conn w; rng := rng w; trace := trace w ++ [Execute] |}.
Proof.
  intros H. rewrite (execute_ok _ w (live (conn w))).
  - now destruct w as [[l d] r t].
  - unfold create_trigger. now rewrite H.
Qed.

(** C7.  When the three triggers are in place and every article has its FTS
    entry, the rebuild step either returns with the live database exactly as
    it was (there is no article) or raises IntegrityError with the
    connection exactly as it was: no entry is added to the FTS table. *)
Theorem rebuild_fts_again_is_noop_or_error (w : world) :
  triggers_active (live (conn w)) = true ->
  mirror_populated (live (conn w)) = true ->
  rebuild_is_noop_or_error w.
Proof.
  intros Htrig Hpop. unfold rebuild_is_noop_or_error.
  destruct (articles (live (conn w))) as [|ka rows] eqn:Hrows.
  - unfold triggers_active in Htrig.
    apply andb_prop in Htrig as [Htrig Hupd]. apply andb_prop in Htrig as [Hins Hdel].
    unfold rebuild_fts. unfold bind at 1.
    rewrite (execute_ok populate_fts w (live (conn w))).
    2:{ unfold populate_fts. rewrite Hrows. cbn [fts_insert_all].
        now rewrite set_articles_fts_same. }
    unfold bind at 1. rewrite commit_eq. cbn [conn live trace rng].
    unfold bind at 1. rewrite execute_create_trigger_present by exact Hins.
    unfold bind at 1. rewrite execute_create_trigger_present by exact Hdel.
    unfold bind at 1. rewrite execute_create_trigger_present by exact Hupd.
    reflexivity.
  - rewrite rebuild_fts_rejected; [now split|].
    apply fts_insert_all_populated; [now rewrite Hrows|].
    intros k Hk. unfold mirror_populated in Hpop. rewrite forallb_forall in Hpop.
    apply has_rowid_In. apply Hpop. exact Hk.
Qed.

Lemma rebuild_fts_again_is_noop_or_error_witness :
  triggers_active (live (conn loaded_world)) = true /\
  mirror_populated (live (conn loaded_world)) = true /\
  rebuild_is_noop_or_error loaded_world.
Proof.
  assert (H1 : triggers_active (live (conn loaded_world)) = true)
    by (vm_compute; reflexivity).
  assert (H2 : mirror_populated (live (conn loaded_world)) = true)
    by (vm_compute; reflexivity).
  split; [exact H1|]. split; [exact H2|].
  exact (rebuild_fts_again_is_noop_or_error loaded_world H1 H2).
Defined.

(** After a load that returns, the triggers are in place and every article
    has its entry: a second rebuild is rejected, or changes nothing. *)
Lemma create_articles_leaves_mirror_active
    (count : nat) (now : Z) (feed_ids : list Z) (w w' : world) :
  create_articles count now feed_ids w = Return tt w' ->
  triggers_active (live (conn w')) = true /\
  mirror_populated (live (conn w')) = true.
Proof.
  intros Hret.
  destruct (create_articles_cases count now feed_ids w)
    as (w2 & added & _ & _ & _ & _ & Hcases).
  destruct Hcases as [(_ & _ & E)|(_ & _ & _ & _ & E)]; [congruence|].
  rewrite E in Hret.
  destruct (fts_insert_all (articles (live (conn w2))) (articles_fts (live (conn w2))))
    as [t|] eqn:H.
  2:{ rewrite (rebuild_fts_rejected w2 H) in Hret. discriminate. }
  destruct (rebuild_fts_ok w2 t H) as (w'' & E' & Ft & At & _ & Htrig & _).
  rewrite E' in Hret. injection Hret as <-.
  split; [exact Htrig|].
  unfold mirror_populated. apply forallb_forall. intros k Hk.
  apply has_rowid_In. rewrite Ft.
  destruct (fts_insert_all_some _ _ _ H) as (-> & _).
  rewrite rowids_app, rowids_fts_mirror. apply in_or_app. right.
  now rewrite <- At.
Qed.

(** ** create_tags, on any store *)

Lemma str_eqb_eq (a b : pystr) : str_eqb a b = true <-> a = b.
Proof. unfold str_eqb. destruct (list_eq_dec N.eq_dec a b); split; congruence. Qed.

Lemma TAG_NAMES_NoDup : NoDup TAG_NAMES.
Proof.
  assert (E : nodup (list_eq_dec N.eq_dec) TAG_NAMES = TAG_NAMES)
    by (vm_compute; reflexivity).
  rewrite <- E. apply NoDup_nodup.
Qed.

Lemma tag_name_absent (name : pystr) (d : db) :
  ~ In name (tag_names d) ->
  existsb (fun r => str_eqb (tag_name (snd r)) name) (tags d) = false.
Proof.
  intros H. destruct (existsb _ (tags d)) eqn:E; [|reflexivity].
  exfalso. apply H. apply existsb_exists in E as (r & Hr & Hn).
  apply str_eqb_eq in Hn. subst name. unfold tag_names.
  now apply (in_map (fun r => tag_name (snd r))).
Qed.



(** ** create_tags *)

(** C1, at the failing input.  On a new database [create_tags] returns 49
    identifiers and leaves 49 rows in the tags table, committed: the
    vocabulary [TAG_NAMES] has 49 names, one less than [NUM_TAGS] = 50. *)
Theorem create_tags_inserts_49_rows (w : world) :
  exists tag_ids w',
    (connect ;; create_tags NUM_TAGS) w = Return tag_ids w' /\
    length tag_ids = 49%nat /\
    length (tags (live (conn w'))) = 49%nat /\
    length (tags (durable (conn w'))) = 49%nat /\
    length TAG_NAMES = 49%nat /\
    NUM_TAGS = 50%nat.
Proof.
  remember ((connect ;; create_tags NUM_TAGS) w) as o eqn:E.
  vm_compute in E. subst o.
  eexists. eexists. split; [reflexivity|].
  repeat split; reflexivity.
Qed.

(** ** Sampling without replacement *)

Lemma set_nth_app_l {A} (q r : list A) (v : A) :
  forall j, (j < length q)%nat -> set_nth j v (q ++ r) = set_nth j v q ++ r.
Proof.
  induction q as [|x q IH]; intros j Hj; cbn [length] in Hj; [lia|].
  destruct j as [|j]; cbn; [reflexivity|]. rewrite IH by lia. reflexivity.
Qed.

Lemma set_nth_last {A} (q : list A) (l v : A) :
  set_nth (length q) v (q ++ [l]) = q ++ [v].
Proof. induction q as [|x q IH]; cbn; [reflexivity|]. now rewrite IH. Qed.

Lemma nth_set_nth_perm {A} (q : list A) (v x : A) :
  forall j, (j < length q)%nat -> Permutation (nth j q x :: set_nth j v q) (v :: q).
Proof.
  induction q as [|y q IH]; intros j Hj; cbn [length] in Hj; [lia|].
  destruct j as [|j]; cbn [nth set_nth].
  - apply perm_swap.
  - rewrite perm_swap. rewrite (IH j) by lia. apply perm_swap.
Qed.

(** Picking the element at [j] and moving the last one into its place
    leaves the other elements of the pool. *)
Lemma pick_perm {A} (pool : list A) (x : A) (j : nat) :
  (j < length pool)%nat ->
  Permutation (nth j pool x :: removelast (set_nth j (last pool x) pool)) pool.
Proof.
  intros Hj.
  destruct (exists_last (l := pool)) as (q & l & ->).
  { intros ->. cbn in Hj. lia. }
  rewrite last_last. rewrite length_app in Hj. cbn [length] in Hj.
  destruct (Nat.eq_dec j (length q)) as [->|Hne].
  - rewrite nth_middle, set_nth_last, removelast_last.
    apply Permutation_cons_append.
  - assert (Hlt : (j < length q)%nat) by lia.
    rewrite app_nth1, set_nth_app_l, removelast_last by assumption.
    rewrite (nth_set_nth_perm q l x j Hlt). apply Permutation_cons_append.
Qed.

Lemma sample_pool_spec (k : nat) :
  forall pool : list Z,
    (k <= length pool)%nat ->
    draws (sample_pool pool k) (fun sel => length sel = k /\ sampled_from pool sel).
Proof.
  induction k as [|k IH]; intros pool Hk; cbn [sample_pool].
  - apply draws_ret. split; [reflexivity|]. exists pool. reflexivity.
  - destruct pool as [|x pool]; [cbn in Hk; lia|].
    eapply draws_bind.
    { apply draws_randbelow. cbn [length]. lia. }
    intros j Hj. cbv beta in Hj.
    assert (Hlt : (N.to_nat j < length (x :: pool))%nat) by lia.
    pose proof (pick_perm (x :: pool) x (N.to_nat j) Hlt) as Hperm.
    set (pool' := removelast (set_nth (N.to_nat j) (last (x :: pool) x) (x :: pool))) in *.
    assert (Hlen : length pool' = length pool).
    { apply Permutation_length in Hperm. cbn [length] in Hperm. lia. }
    eapply draws_bind.
    { apply (IH pool'). cbn [length] in Hk. lia. }
    intros rest [Hrl (rest' & Hrest)]. apply draws_ret.
    split; [cbn [length]; now rewrite Hrl|].
    exists rest'. cbn [app].
    eapply perm_trans; [apply perm_skip, Hrest|exact Hperm].
Qed.

Lemma sample_spec (xs : list Z) (k : nat) :
  (k <= length xs)%nat ->
  draws (sample xs k) (fun sel => length sel = k /\ sampled_from xs sel).
Proof.
  intros Hk. unfold sample.
  destruct (length xs <? k)%nat eqn:E; [apply Nat.ltb_lt in E; lia|].
  now apply sample_pool_spec.
Qed.

Lemma sampled_from_nil (xs : list Z) : sampled_from xs [].
Proof. exists xs. reflexivity. Qed.

Lemma sampled_from_NoDup (xs sel : list Z) :
  NoDup xs -> sampled_from xs sel -> NoDup sel /\ incl sel xs.
Proof.
  intros Hnd (rest & Hperm). split.
  - apply (Permutation_NoDup (Permutation_sym Hperm)) in Hnd.
    now apply NoDup_app_remove_r in Hnd.
  - intros t Ht. apply (Permutation_in t Hperm). apply in_or_app. now left.
Qed.

(** ** feed_tags *)

Lemma pair_eqb_eq (p q : Z * Z) : pair_eqb p q = true <-> p = q.
Proof.
  unfold pair_eqb. destruct p, q. cbn. rewrite andb_true_iff, !Z.eqb_eq.
  split; [intros [-> ->]; reflexivity|intros [= -> ->]; auto].
Qed.

Lemma existsb_pair_In (p : Z * Z) (ft : list (Z * Z)) :
  existsb (pair_eqb p) ft = true <-> In p ft.
Proof.
  rewrite existsb_exists. split.
  - intros (q & Hq & E). apply pair_eqb_eq in E. now subst.
  - intros H. exists p. split; [assumption|now apply pair_eqb_eq].
Qed.

Lemma add_pairs_app (ps qs ft : list (Z * Z)) :
  add_pairs (ps ++ qs) ft = add_pairs qs (add_pairs ps ft).
Proof. unfold add_pairs. apply fold_left_app. Qed.

(** New, distinct pairs are all inserted. *)
Lemma add_pairs_fresh (ps : list (Z * Z)) :
  forall ft, NoDup ps -> (forall p, In p ps -> ~ In p ft) -> add_pairs ps ft = ft ++ ps.
Proof.
  unfold add_pairs.
  induction ps as [|p ps IH]; intros ft Hnd Hfresh; cbn [fold_left].
  - now rewrite app_nil_r.
  - inversion Hnd as [|? ? Hp Hnd']; subst.
    destruct (existsb (pair_eqb p) ft) eqn:E.
    + apply existsb_pair_In in E. destruct (Hfresh p); [now left|assumption].
    + rewrite IH; [now rewrite <- app_assoc|assumption|].
      intros q Hq Hin. apply in_app_or in Hin. destruct Hin as [Hin|[<-|[]]].
      * apply (Hfresh q); [now right|assumption].
      * contradiction.
Qed.

Lemma insert_feed_tags_spec (k : Z) (sel : list Z) :
  forall w, exists w',
    for_each sel (fun tag_id _ => execute (insert_or_ignore_feed_tag (k, tag_id))) tt w
    = Return tt w' /\
    feed_tags (live (conn w')) = add_pairs (map (pair k) sel) (feed_tags (live (conn w))) /\
    feeds (live (conn w')) = feeds (live (conn w)) /\
    tags (live (conn w')) = tags (live (conn w)).
Proof.
  induction sel as [|t sel IH]; intros w; cbn [for_each].
  - exists w. auto.
  - unfold bind.
    destruct (existsb (pair_eqb (k, t)) (feed_tags (live (conn w)))) eqn:E.
    + rewrite (execute_ok _ w (live (conn w)))
        by (unfold insert_or_ignore_feed_tag; now rewrite E).
      destruct (IH {| conn := {| live := live (conn w); durable := durable (conn w) |};
                      rng := rng w; trace := trace w ++ [Execute] |})
        as (w' & E' & Ft & Fd & Tg).
      exists w'. split; [exact E'|]. cbn [conn live] in Ft, Fd, Tg.
      split; [|auto]. rewrite Ft. unfold add_pairs. cbn [map fold_left]. now rewrite E.
    + rewrite (execute_ok _ w (set_feed_tags (feed_tags (live (conn w)) ++ [(k, t)])
                                 (live (conn w))))
        by (unfold insert_or_ignore_feed_tag; now rewrite E).
      destruct (IH {| conn := {| live := set_feed_tags (feed_tags (live (conn w)) ++ [(k, t)])
                                           (live (conn w));
                                 durable := durable (conn w) |};
                      rng := rng w; trace := trace w ++ [Execute] |})
        as (w' & E' & Ft & Fd & Tg).
      exists w'. split; [exact E'|].
      cbn [conn live feed_tags feeds tags set_feed_tags] in Ft, Fd, Tg.
      split; [|auto]. rewrite Ft. unfold add_pairs. cbn [map fold_left]. now rewrite E.
Qed.

(** ** create_feeds *)

Lemma frequencies_nonempty :
  map u ["smart"; "frequent"; "normal"; "rare"]%string <> [].
Proof. discriminate. Qed.

(** One feed: its row, then one association row per selected tag. *)
Lemma create_feed_spec (now : Z) (tag_ids : list Z) (i : nat) (ids : list Z) (w : world) :
  exists k sel w',
    create_feed now tag_ids i ids w = Return (ids ++ [k]) w' /\
    k = next_rowid (feeds (live (conn w))) /\
    rowids (feeds (live (conn w'))) = rowids (feeds (live (conn w))) ++ [k] /\
    tags (live (conn w')) = tags (live (conn w)) /\
    (length sel <= 5)%nat /\
    sampled_from tag_ids sel /\
    feed_tags (live (conn w')) = add_pairs (map (pair k) sel) (feed_tags (live (conn w))).
Proof.
  unfold create_feed.
  draw (draws_lorem_words 3) w3 w1 P1 C1 T1.
  draw draws_lorem_sentence ds w2 P2 C2 T2.
  draw (draws_choice COLORS COLORS_nonempty) color w4 P4 C4 T4.
  draw (draws_choice _ frequencies_nonempty) freq w5 P5 C5 T5.
  draw (draws_randint 0 365 ltac:(lia)) days w6 P6 C6 T6.
  unfold bind at 1. unfold execute_insert at 1. unfold bind at 1, log at 1.
  unfold insert_feed at 1. cbv beta iota. cbn [conn live trace rng].
  set (k := next_rowid (feeds (live (conn w6)))).
  set (w7 := {| conn := _; rng := rng w6; trace := _ |}).
  assert (Hk : k = next_rowid (feeds (live (conn w)))).
  { subst k. now rewrite C6, C5, C4, C2, C1. }
  assert (F7 : rowids (feeds (live (conn w7))) = rowids (feeds (live (conn w))) ++ [k]).
  { cbn [w7 conn live feeds set_feeds]. rewrite rowids_app, C6, C5, C4, C2, C1.
    reflexivity. }
  assert (G7 : tags (live (conn w7)) = tags (live (conn w))).
  { cbn [w7 conn live tags set_feeds]. now rewrite C6, C5, C4, C2, C1. }
  assert (H7 : feed_tags (live (conn w7)) = feed_tags (live (conn w))).
  { cbn [w7 conn live feed_tags set_feeds]. now rewrite C6, C5, C4, C2, C1. }
  clearbody w7 k.
  draw (draws_randint 0 5 ltac:(lia)) num_tags w8 P8 C8 T8.
  rewrite last_last.
  destruct ((0 <? num_tags) && negb (length tag_ids =? 0)%nat) eqn:Hbranch.
  - assert (Hmin : (Nat.min (Z.to_nat num_tags) (length tag_ids) <= length tag_ids)%nat)
      by lia.
    unfold bind at 1.
    draw (sample_spec tag_ids _ Hmin) sel w9 P9 C9 T9.
    destruct P9 as [Lsel Ssel].
    destruct (insert_feed_tags_spec k sel w9) as (w10 & E10 & Ft & Fd & Tg).
    rewrite E10. cbn [ret].
    exists k, sel, w10. split; [reflexivity|]. split; [exact Hk|].
    unfold rowids in *. rewrite Fd, Tg, Ft, C9, C8.
    split; [exact F7|]. split; [exact G7|].
    split; [rewrite Lsel; lia|]. split; [exact Ssel|]. now rewrite H7.
  - unfold bind at 1. cbn [ret].
    exists k, [], w8. split; [reflexivity|]. split; [exact Hk|].
    rewrite C8. split; [exact F7|]. split; [exact G7|].
    split; [cbn; lia|]. split; [apply sampled_from_nil|]. now rewrite H7.
Qed.

(** The loop of [create_feeds], for any list of tag identifiers. *)
Lemma create_feeds_loop (now : Z) (tag_ids : list Z) (turns : list nat) :
  forall ids w, exists new sels w',
    for_each turns (create_feed now tag_ids) ids w = Return (ids ++ new) w' /\
    length new = length turns /\
    length sels = length turns /\
    rowids (feeds (live (conn w'))) = rowids (feeds (live (conn w))) ++ new /\
    tags (live (conn w')) = tags (live (conn w)) /\
    Forall (fun sel => (length sel <= 5)%nat /\ sampled_from tag_ids sel) sels /\
    feed_tags (live (conn w'))
    = add_pairs (association_rows new sels) (feed_tags (live (conn w))) /\
    NoDup new /\
    (forall k, In k new -> ~ In k (rowids (feeds (live (conn w))))).
Proof.
  induction turns as [|i turns IH]; intros ids w; cbn [for_each].
  - exists [], [], w. rewrite !app_nil_r. cbn. repeat split; auto; constructor.
  - unfold bind.
    destruct (create_feed_spec now tag_ids i ids w)
      as (k & sel & w1 & E1 & Hk & F1 & G1 & L1 & S1 & P1).
    rewrite E1.
    destruct (IH (ids ++ [k]) w1)
      as (new & sels & w' & E & Ln & Ls & F & G & Hs & P & Nd & Fresh).
    exists (k :: new), (sel :: sels), w'.
    rewrite <- app_assoc in E. split; [exact E|].
    split; [cbn [length]; now rewrite Ln|].
    split; [cbn [length]; now rewrite Ls|].
    split; [rewrite F, F1, <- app_assoc; reflexivity|].
    split; [now rewrite G|].
    split; [constructor; auto|].
    split.
    { rewrite P, P1. unfold association_rows. cbn [combine map concat fst snd].
      now rewrite add_pairs_app. }
    split.
    + constructor; [|exact Nd]. intros Hin. apply (Fresh k Hin).
      rewrite F1. apply in_or_app. right. now left.
    + intros k' [<-|Hk'].
      * rewrite Hk. apply next_rowid_fresh.
      * intros Hin. apply (Fresh k' Hk'). rewrite F1. apply in_or_app. now left.
Qed.

Lemma NoDup_map_pair (k : Z) (sel : list Z) : NoDup sel -> NoDup (map (pair k) sel).
Proof.
  induction 1 as [|t sel Ht _ IH]; cbn; constructor; [|assumption].
  intros Hin. apply in_map_iff in Hin as (t' & [= ->] & Hin). contradiction.
Qed.

Lemma association_rows_In (p : Z * Z) (ks : list Z) :
  forall sels,
    In p (association_rows ks sels) ->
    In (fst p) ks /\ exists sel, In sel sels /\ In (snd p) sel.
Proof.
  unfold association_rows.
  induction ks as [|k ks IH]; intros [|sel sels] Hin; cbn in Hin; try contradiction.
  apply in_app_or in Hin. destruct Hin as [Hin|Hin].
  - apply in_map_iff in Hin as (t & <- & Ht). cbn.
    split; [now left|]. exists sel. split; [now left|assumption].
  - destruct (IH sels Hin) as (Hk & sel' & Hsel' & Hp).
    split; [now right|]. exists sel'. split; [now right|assumption].
Qed.

Lemma association_rows_NoDup (ks : list Z) :
  forall sels, NoDup ks -> Forall (fun sel => NoDup sel) sels ->
               NoDup (association_rows ks sels).
Proof.
  induction ks as [|k ks IH]; intros [|sel sels] Hks Hsels;
    try (cbn; constructor).
  inversion Hks as [|? ? Hk Hks']; subst.
  inversion Hsels as [|? ? Hsel Hsels']; subst.
  change (association_rows (k :: ks) (sel :: sels))
    with (map (pair k) sel ++ association_rows ks sels).
  apply NoDup_app.
  - now apply NoDup_map_pair.
  - now apply IH.
  - intros p Hp Hin. apply in_map_iff in Hp as (t & <- & _).
    apply association_rows_In in Hin as [Hin _]. contradiction.
Qed.

(** The run of [create_feeds], for any list of tag identifiers. *)
Lemma create_feeds_outcome (num_feeds : nat) (now : Z) (tag_ids : list Z) (w : world) :
  exists feed_ids sels w',
    create_feeds num_feeds now tag_ids w = Return feed_ids w' /\
    length feed_ids = num_feeds /\
    length sels = num_feeds /\
    rowids (feeds (live (conn w'))) = rowids (feeds (live (conn w))) ++ feed_ids /\
    tags (live (conn w')) = tags (live (conn w)) /\
    Forall (fun sel => (length sel <= 5)%nat /\ sampled_from tag_ids sel) sels /\
    feed_tags (live (conn w'))
    = add_pairs (association_rows feed_ids sels) (feed_tags (live (conn w))) /\
    NoDup feed_ids /\
    (forall k, In k feed_ids -> ~ In k (rowids (feeds (live (conn w))))).
Proof.
  destruct (create_feeds_loop now tag_ids (seq 0 num_feeds) [] w)
    as (new & sels & w1 & E & Ln & Ls & F & G & Hs & P & Nd & Fresh).
  rewrite length_seq in Ln, Ls. cbn [app] in E.
  unfold create_feeds, bind. rewrite E, commit_eq.
  exists new, sels. eexists. split; [reflexivity|].
  cbn [conn live]. auto 10.
Qed.

(** With distinct identifiers of existing tags every pair is new. *)
Lemma assigns_sampled_tags_holds
    (num_feeds : nat) (now : Z) (tag_ids : list Z) (w : world) :
  NoDup tag_ids ->
  incl tag_ids (rowids (tags (live (conn w)))) ->
  feed_tags_consistent (live (conn w)) ->
  assigns_sampled_tags num_feeds now tag_ids w.
Proof.
  destruct (create_feeds_outcome num_feeds now tag_ids w)
    as (ids & sels & w' & E & Li & Ls & F & G & Hs & P & Nd & Fresh).
  intros Htags Hincl [Hnd Href].
  assert (Hsels : Forall (fun sel => (length sel <= 5)%nat /\ NoDup sel /\ incl sel tag_ids)
                         sels).
  { apply Forall_forall. intros sel Hsel. rewrite Forall_forall in Hs.
    destruct (Hs sel Hsel) as [Hlen Hsam].
    destruct (sampled_from_NoDup tag_ids sel Htags Hsam). auto. }
  assert (Hrows : NoDup (association_rows ids sels)).
  { apply association_rows_NoDup; [exact Nd|].
    apply Forall_forall. intros sel Hsel. rewrite Forall_forall in Hsels.
    now destruct (Hsels sel Hsel) as (_ & H & _). }
  assert (Hnew : forall p, In p (association_rows ids sels) ->
                           ~ In p (feed_tags (live (conn w)))).
  { intros p Hp Hin. apply association_rows_In in Hp as [Hp _].
    apply (Fresh _ Hp). now apply Href. }
  rewrite (add_pairs_fresh _ _ Hrows Hnew) in P.
  exists ids, sels, w'.
  split; [exact E|]. split; [exact Li|]. split; [exact Ls|]. split; [exact F|].
  split; [exact Hsels|]. split; [exact P|].
  split.
  - rewrite P. apply NoDup_app; [exact Hnd|exact Hrows|].
    intros p Hp Hin. now apply (Hnew p).
  - intros p Hp. rewrite P in Hp. rewrite F, G.
    apply in_app_or in Hp. destruct Hp as [Hp|Hp].
    + destruct (Href p Hp). split; [apply in_or_app; now left|assumption].
    + apply association_rows_In in Hp as (Hk & sel & Hsel & Ht).
      split; [apply in_or_app; now right|].
      apply Hincl. rewrite Forall_forall in Hsels.
      destruct (Hsels sel Hsel) as (_ & _ & Hin). now apply Hin.
Qed.

(** C9.  [create_feeds] always returns, whatever the list of tag identifiers:
    a pair that is already there is ignored.  Given distinct identifiers of
    existing tags and a consistent feed_tags table, each new feed gets
    between 0 and 5 distinct tags of the list, one association row per tag
    selected; afterwards every row of feed_tags references an existing feed
    and an existing tag, and no pair occurs twice. *)
Theorem create_feeds_assigns_sampled_tags
    (num_feeds : nat) (now : Z) (tag_ids : list Z) (w : world) :
  (exists feed_ids w',
     create_feeds num_feeds now tag_ids w = Return feed_ids w' /\
     length feed_ids = num_feeds)
  /\ (NoDup tag_ids ->
      incl tag_ids (rowids (tags (live (conn w)))) ->
      feed_tags_consistent (live (conn w)) ->
      assigns_sampled_tags num_feeds now tag_ids w).
Proof.
  split.
  - destruct (create_feeds_outcome num_feeds now tag_ids w)
      as (ids & sels & w' & E & Li & _).
    exists ids, w'. auto.
  - apply assigns_sampled_tags_holds.
Qed.

Lemma create_feeds_assigns_sampled_tags_witness :
  NoDup [1; 2; 3] /\
  incl [1; 2; 3] (rowids (tags (live (conn tagged_world)))) /\
  feed_tags_consistent (live (conn tagged_world)) /\
  assigns_sampled_tags 4 1000000000000000 [1; 2; 3] tagged_world.
Proof.
  assert (H1 : NoDup [1; 2; 3]).
  { repeat constructor; cbn; intuition discriminate. }
  assert (H2 : incl [1; 2; 3] (rowids (tags (live (conn tagged_world))))).
  { intros k Hk. vm_compute. exact Hk. }
  assert (H3 : feed_tags_consistent (live (conn tagged_world))).
  { assert (E : feed_tags (live (conn tagged_world)) = []) by (vm_compute; reflexivity).
    unfold feed_tags_consistent. rewrite E. split; [constructor|intros p []]. }
  split; [exact H1|]. split; [exact H2|]. split; [exact H3|].
  exact (proj2 (create_feeds_assigns_sampled_tags 4 1000000000000000 [1; 2; 3]
                  tagged_world) H1 H2 H3).
Defined.

(** ** Invariants of the live database *)

Lemma preserves_ret {A} (I : db -> Prop) (a : A) : preserves I (ret a).
Proof. intros w H. exact H. Qed.


Lemma preserves_bind {A B} (I : db -> Prop) (m : M A) (k : A -> M B) :
  preserves I m -> (forall a, preserves I (k a)) -> preserves I (bind m k).
Proof.
  intros Hm Hk w H. unfold bind. specialize (Hm w H).
  destruct (m w) as [a w1|e w1]; cbn [final_world] in *; [now apply Hk|exact Hm].
Qed.

Lemma preserves_for_each {A S} (I : db -> Prop) (xs : list A) (body : A -> S -> M S) :
  (forall x s, preserves I (body x s)) -> forall s, preserves I (for_each xs body s).
Proof.
  intros Hbody. induction xs as [|x xs IH]; intros s; cbn [for_each].
  - apply preserves_ret.
  - apply preserves_bind; [apply Hbody|exact IH].
Qed.

Lemma preserves_draws {A} (I : db -> Prop) (m : M A) (P : A -> Prop) :
  draws m P -> preserves I m.
Proof.
  intros Hm w H. destruct (Hm w) as (a & w1 & E & _ & C & _).
  rewrite E. cbn [final_world]. now rewrite C.
Qed.

Lemma preserves_log (I : db -> Prop) (ev : event) : preserves I (log ev).
Proof. intros w H. exact H. Qed.

Lemma preserves_commit (I : db -> Prop) : preserves I commit.
Proof. intros w H. exact H. Qed.

Lemma preserves_apply_stmt (I : db -> Prop) (stmt : db -> exn + db) :
  (forall d d', stmt d = inr d' -> I d -> I d') -> preserves I (apply_stmt stmt).
Proof.
  intros Hs w H. unfold apply_stmt.
  destruct (stmt (live (conn w))) as [e|d'] eqn:E; cbn [final_world conn live];
    [exact H|now apply (Hs _ _ E)].
Qed.





Lemma executemany_articles_preserves (I : db -> Prop) (rows : list article) :
  (forall t d, I d -> I (set_articles t d)) ->
  (forall t d, I d -> I (set_articles_fts t d)) ->
  preserves I (executemany_articles rows).
Proof.
  intros Ha Hf. unfold executemany_articles.
  apply preserves_bind; [apply preserves_log|]. intros _.
  apply preserves_for_each. intros a _. apply preserves_apply_stmt.
  intros d d' E H. unfold insert_article in E.
  destruct (has_trigger _ d).
  - destruct (fts_insert _ _ _); [|discriminate]. injection E as <-.
    now apply Hf, Ha.
  - injection E as <-. now apply Ha.
Qed.

Lemma generate_article_preserves (I : db -> Prop) (now : Z) (feed_ids : list Z) (i : nat) :
  preserves I (generate_article now feed_ids i).
Proof.
  destruct feed_ids as [|f feed_ids].
  - intros w H. exact H.
  - eapply preserves_draws. apply draws_generate_article. discriminate.
Qed.



(** ** A full run *)


Lemma print_stats_eq (w : world) :
  exists w',
    print_stats w
    = Return (length (feeds (live (conn w))), length (articles (live (conn w))),
              length (tags (live (conn w))), length (feed_tags (live (conn w)))) w' /\
    conn w' = conn w.
Proof. eexists. split; reflexivity. Qed.




(** * Further properties *)

(** ** The generated text *)

Lemma occurrences_app (c : N) (s t : pystr) :
  occurrences c (s ++ t) = (occurrences c s + occurrences c t)%nat.
Proof. apply count_occ_app. Qed.

Lemma occurrences_absent (c : N) (s : pystr) :
  ~ In c s -> occurrences c s = 0%nat.
Proof. intros H. now apply count_occ_not_In. Qed.

(** The separators of a joined text, when the parts hold none. *)
Lemma occurrences_join_sep (c : N) (xs : list pystr) :
  Forall (fun x => ~ In c x) xs ->
  occurrences c (join [c] xs) = (length xs - 1)%nat.
Proof.
  induction 1 as [|x xs Hx Hxs IH]; [reflexivity|].
  destruct xs as [|y xs].
  - cbn [join length]. now apply occurrences_absent.
  - change (join [c] (x :: y :: xs)) with (x ++ [c] ++ join [c] (y :: xs)).
    rewrite !occurrences_app, IH, (occurrences_absent c x Hx).
    unfold occurrences at 1. cbn [count_occ length].
    destruct (N.eq_dec c c); [lia|congruence].
Qed.

(** The occurrences of a character that is not the separator. *)
Lemma occurrences_join_other (c sep : N) (xs : list pystr) :
  c <> sep ->
  occurrences c (join [sep] xs) = list_sum (map (occurrences c) xs).
Proof.
  intros Hc. induction xs as [|x xs IH]; [reflexivity|].
  destruct xs as [|y xs].
  - cbn [join map list_sum fold_right]. lia.
  - change (join [sep] (x :: y :: xs)) with (x ++ [sep] ++ join [sep] (y :: xs)).
    rewrite !occurrences_app, IH. unfold occurrences at 2. cbn [count_occ].
    destruct (N.eq_dec sep c); [congruence|]. cbn [map list_sum fold_right]. lia.
Qed.

Lemma forallb_join (ok : N -> bool) (sep : N) (xs : list pystr) :
  ok sep = true -> Forall (fun x => forallb ok x = true) xs ->
  forallb ok (join [sep] xs) = true.
Proof.
  intros Hsep. induction 1 as [|x xs Hx Hxs IH]; [reflexivity|].
  destruct xs as [|y xs]; [exact Hx|].
  change (join [sep] (x :: y :: xs)) with (x ++ [sep] ++ join [sep] (y :: xs)).
  rewrite !forallb_app, Hx, IH. cbn. now rewrite Hsep.
Qed.

Lemma lower_is_not (c d : N) :
  is_ascii_lower c = true -> (d < 97)%N -> c <> d.
Proof.
  unfold is_ascii_lower. intros H Hd. apply andb_prop in H as [H _].
  apply N.leb_le in H. lia.
Qed.

Lemma lower_word_no (d : N) (x : pystr) :
  forallb is_ascii_lower x = true -> (d < 97)%N -> ~ In d x.
Proof.
  intros H Hd Hin. rewrite forallb_forall in H.
  now apply (lower_is_not d d (H d Hin) Hd).
Qed.

(** The vocabulary: non-empty words of lower-case letters. *)
Lemma LOREM_WORDS_lower (x : pystr) :
  In x LOREM_WORDS -> x <> [] /\ forallb is_ascii_lower x = true.
Proof.
  assert (H : forallb (fun x => negb (length x =? 0)%nat && forallb is_ascii_lower x)
                LOREM_WORDS = true) by (vm_compute; reflexivity).
  rewrite forallb_forall in H. intros Hin. specialize (H x Hin).
  apply andb_prop in H as [H1 H2]. split; [|exact H2].
  intros ->. discriminate H1.
Qed.

Lemma draws_vocabulary_words (count : nat) :
  draws (choices LOREM_WORDS count)
        (fun ws => length ws = count /\ Forall (fun x => In x LOREM_WORDS) ws).
Proof. apply draws_repeatM, draws_choice, LOREM_WORDS_nonempty. Qed.

Lemma words_text_join (ws : list pystr) :
  Forall (fun x => In x LOREM_WORDS) ws -> words_text (length ws) (join (u " ") ws).
Proof.
  intros Hws. change (u " ") with [32%N].
  split; [exists ws; auto|]. split.
  - apply forallb_join; [reflexivity|].
    apply Forall_forall. intros x Hx. rewrite Forall_forall in Hws.
    destruct (LOREM_WORDS_lower x (Hws x Hx)) as [_ H].
    apply forallb_forall. intros c Hc. rewrite forallb_forall in H.
    unfold is_word_char. now rewrite (H c Hc).
  - apply occurrences_join_sep.
    apply Forall_forall. intros x Hx. rewrite Forall_forall in Hws.
    destruct (LOREM_WORDS_lower x (Hws x Hx)) as [_ H].
    apply lower_word_no; [exact H|reflexivity].
Qed.

Lemma draws_words_text (count : nat) :
  draws (lorem_words count) (words_text count).
Proof.
  unfold lorem_words.
  eapply draws_bind; [apply draws_vocabulary_words|].
  intros ws [Hlen Hws]. apply draws_ret. rewrite <- Hlen.
  now apply words_text_join.
Qed.

(** A text of at least one word starts with a lower-case letter. *)
Lemma words_text_head (count : nat) (s : pystr) :
  words_text count s -> (0 < count)%nat ->
  exists c rest, s = c :: rest /\ is_ascii_lower c = true.
Proof.
  intros ((ws & Hlen & Hws & ->) & _ & _) Hpos.
  destruct ws as [|x ws]; [cbn in Hlen; lia|].
  inversion Hws as [|? ? Hx _]; subst.
  destruct (LOREM_WORDS_lower x Hx) as [Hne Hlow].
  destruct x as [|c x]; [congruence|].
  cbn [forallb] in Hlow. apply andb_prop in Hlow as [Hc _].
  destruct ws as [|y ws]; cbn [join app]; eauto.
Qed.

Lemma word_char_lower (c : N) : is_word_char c = true -> ascii_lower c = c.
Proof.
  unfold is_word_char, ascii_lower, is_ascii_upper, is_ascii_lower.
  intros H. destruct ((65 <=? c) && (c <=? 90))%N eqn:E; [|reflexivity].
  apply andb_prop in E as [E1 E2]. apply N.leb_le in E1, E2.
  apply orb_prop in H as [H|H].
  - apply andb_prop in H as [H _]. apply N.leb_le in H. lia.
  - apply N.eqb_eq in H. lia.
Qed.

Lemma map_lower_words (s : pystr) :
  forallb is_word_char s = true -> map ascii_lower s = s.
Proof.
  induction s as [|c s IH]; [reflexivity|]. cbn [forallb map].
  intros H. apply andb_prop in H as [Hc Hs].
  now rewrite (word_char_lower c Hc), IH.
Qed.

Lemma upper_of_lower (c : N) :
  is_ascii_lower c = true -> is_ascii_upper (ascii_upper c) = true.
Proof.
  unfold ascii_upper. intros H. rewrite H. unfold is_ascii_lower in H.
  apply andb_prop in H as [H1 H2]. apply N.leb_le in H1, H2.
  unfold is_ascii_upper. apply andb_true_intro. split; apply N.leb_le; lia.
Qed.

(** The title of a text of words: every word with an initial capital. *)
Lemma title_from_lower (x s : pystr) :
  forallb is_ascii_lower x = true -> title_from true (x ++ s) = x ++ title_from true s.
Proof.
  induction x as [|c x IH]; [reflexivity|]. cbn [forallb app title_from].
  intros H. apply andb_prop in H as [Hc Hx]. rewrite Hc. cbn [orb].
  rewrite (IH Hx). f_equal. apply word_char_lower. unfold is_word_char. now rewrite Hc.
Qed.

Lemma title_from_word (x s : pystr) :
  x <> [] -> forallb is_ascii_lower x = true ->
  title_from false (x ++ s) = capitalize x ++ title_from true s.
Proof.
  destruct x as [|c x]; [congruence|]. intros _ H.
  cbn [forallb] in H. apply andb_prop in H as [Hc Hx].
  cbn [app title_from capitalize]. rewrite Hc. cbn [orb].
  rewrite (title_from_lower x s Hx). f_equal. f_equal. symmetry.
  apply map_lower_words. apply forallb_forall. intros d Hd.
  rewrite forallb_forall in Hx. unfold is_word_char. now rewrite (Hx d Hd).
Qed.

Lemma title_words (ws : list pystr) :
  Forall (fun x => In x LOREM_WORDS) ws ->
  title (join (u " ") ws) = join (u " ") (map capitalize ws).
Proof.
  unfold title. change (u " ") with [32%N].
  induction 1 as [|x ws Hx Hws IH]; [reflexivity|].
  destruct (LOREM_WORDS_lower x Hx) as [Hne Hlow].
  destruct ws as [|y ws].
  - cbn [join map]. rewrite <- (app_nil_r x) at 1.
    rewrite (title_from_word x [] Hne Hlow). cbn [title_from]. apply app_nil_r.
  - change (join [32%N] (x :: y :: ws)) with (x ++ [32%N] ++ join [32%N] (y :: ws)).
    rewrite (title_from_word x _ Hne Hlow).
    change (title_from true ([32%N] ++ join [32%N] (y :: ws)))
      with (32%N :: title_from false (join [32%N] (y :: ws))).
    rewrite IH. reflexivity.
Qed.

Lemma capitalized_words_title (count : nat) (s : pystr) :
  words_text count s -> capitalized_words count (title s).
Proof.
  intros ((ws & Hlen & Hws & ->) & _). exists ws.
  split; [exact Hlen|]. split; [exact Hws|]. now apply title_words.
Qed.

Lemma sentence_of_words (count : nat) (s : pystr) :
  words_text count s -> (5 <= count <= 15)%nat ->
  sentence (capitalize s ++ u ".").
Proof.
  intros Hs Hcount.
  destruct (words_text_head count s Hs ltac:(lia)) as (c & rest & -> & Hc).
  destruct Hs as (_ & Hchars & Hspaces).
  cbn [forallb] in Hchars. apply andb_prop in Hchars as [_ Hrest].
  exists (ascii_upper c), rest. cbn [capitalize app].
  rewrite (map_lower_words rest Hrest).
  split; [reflexivity|]. split; [now apply upper_of_lower|]. split; [exact Hrest|].
  unfold occurrences in *. cbn [count_occ] in Hspaces.
  destruct (N.eq_dec c 32) as [E|_]; [|lia].
  exfalso. now apply (lower_is_not c 32 Hc).
Qed.

Lemma draws_sentence : draws lorem_sentence sentence.
Proof.
  unfold lorem_sentence.
  eapply draws_bind; [apply (draws_randint 5 15); lia|]. intros n Hn.
  eapply draws_bind; [apply draws_words_text|]. intros s Hs.
  apply draws_ret. cbv beta in Hn.
  apply (sentence_of_words (Z.to_nat n)); [exact Hs|lia].
Qed.

(** The characters of a sentence. *)
Lemma sentence_chars (s : pystr) :
  sentence s -> occurrences 46 s = 1%nat /\ ~ In 10%N s.
Proof.
  intros (c & rest & -> & Hc & Hrest & _).
  assert (Hup : forall d, (d < 65)%N -> c <> d).
  { intros d Hd ->. unfold is_ascii_upper in Hc. apply andb_prop in Hc as [Hc _].
    apply N.leb_le in Hc. lia. }
  assert (Hword : forall d, (d < 97)%N -> d <> 32%N -> ~ In d rest).
  { intros d Hd Hsp Hin. rewrite forallb_forall in Hrest.
    specialize (Hrest d Hin). unfold is_word_char in Hrest.
    apply orb_prop in Hrest as [H|H].
    - now apply (lower_is_not d d H Hd).
    - apply N.eqb_eq in H. contradiction. }
  split.
  - change (c :: rest ++ u ".") with ([c] ++ rest ++ [46%N]).
    rewrite !occurrences_app.
    rewrite (occurrences_absent 46 rest) by (apply Hword; [reflexivity|discriminate]).
    unfold occurrences. cbn [count_occ].
    destruct (N.eq_dec c 46) as [E|_]; [now apply Hup in E|reflexivity].
  - intros [E|Hin]; [now apply Hup in E|].
    apply in_app_or in Hin as [Hin|[E|[]]]; [|discriminate E].
    revert Hin. apply Hword; [reflexivity|discriminate].
Qed.

Lemma paragraph_of_sentences (sentences : list pystr) :
  (3 <= length sentences <= 8)%nat -> Forall sentence sentences ->
  paragraph (join (u " ") sentences).
Proof.
  intros Hlen Hs. exists sentences. split; [exact Hlen|]. split; [exact Hs|].
  split; [reflexivity|]. change (u " ") with [32%N].
  rewrite occurrences_join_other by discriminate.
  clear Hlen. induction Hs as [|s ss Hs _ IH]; [reflexivity|].
  cbn [map length]. unfold list_sum in *. cbn [fold_right]. rewrite IH.
  now destruct (sentence_chars s Hs) as (-> & _).
Qed.

Lemma draws_paragraph : draws lorem_paragraph paragraph.
Proof.
  unfold lorem_paragraph.
  eapply draws_bind; [apply (draws_randint 3 8); lia|]. intros n Hn.
  eapply draws_bind; [apply draws_repeatM, draws_sentence|].
  intros ss [Hlen Hss]. apply draws_ret. cbv beta in Hn.
  apply paragraph_of_sentences; [lia|exact Hss].
Qed.

Lemma paragraph_no_newline (p : pystr) : paragraph p -> ~ In 10%N p.
Proof.
  intros (ss & _ & Hss & -> & _) Hin. change (u " ") with [32%N] in Hin.
  apply (count_occ_In N.eq_dec) in Hin.
  change (count_occ N.eq_dec (join [32%N] ss) 10%N)
    with (occurrences 10 (join [32%N] ss)) in Hin.
  rewrite occurrences_join_other in Hin by discriminate.
  unfold list_sum in Hin.
  induction Hss as [|s ss Hs _ IH]; cbn [map fold_right] in Hin; [lia|].
  destruct (sentence_chars s Hs) as (_ & Hnl).
  rewrite (occurrences_absent 10 s Hnl) in Hin. now apply IH.
Qed.

Lemma paragraphs_html_of (ps : list pystr) :
  Forall paragraph ps ->
  paragraphs_html (length ps)
    (join [10%N] (map (fun p => u "<p>" ++ p ++ u "</p>") ps)).
Proof.
  intros Hps. exists ps. split; [reflexivity|]. split; [exact Hps|].
  split; [reflexivity|].
  rewrite occurrences_join_sep, length_map; [reflexivity|].
  apply Forall_forall. intros x Hx. apply in_map_iff in Hx as (p & <- & Hp).
  rewrite Forall_forall in Hps. specialize (Hps p Hp).
  intros Hin. apply in_app_or in Hin as [Hin|Hin].
  - cbn in Hin. intuition discriminate.
  - apply in_app_or in Hin as [Hin|Hin].
    + now apply (paragraph_no_newline p Hps).
    + cbn in Hin. intuition discriminate.
Qed.

Lemma draws_paragraphs_html (count : nat) :
  draws (lorem_paragraphs count) (paragraphs_html count).
Proof.
  unfold lorem_paragraphs.
  eapply draws_bind.
  - apply draws_repeatM with (P := fun x => exists p, paragraph p /\ x = u "<p>" ++ p ++ u "</p>").
    eapply draws_bind; [apply draws_paragraph|]. intros p Hp.
    apply draws_ret. eauto.
  - intros xs [Hlen Hxs]. apply draws_ret.
    assert (H : exists ps, Forall paragraph ps /\
                           xs = map (fun p => u "<p>" ++ p ++ u "</p>") ps).
    { clear Hlen. induction Hxs as [|x xs (p & Hp & ->) _ (ps & Hps & ->)].
      - exists []. split; [constructor|reflexivity].
      - exists (p :: ps). split; [now constructor|reflexivity]. }
    destruct H as (ps & Hps & ->). rewrite length_map in Hlen. rewrite <- Hlen.
    now apply paragraphs_html_of.
Qed.

(** X1.  [lorem_words(count)] only consults the random generator and
    returns [count] words of the vocabulary separated by single spaces: a
    text of lower-case letters and [count - 1] spaces (the empty text when
    [count] is 0). *)
Theorem lorem_words_returns_count_words (count : nat) :
  draws (lorem_words count) (words_text count).
Proof. apply draws_words_text. Qed.


(** X3.  [lorem_paragraph()] only consults the random generator and returns
    3 to 8 sentences separated by single spaces; the paragraph has one full
    stop per sentence. *)
Theorem lorem_paragraph_returns_sentences : draws lorem_paragraph paragraph.
Proof. apply draws_paragraph. Qed.

(** X4.  [lorem_paragraphs(count)] only consults the random generator and
    returns [count] paragraphs, each between <p> and </p>, one per line:
    the text has [count - 1] newlines (it is empty when [count] is 0). *)
Theorem lorem_paragraphs_returns_html_lines (count : nat) :
  draws (lorem_paragraphs count) (paragraphs_html count).
Proof. apply draws_paragraphs_html. Qed.

(** ** File names that match *)

Lemma dot_star_sql_suffix (body : pystr) :
  ~ In 10%N body -> dot_star_sql (body ++ u ".sql") = Some body.
Proof.
  induction body as [|c body IH]; intros Hnl; [reflexivity|].
  cbn [app dot_star_sql].
  destruct (c =? 10)%N eqn:Hc.
  - apply N.eqb_eq in Hc. exfalso. apply Hnl. now left.
  - rewrite IH; [reflexivity|]. intros Hin. apply Hnl. now right.
Qed.

Lemma dot_plus_sql_suffix (body : pystr) :
  body <> [] -> ~ In 10%N body -> dot_plus_sql (body ++ u ".sql") = Some body.
Proof.
  destruct body as [|c body]; [congruence|]. intros _ Hnl.
  cbn [app dot_plus_sql].
  destruct (c =? 10)%N eqn:Hc.
  - apply N.eqb_eq in Hc. exfalso. apply Hnl. now left.
  - rewrite dot_star_sql_suffix; [reflexivity|]. intros Hin. apply Hnl. now right.
Qed.

Lemma re_match_well_formed (ds body : pystr) :
  ds <> [] -> forallb is_ascii_digit ds = true ->
  body <> [] -> ~ In 10%N body ->
  re_match (ds ++ u "_" ++ body ++ u ".sql")
  = Some (int_of_digits (map digit_value ds), body).
Proof.
  intros Hds Hdig Hbody Hnl. unfold re_match.
  change (u "_" ++ body ++ u ".sql") with (95%N :: body ++ u ".sql").
  rewrite (span_digits_ascii ds _ Hdig).
  destruct ds as [|d ds]; [congruence|]. cbn [map].
  now rewrite (dot_plus_sql_suffix body Hbody Hnl).
Qed.

(** X5.  A file name made of ASCII digits, an underscore, a non-empty text
    without a newline, and the extension .sql matches the pattern of the
    runner: the version is the number the digits spell, and the description
    is the text between the first underscore and the final extension, with
    its underscores replaced by spaces. *)
Theorem version_and_description_of_a_file_name
    (f : file) (ds body : pystr) (r : migration) :
  fst f = ds ++ u "_" ++ body ++ u ".sql" ->
  ds <> [] -> forallb is_ascii_digit ds = true ->
  body <> [] -> ~ In 10%N body ->
  recorded f r ->
  re_match (fst f) = Some (int_of_digits (map digit_value ds), body) /\
  version r = int_of_digits (map digit_value ds) /\
  description r = replace_char 95 32 body.
Proof.
  intros Hname Hds Hdig Hbody Hnl [sql bs g2 _ _ Hmatch Hdescr _ _ _].
  pose proof (re_match_well_formed ds body Hds Hdig Hbody Hnl) as H.
  rewrite <- Hname in H. rewrite H in Hmatch. injection Hmatch as Hv Hg.
  split; [exact H|]. split; [now symmetry|]. now rewrite Hdescr, <- Hg.
Qed.

(** ** The records of the tracking table *)

Lemma be_bytes_length (n : nat) (x : Z) : length (Sha384.be_bytes n x) = n.
Proof.
  revert x. induction n as [|n IH]; intros x; [reflexivity|].
  cbn [Sha384.be_bytes]. rewrite length_app, IH. cbn [length]. lia.
Qed.

Lemma digest_length (msg : pybytes) : length (Sha384.digest msg) = 48%nat.
Proof.
  unfold Sha384.digest, Sha384.digest_Z. rewrite length_map. cbv zeta.
  cbn [flat_map]. rewrite !length_app, !be_bytes_length. reflexivity.
Qed.

Lemma replace_char_absent (a b : N) (s : pystr) :
  a <> b -> ~ In a (replace_char a b s).
Proof.
  intros Hab Hin. unfold replace_char in Hin.
  apply in_map_iff in Hin as (c & Hc & _).
  destruct (c =? a)%N eqn:E; [congruence|]. apply N.eqb_neq in E. congruence.
Qed.

Lemma decimal_nonneg (c : N) (d : Z) : decimal c = Some d -> 0 <= d.
Proof.
  unfold decimal. destruct (find _ Nd_zeros); [|discriminate].
  intros [= <-]. lia.
Qed.

Lemma span_digits_nonneg (s : pystr) : Forall (fun d => 0 <= d) (fst (span_digits s)).
Proof.
  induction s as [|c s IH]; cbn [span_digits]; [constructor|].
  destruct (decimal c) as [d|] eqn:Hd; [|constructor].
  destruct (span_digits s) as [ds r]. cbn [fst] in *.
  constructor; [now apply (decimal_nonneg c)|exact IH].
Qed.

Lemma int_of_digits_nonneg (ds : list Z) :
  Forall (fun d => 0 <= d) ds -> 0 <= int_of_digits ds.
Proof.
  intros H. unfold int_of_digits.
  assert (G : forall acc, 0 <= acc -> 0 <= fold_left (fun acc d => 10 * acc + d) ds acc).
  { induction H as [|d ds Hd _ IH]; intros acc Hacc; cbn [fold_left]; [exact Hacc|].
    apply IH. lia. }
  apply G. lia.
Qed.

Lemma re_match_nonneg (name : pystr) (v : Z) (g2 : pystr) :
  re_match name = Some (v, g2) -> 0 <= v.
Proof.
  unfold re_match. pose proof (span_digits_nonneg name) as H.
  destruct (span_digits name) as [ds rest]. cbn [fst] in H.
  destruct ds as [|d ds]; [discriminate|].
  destruct rest as [|c rest]; [discriminate|].
  destruct (N.eq_dec c 95) as [->|Hc].
  - destruct (dot_plus_sql rest); [|discriminate].
    intros [= <- _]. now apply int_of_digits_nonneg.
  - intros Hm. exfalso. revert Hm. clear -Hc.
    destruct c as [|p]; [discriminate|].
    do 7 (destruct p as [p|p|]; try discriminate); congruence.
Qed.

Lemma insert_migration_ok (m : migration) (d d' : db) :
  insert_migration m d = inr d' ->
  exists rows,
    sqlx_migrations d = Some rows /\
    d' = set_migrations (Some (rows ++ [m])) d /\
    version m < 2 ^ 63 /\
    ~ In (version m) (map version rows).
Proof.
  unfold insert_migration.
  destruct (2 ^ 63 <=? version m) eqn:Hv; [discriminate|].
  destruct (sqlx_migrations d) as [rows|]; [|discriminate].
  destruct (existsb _ rows) eqn:Hex; [discriminate|].
  intros [= <-]. exists rows. split; [reflexivity|]. split; [reflexivity|].
  split; [apply Z.leb_gt in Hv; exact Hv|].
  intros Hin. apply in_map_iff in Hin as (r & Hr & Hin).
  assert (existsb (fun r => version r =? version m) rows = true).
  { apply existsb_exists. exists r. split; [exact Hin|]. now apply Z.eqb_eq. }
  congruence.
Qed.

Lemma insert_migration_dup (m : migration) (d : db) (rows : list migration) :
  sqlx_migrations d = Some rows -> version m < 2 ^ 63 ->
  In (version m) (map version rows) ->
  insert_migration m d = inl IntegrityError.
Proof.
  intros Hrows Hv Hin. unfold insert_migration. rewrite Hrows.
  destruct (2 ^ 63 <=? version m) eqn:E; [apply Z.leb_le in E; lia|].
  apply in_map_iff in Hin as (r & Hr & Hin).
  replace (existsb _ rows) with true; [reflexivity|].
  symmetry. apply existsb_exists. exists r. split; [exact Hin|]. now apply Z.eqb_eq.
Qed.

Section Records.

Variable executescript : pystr -> connection -> connection * bool.

(** A turn that returns has read, parsed and executed its file, and has
    inserted its record. *)
Lemma run_migration_returns (f : file) (w w' : world) :
  run_migration executescript f w = Return tt w' ->
  exists sql v group2 bs,
    forallb is_scalar (u "  Running migration: " ++ fst f) = true /\
    read_text (snd f) = Some sql /\
    re_match (fst f) = Some (v, group2) /\
    encode sql = Some bs /\
    insert_migration (record_of v group2 bs) (live (fst (executescript sql (conn w))))
    = inr (live (conn w')).
Proof.
  unfold run_migration, print, bind.
  destruct (forallb is_scalar _) eqn:Hprint; cbn [ret raise]; [|discriminate].
  destruct (read_text (snd f)) as [sql|] eqn:Hread; cbn [ret raise]; [|discriminate].
  destruct (re_match (fst f)) as [[v group2]|] eqn:Hmatch; cbn [ret raise];
    [|discriminate].
  destruct (encode sql) as [bs|] eqn:Henc; cbn [ret raise]; [|discriminate].
  unfold conn_executescript.
  destruct (executescript sql (conn w)) as [c ok] eqn:Hexec.
  destruct ok; [|discriminate]. cbn [fst].
  fold (record_of v group2 bs).
  set (w1 := {| conn := c; rng := rng w; trace := _ |}).
  destruct (insert_migration (record_of v group2 bs) (live (conn w1))) as [e|d] eqn:Hins.
  - rewrite (execute_err _ _ _ Hins). discriminate.
  - rewrite (execute_ok _ _ _ Hins), commit_eq. intros [= <-].
    exists sql, v, group2, bs. rewrite Hexec. cbn [conn live fst].
    repeat (split; [reflexivity || assumption|]). exact Hins.
Qed.

Hypothesis keeps : keeps_tracking_table executescript.

(** A file whose version is recorded already: its script is executed, and
    its record is rejected. *)
Lemma run_migration_recorded (f : file) (w : world) (rows : list migration)
    (sql : pystr) (v : Z) (group2 : pystr) (bs : pybytes) :
  forallb is_scalar (u "  Running migration: " ++ fst f) = true ->
  read_text (snd f) = Some sql ->
  re_match (fst f) = Some (v, group2) ->
  encode sql = Some bs ->
  v < 2 ^ 63 ->
  sqlx_migrations (live (conn w)) = Some rows ->
  In v (map version rows) ->
  exists e ok w',
    run_migration executescript f w = Raise e w' /\
    ((e = IntegrityError /\ ok = true) \/ (e = OperationalError /\ ok = false)) /\
    scripts (trace w') = scripts (trace w) ++ [(sql, ok)] /\
    sqlx_migrations (live (conn w')) = Some rows.
Proof.
  intros Hprint Hread Hmatch Henc Hv Hrows Hin.
  unfold run_migration, print, bind.
  rewrite Hprint. cbn [ret]. rewrite Hread. cbn [ret]. rewrite Hmatch, Henc.
  cbn [ret]. unfold conn_executescript.
  pose proof (keeps sql (conn w)) as Hkeep.
  destruct (executescript sql (conn w)) as [c ok] eqn:Hexec.
  cbn [fst] in Hkeep. rewrite Hrows in Hkeep.
  destruct ok.
  - fold (record_of v group2 bs).
    set (w1 := {| conn := c; rng := rng w; trace := _ |}).
    rewrite (execute_err _ w1 IntegrityError)
      by (apply (insert_migration_dup _ _ rows); assumption).
    exists IntegrityError, true. eexists. split; [reflexivity|].
    split; [now left|]. cbn [conn trace w1].
    rewrite !scripts_app. cbn [scripts flat_map app]. rewrite ?app_nil_r.
    split; [reflexivity|exact Hkeep].
  - exists OperationalError, false. eexists. split; [reflexivity|].
    split; [now right|]. cbn [conn trace].
    rewrite !scripts_app. cbn [scripts flat_map app]. rewrite ?app_nil_r.
    split; [reflexivity|exact Hkeep].
Qed.

(** One turn, seen from the tracking table. *)
Lemma run_migration_row (f : file) (w : world) (rows : list migration) :
  sqlx_migrations (live (conn w)) = Some rows ->
  match run_migration executescript f w with
  | Return _ w' =>
      exists r, sqlx_migrations (live (conn w')) = Some (rows ++ [r]) /\
                well_formed_record r /\ ~ In (version r) (map version rows)
  | Raise _ w' => sqlx_migrations (live (conn w')) = Some rows
  end.
Proof.
  intros Hrows.
  pose proof (run_migration_step executescript keeps f w rows Hrows) as Hstep.
  destruct (run_migration executescript f w) as [[] w'|e w'] eqn:E;
    [|now destruct Hstep].
  destruct (run_migration_returns f w w' E)
    as (sql & v & g2 & bs & _ & _ & Hmatch & _ & Hins).
  apply insert_migration_ok in Hins as (rows' & Hrows' & Hd & Hv & Hfresh).
  rewrite keeps, Hrows in Hrows'. injection Hrows' as <-.
  exists (record_of v g2 bs). rewrite Hd. split; [reflexivity|].
  split; [|exact Hfresh].
  split; [split; [exact (re_match_nonneg _ _ _ Hmatch)|exact Hv]|].
  split; [apply digest_length|]. split; [|reflexivity].
  apply replace_char_absent. discriminate.
Qed.

Lemma run_migration_rows (fs : list file) :
  forall (w : world) (rows : list migration),
    sqlx_migrations (live (conn w)) = Some rows ->
    exists recs,
      sqlx_migrations
        (live (conn (final_world
                       (for_each fs (fun f _ => run_migration executescript f) tt w))))
      = Some (rows ++ recs) /\
      Forall well_formed_record recs /\
      NoDup (map version recs) /\
      forall r, In r recs -> ~ In (version r) (map version rows).
Proof.
  induction fs as [|f fs IH]; intros w rows Hrows.
  - exists []. cbn. rewrite app_nil_r. repeat split; auto; constructor.
  - cbn [for_each]. unfold bind.
    pose proof (run_migration_row f w rows Hrows) as Hstep.
    destruct (run_migration executescript f w) as [[] w1|e w1].
    + destruct Hstep as (r & Hrows1 & Hr & Hfresh).
      destruct (IH w1 _ Hrows1) as (recs & Hfinal & Hrecs & Hnd & Hnew).
      exists (r :: recs). rewrite <- app_assoc in Hfinal.
      split; [exact Hfinal|]. split; [now constructor|].
      split.
      * cbn [map]. constructor; [|exact Hnd].
        intros Hin. apply in_map_iff in Hin as (r' & Hv & Hr').
        apply (Hnew r' Hr'). rewrite map_app, Hv. apply in_or_app. right. now left.
      * intros r' [<-|Hr']; [exact Hfresh|].
        intros Hin. apply (Hnew r' Hr'). rewrite map_app. apply in_or_app. now left.
    + exists []. cbn [final_world]. rewrite app_nil_r.
      repeat split; auto; constructor.
Qed.

End Records.

(** X6.  Whatever the outcome of a run, the rows it adds to the tracking
    table are well formed (a version from 0 to 2^63 - 1, a checksum of 48
    bytes, a description without underscore, success set), and their
    versions are pairwise distinct and differ from the versions that were
    recorded before: no version is ever recorded twice. *)
Theorem run_migrations_adds_well_formed_records
    (executescript : pystr -> connection -> connection * bool)
    (dir : directory) (w : world) :
  keeps_tracking_table executescript ->
  adds_well_formed_records executescript dir w.
Proof.
  intros keeps. unfold adds_well_formed_records. cbn zeta.
  destruct (run_migrations_loop_start executescript dir w) as (w0 & -> & Hrows0 & _).
  destruct (run_migration_rows executescript keeps (sorted path_ltb (glob_sql dir))
              w0 _ Hrows0) as (recs & Hfinal & Hrecs & Hnd & Hnew).
  exists recs. split; [now apply migration_rows_some|]. auto.
Qed.

(** X7.  The runner does not skip what is applied already.  After a run
    that returned, over a directory with at least one file, a second run
    executes the script of the first file again and stops: with
    IntegrityError when the script ran to its end (its version is recorded
    already), with the error of the script otherwise; the tracking table
    is as the first run left it. *)
Theorem run_migrations_twice_is_rejected
    (executescript : pystr -> connection -> connection * bool)
    (dir : directory) (w w1 : world) :
  keeps_tracking_table executescript ->
  glob_sql dir <> [] ->
  run_migrations executescript dir w = Return tt w1 ->
  second_run_is_rejected executescript dir w1.
Proof.
  intros keeps Hfiles Hrun. unfold second_run_is_rejected.
  destruct (sorted path_ltb (glob_sql dir)) as [|f fs] eqn:Hsorted.
  { exfalso. apply Hfiles.
    apply Permutation_nil. rewrite <- Hsorted. apply Permutation_sym, sorted_perm. }
  (* the first run *)
  destruct (run_migrations_loop_start executescript dir w) as (w0 & E0 & Hrows0 & _).
  rewrite Hsorted in E0. rewrite E0 in Hrun. cbn [for_each] in Hrun.
  unfold bind in Hrun.
  pose proof (run_migration_row executescript keeps f w0 _ Hrows0) as Hstep.
  destruct (run_migration executescript f w0) as [[] w0'|e w0'] eqn:Efirst;
    [|discriminate].
  destruct Hstep as (r & Hrows0' & _ & _).
  destruct (run_migration_returns executescript f w0 w0' Efirst)
    as (sql & v & g2 & bs & Hprint & Hread & Hmatch & Henc & Hins).
  apply insert_migration_ok in Hins as (rows' & Hrows' & Hd & Hv & _).
  rewrite keeps, Hrows0 in Hrows'. injection Hrows' as <-.
  assert (Hloop := run_migration_loop executescript keeps fs w0' _ Hrows0').
  cbn zeta in Hloop. rewrite Hrun in Hloop. cbn [final_world] in Hloop.
  destruct Hloop as (done & rest & recs & _ & _ & Hrows1 & _).
  rewrite Hd in Hrows0'. cbn [sqlx_migrations set_migrations] in Hrows0'.
  injection Hrows0' as Hr. apply app_inv_head in Hr. injection Hr as <-.
  (* the second run *)
  destruct (run_migrations_loop_start executescript dir w1) as (w1s & E1 & Hrows1s & Htr1).
  rewrite Hsorted in E1. rewrite (migration_rows_some _ _ Hrows1) in Hrows1s.
  destruct (run_migration_recorded executescript keeps f w1s _ sql v g2 bs
              Hprint Hread Hmatch Henc Hv Hrows1s)
    as (e & ok & w2 & E2 & He & Htr2 & Hrows2).
  { rewrite !map_app. apply in_or_app. left. apply in_or_app. right. now left. }
  exists f, e, ok, w2. split; [reflexivity|].
  split.
  { rewrite E1. cbn [for_each]. unfold bind. now rewrite E2. }
  split; [exact He|]. split.
  - rewrite Htr2, Htr1. unfold script_of. now rewrite Hread.
  - rewrite (migration_rows_some _ _ Hrows2). symmetry.
    now apply migration_rows_some.
Qed.

(** ** The rows of the tags table *)

Lemma create_tags_loop_rows (names : list pystr) :
  forall ids w,
    NoDup names ->
    (forall name, In name names -> ~ In name (tag_names (live (conn w)))) ->
    exists new w',
      for_each names
        (fun name tag_ids =>
           color <- choice COLORS ;;
           style <- choice STYLES ;;
           k <- execute_insert
                  (insert_tag {| tag_name := name; tag_color := color;
                                 tag_style := style |}) ;;
           ret (tag_ids ++ [k]))
        ids w
      = Return (ids ++ rowids new) w' /\
      tags (live (conn w')) = tags (live (conn w)) ++ new /\
      Forall2 tag_row names (map snd new).
Proof.
  induction names as [|name names IH]; intros ids w Hnd Hnew; cbn [for_each].
  - exists [], w. cbn. rewrite !app_nil_r. auto.
  - inversion Hnd as [|? ? Hname Hnd']; subst.
    unfold bind at 1.
    draw (draws_choice COLORS COLORS_nonempty) color w1 P1 C1 T1.
    draw (draws_choice STYLES STYLES_nonempty) style w2 P2 C2 T2.
    unfold bind at 1. unfold execute_insert. unfold bind at 1, log at 1.
    assert (Habsent : ~ In name (tag_names (live (conn w2)))).
    { rewrite C2, C1. apply Hnew. now left. }
    unfold insert_tag at 1. cbn [conn live tag_name].
    rewrite (tag_name_absent name _ Habsent). cbv beta iota. cbn [ret].
    set (k := next_rowid (tags (live (conn w2)))).
    set (t := {| tag_name := name; tag_color := color; tag_style := style |}).
    set (w3 := {| conn := _; rng := _; trace := _ |}).
    assert (R3 : tags (live (conn w3)) = tags (live (conn w)) ++ [(k, t)]).
    { cbn [w3 conn live tags set_tags]. now rewrite C2, C1. }
    destruct (IH (ids ++ [k]) w3 Hnd') as (new & w' & E & R & Hrows).
    { intros name' Hin'. unfold tag_names. rewrite R3, map_app. cbn [map snd tag_name t].
      intros Hold. apply in_app_or in Hold as [Hold|[<-|[]]].
      - apply (Hnew name'); [now right|exact Hold].
      - contradiction. }
    exists ((k, t) :: new), w'. rewrite <- app_assoc in E. split; [exact E|].
    split; [rewrite R, R3, <- app_assoc; reflexivity|].
    cbn [map snd]. constructor; [|exact Hrows].
    unfold tag_row. cbn [t tag_name tag_color tag_style]. auto.
Qed.

(** X9.  On a store that holds no tag under one of the first [num_tags]
    names of the vocabulary, [create_tags] returns: it has appended one row
    per name, in the order of the vocabulary, each with a colour of COLORS
    and a style of STYLES, the identifiers returned are those of the new
    rows in that order, and the rows are committed. *)
Theorem create_tags_appends_one_row_per_name (num_tags : nat) (w : world) :
  (forall name, In name (firstn num_tags TAG_NAMES) ->
                ~ In name (tag_names (live (conn w)))) ->
  appends_tag_rows num_tags w.
Proof.
  intros Hnew. unfold appends_tag_rows.
  assert (Hnd : NoDup (firstn num_tags TAG_NAMES)).
  { pose proof TAG_NAMES_NoDup as H.
    rewrite <- (firstn_skipn num_tags TAG_NAMES) in H.
    now apply NoDup_app_remove_r in H. }
  destruct (create_tags_loop_rows (firstn num_tags TAG_NAMES) [] w Hnd Hnew)
    as (new & w1 & E & R & Hrows).
  unfold create_tags. unfold bind at 1. rewrite E. unfold bind. rewrite commit_eq.
  cbn [ret app]. exists new. eexists. split; [reflexivity|].
  cbn [conn live durable]. auto.
Qed.

(** ** The rows of the feeds table *)

Lemma uint_digits_inj (d d' : Decimal.uint) : uint_digits d = uint_digits d' -> d = d'.
Proof.
  revert d'. induction d as [|d IH|d IH|d IH|d IH|d IH|d IH|d IH|d IH|d IH|d IH];
    intros [|d'|d'|d'|d'|d'|d'|d'|d'|d'|d']; cbn [uint_digits]; intros H;
    try discriminate H; try reflexivity;
    injection H as H; f_equal; now apply IH.
Qed.

Lemma str_of_nat_inj (n m : nat) : str_of_nat n = str_of_nat m -> n = m.
Proof.
  unfold str_of_nat. intros H. apply uint_digits_inj in H.
  rewrite <- (DecimalNat.Unsigned.of_to n), <- (DecimalNat.Unsigned.of_to m).
  now rewrite H.
Qed.

(** One turn of the loop, seen from the feeds table. *)
Lemma create_feed_row (now : Z) (tag_ids : list Z) (i : nat) (ids : list Z) (w : world) :
  exists k f w',
    create_feed now tag_ids i ids w = Return (ids ++ [k]) w' /\
    feeds (live (conn w')) = feeds (live (conn w)) ++ [(k, f)] /\
    feed_row now i f.
Proof.
  unfold create_feed.
  draw (draws_words_text 3) w3 w1 P1 C1 T1.
  draw draws_sentence ds w2 P2 C2 T2.
  draw (draws_choice COLORS COLORS_nonempty) color w4 P4 C4 T4.
  draw (draws_choice _ frequencies_nonempty) freq w5 P5 C5 T5.
  draw (draws_randint 0 365 ltac:(lia)) days w6 P6 C6 T6.
  unfold bind at 1. unfold execute_insert at 1. unfold bind at 1, log at 1.
  unfold insert_feed at 1. cbv beta iota. cbn [conn live trace rng].
  set (k := next_rowid (feeds (live (conn w6)))).
  set (f := {| feed_url := _; feed_title := _; feed_description := ds;
               feed_site_url := _; feed_color := color; fetch_frequency := freq;
               feed_created_at := _; feed_updated_at := _ |}).
  set (w7 := {| conn := _; rng := rng w6; trace := _ |}).
  assert (F7 : feeds (live (conn w7)) = feeds (live (conn w)) ++ [(k, f)]).
  { cbn [w7 conn live feeds set_feeds]. now rewrite C6, C5, C4, C2, C1. }
  assert (Hrow : feed_row now i f).
  { unfold feed_row. cbn [f feed_url feed_site_url feed_title feed_description
                            feed_color fetch_frequency feed_created_at feed_updated_at].
    split; [reflexivity|]. split; [reflexivity|].
    split; [exists (title w3); split; [now apply capitalized_words_title|reflexivity]|].
    split; [exact P2|]. split; [exact P4|]. split; [exact P5|].
    split; [|reflexivity]. cbv beta in P6. unfold timedelta. lia. }
  clearbody w7 k f.
  draw (draws_randint 0 5 ltac:(lia)) num_tags w8 P8 C8 T8.
  rewrite last_last.
  destruct ((0 <? num_tags) && negb (length tag_ids =? 0)%nat) eqn:Hbranch.
  - assert (Hmin : (Nat.min (Z.to_nat num_tags) (length tag_ids) <= length tag_ids)%nat)
      by lia.
    unfold bind at 1.
    draw (sample_spec tag_ids _ Hmin) sel w9 P9 C9 T9.
    destruct (insert_feed_tags_spec k sel w9) as (w10 & E10 & Ft & Fd & Tg).
    rewrite E10. cbn [ret].
    exists k, f, w10. split; [reflexivity|]. rewrite Fd, C9, C8. auto.
  - unfold bind at 1. cbn [ret].
    exists k, f, w8. split; [reflexivity|]. rewrite C8. auto.
Qed.

Lemma create_feeds_loop_rows (now : Z) (tag_ids : list Z) (turns : list nat) :
  forall ids w, exists new w',
    for_each turns (create_feed now tag_ids) ids w = Return (ids ++ rowids new) w' /\
    feeds (live (conn w')) = feeds (live (conn w)) ++ new /\
    Forall2 (feed_row now) turns (map snd new).
Proof.
  induction turns as [|i turns IH]; intros ids w; cbn [for_each].
  - exists [], w. cbn. rewrite !app_nil_r. auto.
  - unfold bind.
    destruct (create_feed_row now tag_ids i ids w) as (k & f & w1 & E1 & F1 & Hrow).
    rewrite E1.
    destruct (IH (ids ++ [k]) w1) as (new & w' & E & F & Hrows).
    exists ((k, f) :: new), w'. rewrite <- app_assoc in E. split; [exact E|].
    split; [rewrite F, F1, <- app_assoc; reflexivity|].
    cbn [map snd]. now constructor.
Qed.

(** The URLs of the turns of a loop are pairwise distinct. *)
Lemma feed_urls_distinct (now : Z) (turns : list nat) :
  forall fs : list feed,
    NoDup turns -> Forall2 (feed_row now) turns fs -> NoDup (map feed_url fs).
Proof.
  induction turns as [|i turns IH]; intros fs Hnd H2;
    inversion H2 as [|? f ? fs' Hf Hrest]; subst; cbn [map]; [constructor|].
  inversion Hnd as [|? ? Hi Hnd']; subst.
  constructor; [|now apply IH].
  intros Hin. apply in_map_iff in Hin as (g & Hg & Hin).
  apply Hi. clear -Hf Hg Hin Hrest.
  induction Hrest as [|j g' turns fs' Hg' _ IH']; [destruct Hin|].
  destruct Hin as [->|Hin]; [|right; now apply IH'].
  left. destruct Hf as (Uf & _), Hg' as (Ug & _).
  rewrite Uf, Ug in Hg. apply app_inv_head in Hg. apply app_inv_tail in Hg.
  apply str_of_nat_inj in Hg. lia.
Qed.

(** X10.  [create_feeds] returns, for every list of tag identifiers: it has
    appended one row per turn, in order; the row of turn i has the URL
    https://invalid-feed-(i+1).example.invalid/rss.xml, the site URL without
    /rss.xml, the title Feed #(i+1): followed by three words of the
    vocabulary with initial capitals, a sentence as description, a colour of
    COLORS, one of the four fetch frequencies, and one timestamp, at most
    365 days before [now], for created_at and updated_at.  The URLs of the
    new rows are pairwise distinct, the identifiers returned are those of
    the new rows, and the rows are committed. *)
Theorem create_feeds_appends_one_row_per_turn
    (num_feeds : nat) (now : Z) (tag_ids : list Z) (w : world) :
  appends_feed_rows num_feeds now tag_ids w.
Proof.
  unfold appends_feed_rows.
  destruct (create_feeds_loop_rows now tag_ids (seq 0 num_feeds) [] w)
    as (new & w1 & E & F & Hrows).
  unfold create_feeds, bind. rewrite E, commit_eq. cbn [ret app].
  exists new. eexists. split; [reflexivity|]. cbn [conn live durable].
  split; [exact F|]. split; [exact Hrows|]. split; [|reflexivity].
  rewrite <- (map_map snd feed_url).
  apply (feed_urls_distinct now (seq 0 num_feeds)); [apply seq_NoDup|exact Hrows].
Qed.

(** X11.  Without tags there is nothing to assign: with an empty list of tag
    identifiers [create_feeds] returns its [num_feeds] identifiers and
    leaves the feed_tags table as it was. *)
Theorem create_feeds_without_tags_assigns_none
    (num_feeds : nat) (now : Z) (w : world) :
  exists feed_ids w',
    create_feeds num_feeds now [] w = Return feed_ids w' /\
    length feed_ids = num_feeds /\
    feed_tags (live (conn w')) = feed_tags (live (conn w)).
Proof.
  destruct (create_feeds_outcome num_feeds now [] w)
    as (ids & sels & w' & E & Li & _ & _ & _ & Hs & P & _).
  exists ids, w'. split; [exact E|]. split; [exact Li|].
  rewrite P. clear -Hs.
  assert (Hnone : association_rows ids sels = []).
  { unfold association_rows. revert ids.
    induction Hs as [|sel sels [_ (rest & Hperm)] _ IH]; intros [|k ids];
      try reflexivity.
    cbn [combine map concat fst snd]. rewrite IH.
    destruct sel as [|t sel]; [reflexivity|].
    apply Permutation_sym, Permutation_nil in Hperm. discriminate Hperm. }
  now rewrite Hnone.
Qed.

(** ** The rows of the articles table *)

Lemma hex_fixed_length (width : nat) (n : N) : length (hex_fixed width n) = width.
Proof.
  revert n. induction width as [|width IH]; intros n; [reflexivity|].
  cbn [hex_fixed]. rewrite length_app, IH. cbn [length]. lia.
Qed.

Lemma draws_uuid4_length : draws uuid4 (fun g => length g = 36%nat).
Proof.
  unfold uuid4. eapply draws_bind; [apply draws_randbelow; discriminate|].
  intros r _. apply draws_ret.
  rewrite !length_app, !length_firstn, !length_skipn, hex_fixed_length.
  reflexivity.
Qed.

Lemma draws_article_row (now : Z) (feed_ids : list Z) (i : nat) :
  feed_ids <> [] ->
  draws (generate_article now feed_ids i) (article_row now feed_ids i).
Proof.
  intros Hfeeds. unfold generate_article.
  eapply draws_bind; [apply draws_choice, Hfeeds|]. intros feed Hfeed.
  eapply draws_bind; [apply (draws_randint 4 10); lia|]. intros nwords Hnwords.
  eapply draws_bind; [apply draws_words_text|]. intros ws Hws.
  eapply draws_bind; [apply draws_uuid4_length|]. intros g Hg.
  eapply draws_bind; [apply (draws_randint 2 6); lia|]. intros np Hnp.
  eapply draws_bind; [apply draws_paragraphs_html|]. intros c Hc.
  eapply draws_bind; [apply draws_paragraph|]. intros s Hs.
  eapply draws_bind; [apply draws_words_text|]. intros w2 Hw2.
  eapply draws_bind; [apply (draws_randint 0 365); lia|]. intros days Hdays.
  eapply draws_bind; [apply (draws_randint 0 23); lia|]. intros hours Hhours.
  eapply draws_bind; [apply (draws_randint 0 59); lia|]. intros minutes Hminutes.
  eapply draws_bind; [apply draws_random_lt_0_3|]. intros rd _.
  eapply draws_bind; [apply draws_random_lt_0_05|]. intros st _.
  eapply draws_bind; [apply (draws_randint 1 60); lia|]. intros offset Hoffset.
  apply draws_ret. cbv beta in *.
  unfold article_row.
  cbn [feed_id article_title guid url content summary author published_at
       created_at updated_at].
  split; [exact Hfeed|].
  split.
  { exists (Z.to_nat nwords), (title ws). split; [lia|].
    split; [now apply capitalized_words_title|reflexivity]. }
  split; [exact Hg|]. split; [reflexivity|].
  split; [exists (Z.to_nat np); split; [lia|exact Hc]|].
  split; [exact Hs|]. split; [now apply capitalized_words_title|].
  unfold timedelta. repeat split; lia.
Qed.

Lemma append_rows_app (xs ys : list article) (t : table article) :
  append_rows (xs ++ ys) t = append_rows ys (append_rows xs t).
Proof. unfold append_rows. apply fold_left_app. Qed.

Section Rows.

Variables (now : Z) (feed_ids : list Z) (P : nat -> article -> Prop).
Hypothesis generates : forall i, draws (generate_article now feed_ids i) (P i).

(** The loop: the table, with the buffer appended, holds every article
    generated so far, in the order of the turns. *)
Lemma buffer_loop_rows (turns : list nat) :
  forall batch w,
    fts_trigger_off w ->
    exists batch' w' gen,
      for_each turns (buffer_article now feed_ids) batch w = Return batch' w' /\
      fts_trigger_off w' /\
      append_rows batch' (articles (live (conn w')))
      = append_rows (batch ++ gen) (articles (live (conn w))) /\
      Forall2 P turns gen.
Proof.
  induction turns as [|i turns IH]; intros batch w Hoff.
  - exists batch, w, []. cbn [for_each]. rewrite app_nil_r. repeat split; auto.
  - cbn [for_each]. unfold bind at 1. unfold buffer_article at 1. unfold bind at 1.
    destruct (generates i w) as (a & w1 & E1 & Ha & C1 & T1).
    rewrite E1.
    assert (Hoff1 : fts_trigger_off w1) by (unfold fts_trigger_off; now rewrite C1).
    destruct (batch_size <=? length (batch ++ [a]))%nat.
    + destruct (executemany_articles_spec (batch ++ [a]) w1 Hoff1)
        as (w2 & E2 & A2 & F2 & G2 & T2).
      unfold bind at 1. rewrite E2. unfold bind at 1. rewrite commit_eq.
      cbn [ret].
      set (w3 := {| conn := _; rng := rng w2; trace := _ |}).
      assert (Hoff3 : fts_trigger_off w3).
      { unfold fts_trigger_off, has_trigger. cbn [w3 conn live]. rewrite G2, C1.
        exact Hoff. }
      destruct (IH [] w3 Hoff3) as (batch' & w' & gen & E & Hoff' & A & Hgen).
      exists batch', w', (a :: gen).
      split; [exact E|]. split; [exact Hoff'|]. split; [|now constructor].
      rewrite A. cbn [w3 conn live app]. rewrite A2, C1, <- append_rows_app.
      now rewrite <- app_assoc.
    + cbn [ret].
      destruct (IH (batch ++ [a]) w1 Hoff1) as (batch' & w' & gen & E & Hoff' & A & Hgen).
      exists batch', w', (a :: gen).
      split; [exact E|]. split; [exact Hoff'|]. split; [|now constructor].
      rewrite A, C1, <- app_assoc. reflexivity.
Qed.

Lemma insert_articles_rows (count : nat) (w : world) :
  fts_trigger_off w ->
  exists w' gen,
    insert_articles count now feed_ids w = Return tt w' /\
    articles (live (conn w')) = append_rows gen (articles (live (conn w))) /\
    Forall2 P (seq 0 count) gen.
Proof.
  intros Hoff. unfold insert_articles, bind.
  destruct (buffer_loop_rows (seq 0 count) [] w Hoff)
    as (batch' & w1 & gen & E & Hoff1 & A & Hgen).
  rewrite E. cbn [app] in A.
  destruct batch' as [|a batch'].
  - exists w1, gen. cbn [ret]. auto.
  - destruct (executemany_articles_spec (a :: batch') w1 Hoff1)
      as (w2 & E2 & A2 & _).
    rewrite E2, commit_eq. eexists. exists gen. split; [reflexivity|].
    cbn [conn live]. rewrite A2. auto.
Qed.

(** The articles after [create_articles], whatever the outcome of the
    rebuild. *)
Lemma create_articles_rows (count : nat) (w : world) :
  exists gen,
    articles (live (conn (final_world (create_articles count now feed_ids w))))
    = append_rows gen (articles (live (conn w))) /\
    Forall2 P (seq 0 count) gen.
Proof.
  destruct (disable_fts_triggers_spec w) as (w1 & E1 & Hoff & A1 & _).
  destruct (insert_articles_rows count w1 Hoff) as (w2 & gen & E2 & A2 & Hgen).
  exists gen. split; [|exact Hgen].
  unfold create_articles. unfold bind at 1. rewrite E1.
  unfold bind at 1. rewrite E2.
  destruct (rebuild_fts_frame w2) as (A & _). now rewrite A, A2, A1.
Qed.

End Rows.

(** X12.  With at least one feed, the articles that [create_articles]
    appends are, in order, the records of its turns: the record of turn i
    belongs to one of the given feeds, has the title Article #(i+1):
    followed by 4 to 10 words of the vocabulary with initial capitals, a
    guid of 36 characters, the URL https://example.invalid/article/ followed
    by the guid, 2 to 6 paragraphs of HTML as content, a paragraph as
    summary, two words with initial capitals as author, a publication time
    within the 366 days before [now], a creation time after it and at most
    60 minutes after [now], and updated_at equal to created_at. *)
Theorem create_articles_appends_generated_rows
    (count : nat) (now : Z) (feed_ids : list Z) (w : world) :
  feed_ids <> [] ->
  appends_article_rows count now feed_ids w.
Proof.
  intros Hfeeds. unfold appends_article_rows. cbn zeta.
  destruct (create_articles_rows now feed_ids (article_row now feed_ids)
              (fun i => draws_article_row now feed_ids i Hfeeds) count w)
    as (gen & A & Hgen).
  destruct (append_rows_spec gen (articles (live (conn w)))) as (added & E & Hsnd & _).
  exists added. rewrite A, E, Hsnd. auto.
Qed.

(** The identifiers given to the rows of a table that was empty. *)
Lemma fold_max_seq (n : nat) :
  forall a, fold_left Z.max (map Z.of_nat (seq (S a) n)) (Z.of_nat a) = Z.of_nat (a + n).
Proof.
  induction n as [|n IH]; intros a; cbn [seq map fold_left].
  - f_equal. lia.
  - rewrite Z.max_r by lia. rewrite IH. f_equal. lia.
Qed.

Lemma next_rowid_seq {A} (t : table A) (n : nat) :
  rowids t = map Z.of_nat (seq 1 n) -> next_rowid t = Z.of_nat (n + 1).
Proof.
  unfold next_rowid. intros ->. destruct n as [|n]; [reflexivity|].
  cbn [seq map]. rewrite (fold_max_seq n 1). lia.
Qed.

Lemma append_rows_numbered (gen : list article) :
  forall (t : table article) (n : nat),
    rowids t = map Z.of_nat (seq 1 n) ->
    append_rows gen t
    = t ++ combine (map Z.of_nat (seq (n + 1) (length gen))) gen.
Proof.
  unfold append_rows.
  induction gen as [|a gen IH]; intros t n Ht; cbn [fold_left length seq map combine].
  - now rewrite app_nil_r.
  - rewrite (IH _ (S n)).
    + rewrite (next_rowid_seq t n Ht), <- app_assoc. cbn [app].
      now replace (S n + 1)%nat with (S (n + 1)) by lia.
    + rewrite rowids_app, Ht, (next_rowid_seq t n Ht). cbn [rowids map fst].
      replace (S n) with (n + 1)%nat by lia.
      rewrite seq_app, map_app. cbn [seq map]. now rewrite (Nat.add_comm 1 n).
Qed.

Lemma numbered_titles (now : Z) (feed_ids : list Z) (count : nat) :
  forall (gen : list article) (a : nat),
    Forall2 (article_row now feed_ids) (seq a count) gen ->
    Forall2 (fun i ka =>
               fst ka = Z.of_nat (i + 1) /\
               exists words,
                 article_title (snd ka)
                 = u "Article #" ++ str_of_nat (i + 1) ++ u ": " ++ words)
            (seq a count) (combine (map Z.of_nat (seq (a + 1) count)) gen).
Proof.
  induction count as [|count IH]; intros gen a Hgen; cbn [seq] in *;
    inversion Hgen as [|? x ? gen' Hx Hrest]; subst; cbn [map combine];
    constructor.
  - cbn [fst snd]. split; [reflexivity|].
    destruct Hx as (_ & (n & words & _ & _ & Htitle) & _). eauto.
  - apply (IH gen' (S a)). exact Hrest.
Qed.

(** X13.  On a store without articles and with at least one feed, the
    articles are numbered by their identifiers: the i-th article made has
    the identifier i and a title that starts with Article #i. *)
Theorem create_articles_numbers_by_identifier
    (count : nat) (now : Z) (feed_ids : list Z) (w : world) :
  feed_ids <> [] ->
  articles (live (conn w)) = [] ->
  numbers_articles_by_identifier count now feed_ids w.
Proof.
  intros Hfeeds Hnone. unfold numbers_articles_by_identifier. cbn zeta.
  destruct (create_articles_rows now feed_ids (article_row now feed_ids)
              (fun i => draws_article_row now feed_ids i Hfeeds) count w)
    as (gen & A & Hgen).
  rewrite A, Hnone, (append_rows_numbered gen [] 0 eq_refl). cbn [app].
  rewrite <- (Forall2_length Hgen), length_seq.
  now apply (numbered_titles now feed_ids).
Qed.

(** ** How [create_articles] ends *)

Lemma insert_articles_preserves (I : db -> Prop) (count : nat) (now : Z)
    (feed_ids : list Z) :
  (forall t d, I d -> I (set_articles t d)) ->
  (forall t d, I d -> I (set_articles_fts t d)) ->
  preserves I (insert_articles count now feed_ids).
Proof.
  intros Ha Hf. unfold insert_articles. apply preserves_bind.
  - apply preserves_for_each. intros i batch. unfold buffer_article.
    apply preserves_bind; [apply generate_article_preserves|]. intros a.
    destruct (batch_size <=? length (batch ++ [a]))%nat; [|apply preserves_ret].
    apply preserves_bind; [now apply executemany_articles_preserves|]. intros _.
    apply preserves_bind; [apply preserves_commit|]. intros _. apply preserves_ret.
  - intros [|a batch]; [apply preserves_ret|].
    apply preserves_bind; [now apply executemany_articles_preserves|].
    intros _. apply preserves_commit.
Qed.

Lemma disable_fts_triggers_drops (w : world) :
  exists w',
    disable_fts_triggers w = Return tt w' /\ fts_triggers_dropped (live (conn w')).
Proof.
  eexists. split; [reflexivity|].
  unfold fts_triggers_dropped, has_trigger. cbn [conn live triggers set_triggers].
  split; [|split].
  - do 2 apply has_trigger_filter. apply has_trigger_dropped.
  - apply has_trigger_filter. apply has_trigger_dropped.
  - apply has_trigger_dropped.
Qed.

(** The state in which the load ends. *)
Lemma insert_articles_ends (count : nat) (now : Z) (feed_ids : list Z) (w : world) :
  fts_trigger_off w -> durable (conn w) = live (conn w) ->
  match insert_articles count now feed_ids w with
  | Return _ w' =>
      length (articles (live (conn w')))
      = (length (articles (live (conn w))) + count)%nat /\
      articles_fts (live (conn w')) = articles_fts (live (conn w)) /\
      durable (conn w') = live (conn w')
  | Raise e w' =>
      e = IndexError /\ feed_ids = [] /\ count <> 0%nat /\ w' = w
  end.
Proof.
  intros Hoff Hdur. destruct feed_ids as [|f feed_ids].
  - destruct count as [|count].
    + rewrite insert_articles_none. rewrite Nat.add_0_r. auto.
    + rewrite insert_articles_no_feeds. auto.
  - destruct (insert_articles_spec now (f :: feed_ids) ltac:(discriminate) count w
                Hoff Hdur)
      as (w' & added & -> & A & L & _ & _ & F & D & _).
    rewrite A, length_app, L. auto.
Qed.

Lemma create_articles_ends_holds
    (count : nat) (now : Z) (feed_ids : list Z) (w : world) :
  create_articles_ends count now feed_ids w.
Proof.
  unfold create_articles_ends.
  destruct (disable_fts_triggers_drops w) as (w1 & E1 & Hdrop).
  destruct (disable_fts_triggers_spec w) as (w1' & E1' & Hoff & A1 & F1 & D1 & _).
  rewrite E1 in E1'. injection E1' as <-.
  assert (Hpres : fts_triggers_dropped
                    (live (conn (final_world (insert_articles count now feed_ids w1))))).
  { apply (insert_articles_preserves fts_triggers_dropped); [| |exact Hdrop];
      intros t d H; exact H. }
  pose proof (insert_articles_ends count now feed_ids w1 Hoff D1) as Hload.
  destruct (create_articles count now feed_ids w) as [[] w'|e w'] eqn:E.
  - destruct (create_articles_leaves_mirror_active _ _ _ _ _ E) as [Ht Hp].
    split; [exact Ht|]. split; [exact Hp|].
    unfold create_articles in E. unfold bind at 1 in E. rewrite E1 in E.
    unfold bind at 1 in E.
    destruct (insert_articles count now feed_ids w1) as [[] w2|e2 w2]; [|discriminate].
    destruct Hload as (L & _ & D).
    destruct (rebuild_fts_frame w2) as (A' & D' & _). rewrite E in A', D'.
    cbn [final_world] in A', D'.
    split; [now rewrite A', L, A1|now apply D'].
  - unfold create_articles in E. unfold bind at 1 in E. rewrite E1 in E.
    unfold bind at 1 in E.
    destruct (insert_articles count now feed_ids w1) as [[] w2|e2 w2].
    + cbn [final_world] in Hpres. destruct Hload as (L & F & D).
      destruct (fts_insert_all (articles (live (conn w2))) (articles_fts (live (conn w2))))
        as [t|] eqn:H.
      { destruct (rebuild_fts_ok w2 t H) as (w'' & E'' & _). rewrite E'' in E.
        discriminate. }
      rewrite (rebuild_fts_rejected w2 H) in E. injection E as <- <-.
      cbn [conn]. split; [exact Hpres|]. split; [now rewrite F|].
      split; [exact D|]. right. split; [reflexivity|]. now rewrite L, A1.
    + injection E as <- <-. destruct Hload as (-> & Hf & Hc & ->).
      split; [exact Hdrop|]. split; [exact F1|]. split; [exact D1|]. left. auto.
Qed.

(** X14.  [create_articles] ends in one of three ways.  It returns: the
    three triggers are in place, every article has its FTS entry, [count]
    articles are added and everything is committed.  It raises IndexError:
    the list of feeds is empty, and no article is inserted.  It raises
    IntegrityError: the bulk population of the FTS table is rejected after
    the [count] articles are inserted and committed.  In both failures the
    three FTS triggers are left dropped, committed so, and the FTS table is
    as it was. *)
Theorem create_articles_ends_restored_or_dropped
    (count : nat) (now : Z) (feed_ids : list Z) (w : world) :
  create_articles_ends count now feed_ids w.
Proof. apply create_articles_ends_holds. Qed.

Lemma fts_insert_all_taken (rows : table article) (t : table fts_entry) :
  (exists ka, hd_error rows = Some ka /\ In (fst ka) (rowids t)) ->
  fts_insert_all rows t = None.
Proof.
  intros ([k a] & Hhd & Hin). destruct rows as [|ka rows]; [discriminate|].
  injection Hhd as ->. cbn [fts_insert_all fst] in *. unfold fts_insert.
  now rewrite (proj2 (has_rowid_In k t) Hin).
Qed.

(** X15.  The load cannot be repeated.  On a store that holds articles,
    each with its FTS entry, [create_articles] with at least one feed
    inserts and commits its [count] articles and then raises
    IntegrityError at the bulk population of the FTS table: the new
    articles have no FTS entry and the three triggers are left dropped. *)
Theorem create_articles_again_is_rejected
    (count : nat) (now : Z) (feed_ids : list Z) (w : world) :
  mirror_populated (live (conn w)) = true ->
  articles (live (conn w)) <> [] ->
  feed_ids <> [] ->
  exists w',
    create_articles count now feed_ids w = Raise IntegrityError w' /\
    length (articles (live (conn w')))
    = (length (articles (live (conn w))) + count)%nat /\
    articles_fts (live (conn w')) = articles_fts (live (conn w)) /\
    fts_triggers_dropped (live (conn w')) /\
    durable (conn w') = live (conn w').
Proof.
  intros Hpop Hsome Hfeeds.
  pose proof (create_articles_ends_holds count now feed_ids w) as Hends.
  unfold create_articles_ends in Hends.
  destruct (create_articles_cases count now feed_ids w)
    as (w2 & added & A & _ & F & _ & Hcases).
  destruct Hcases as [(Hf & _)|(_ & _ & _ & _ & E)]; [contradiction|].
  assert (H : fts_insert_all (articles (live (conn w2))) (articles_fts (live (conn w2)))
              = None).
  { apply fts_insert_all_taken. rewrite A, F.
    destruct (articles (live (conn w))) as [|ka rows] eqn:Hrows; [congruence|].
    exists ka. split; [reflexivity|]. apply has_rowid_In.
    unfold mirror_populated in Hpop. rewrite forallb_forall in Hpop.
    apply Hpop. rewrite Hrows. now left. }
  rewrite (rebuild_fts_rejected w2 H) in E. rewrite E in Hends.
  eexists. split; [exact E|].
  destruct Hends as (Hdrop & Hfts & Hdur & [(He & _)|(_ & Hlen)]); [discriminate|].
  auto.
Qed.

(** X19.  The insert trigger that [create_articles] puts back keeps the
    mirror: with the trigger in place and the FTS table the mirror of the
    articles, an INSERT into articles succeeds, gives the new row the next
    identifier, and leaves the FTS table the mirror of the articles, the
    new one included. *)
Theorem insert_trigger_maintains_mirror (a : article) (d : db) :
  has_trigger (u "articles_fts_insert") d = true ->
  mirrors d ->
  exists d',
    insert_article a d = inr d' /\
    articles d' = articles d ++ [(next_rowid (articles d), a)] /\
    mirrors d'.
Proof.
  intros Htrig (Hfts & Hnd & Hlen).
  unfold insert_article. rewrite Htrig. unfold fts_insert.
  cbn [articles_fts set_articles].
  assert (Hfresh : has_rowid (next_rowid (articles d)) (articles_fts d) = false).
  { apply has_rowid_not_In. rewrite Hfts, rowids_fts_mirror. apply next_rowid_fresh. }
  rewrite Hfresh. eexists. split; [reflexivity|]. unfold mirrors.
  cbn [articles articles_fts set_articles set_articles_fts].
  split; [reflexivity|]. split; [|split].
  - rewrite Hfts. unfold fts_mirror. now rewrite map_app.
  - rewrite rowids_app. apply NoDup_snoc; [exact Hnd|apply next_rowid_fresh].
  - rewrite !length_app, Hlen. reflexivity.
Qed.

(** ** Commits *)

Lemma committed_bind {A B} (m : M A) (k : A -> M B) (w : world) :
  (forall a w', returns_committed (k a w')) -> returns_committed (bind m k w).
Proof. intros Hk. unfold bind. destruct (m w); [apply Hk|exact I]. Qed.

Lemma committed_commit_ret {A} (a : A) (w : world) :
  returns_committed ((commit ;; ret a) w).
Proof. reflexivity. Qed.

Lemma committed_commit (w : world) : returns_committed (commit w).
Proof. reflexivity. Qed.

Lemma committed_for_each {A S} (body : A -> S -> M S) (xs : list A) :
  (forall x s w, returns_committed (body x s w)) ->
  forall s w, durable (conn w) = live (conn w) ->
              returns_committed (for_each xs body s w).
Proof.
  intros Hbody. induction xs as [|x xs IH]; intros s w Hw; cbn [for_each].
  - exact Hw.
  - unfold bind. specialize (Hbody x s w).
    destruct (body x s w) as [s' w1|e w1]; [now apply IH|exact I].
Qed.

Lemma committed_run_migration
    (executescript : pystr -> connection -> connection * bool) (f : file) (w : world) :
  returns_committed (run_migration executescript f w).
Proof.
  unfold run_migration.
  apply committed_bind. intros _ w1. apply committed_bind. intros sql w2.
  destruct (re_match (fst f)) as [[v g2]|]; [|exact I].
  apply committed_bind. intros bs w3. apply committed_bind. intros _ w4.
  apply committed_bind. intros _ w5. apply committed_commit.
Qed.

Lemma committed_run_migrations
    (executescript : pystr -> connection -> connection * bool)
    (dir : directory) (w : world) :
  returns_committed (run_migrations executescript dir w).
Proof.
  unfold run_migrations.
  apply committed_bind. intros _ w1. unfold bind. rewrite commit_eq.
  apply committed_for_each; [|reflexivity].
  intros f _ w2. apply committed_run_migration.
Qed.

Lemma committed_create_tags (num_tags : nat) (w : world) :
  returns_committed (create_tags num_tags w).
Proof.
  unfold create_tags. apply committed_bind. intros ids w1.
  apply committed_commit_ret.
Qed.

Lemma committed_create_feeds (num_feeds : nat) (now : Z) (tag_ids : list Z) (w : world) :
  returns_committed (create_feeds num_feeds now tag_ids w).
Proof.
  unfold create_feeds. apply committed_bind. intros ids w1.
  apply committed_commit_ret.
Qed.

Lemma committed_create_articles (count : nat) (now : Z) (feed_ids : list Z) (w : world) :
  returns_committed (create_articles count now feed_ids w).
Proof.
  unfold create_articles, rebuild_fts.
  do 7 (apply committed_bind; intros _ ?). apply committed_commit.
Qed.

(** X16.  Every stage commits before it returns: when [run_migrations],
    [create_tags], [create_feeds], [create_articles] or [main] returns, the
    committed database is the live one, so that closing the connection
    loses nothing.  This holds for every migration script. *)
Theorem stages_return_committed
    (executescript : pystr -> connection -> connection * bool)
    (dir : directory) (n : nat) (now now' : Z) (ids : list Z) (w : world) :
  returns_committed (run_migrations executescript dir w) /\
  returns_committed (create_tags n w) /\
  returns_committed (create_feeds n now ids w) /\
  returns_committed (create_articles n now ids w) /\
  returns_committed (main executescript dir now now' w).
Proof.
  split; [apply committed_run_migrations|].
  split; [apply committed_create_tags|].
  split; [apply committed_create_feeds|].
  split; [apply committed_create_articles|].
  unfold main.
  apply committed_bind. intros _ w0. apply committed_bind. intros _ w1.
  apply committed_bind. intros tag_ids w2. apply committed_bind. intros feed_ids w3.
  unfold bind.
  pose proof (committed_create_articles NUM_ARTICLES now' feed_ids w3) as H.
  destruct (create_articles NUM_ARTICLES now' feed_ids w3) as [[] w4|e w4]; [|exact I].
  destruct (print_stats_eq w4) as (w5 & -> & C5). cbn [returns_committed] in *.
  now rewrite C5.
Qed.

(** ** Frames *)


(** ** What is committed when a call fails *)

Lemma create_tags_loop_commits_nothing (names : list pystr) :
  forall ids w,
    durable (conn (final_world
                     (for_each names
                        (fun name tag_ids =>
                           color <- choice COLORS ;;
                           style <- choice STYLES ;;
                           k <- execute_insert
                                  (insert_tag {| tag_name := name; tag_color := color;
                                                 tag_style := style |}) ;;
                           ret (tag_ids ++ [k]))
                        ids w)))
    = durable (conn w).
Proof.
  induction names as [|name names IH]; intros ids w; cbn [for_each]; [reflexivity|].
  unfold bind at 1.
  draw (draws_choice COLORS COLORS_nonempty) color w1 P1 C1 T1.
  draw (draws_choice STYLES STYLES_nonempty) style w2 P2 C2 T2.
  unfold bind at 1. unfold execute_insert. unfold bind at 1, log at 1.
  unfold insert_tag at 1. cbn [conn live tag_name].
  destruct (existsb _ (tags (live (conn w2)))).
  - cbn [final_world conn durable]. now rewrite C2, C1.
  - cbv beta iota. cbn [ret].
    set (w3 := {| conn := _; rng := _; trace := _ |}).
    etransitivity; [apply (IH (ids ++ [next_rowid (tags (live (conn w2)))]) w3)|].
    cbn [w3 conn durable]. now rewrite C2, C1.
Qed.

(** X20.  [create_tags] commits once, after its loop: when it returns, its
    rows are committed, and when it raises (a name that is in use) nothing
    is committed; the rows inserted before the failure are in the open
    transaction only, and the committed database is as it was before the
    call. *)
Theorem create_tags_commits_all_or_nothing (num_tags : nat) (w : world) :
  commits_all_or_nothing w (create_tags num_tags w).
Proof.
  unfold create_tags, commits_all_or_nothing. unfold bind at 1.
  pose proof (create_tags_loop_commits_nothing (firstn num_tags TAG_NAMES) [] w) as H.
  destruct (for_each (firstn num_tags TAG_NAMES) _ [] w) as [ids w1|e w1];
    [reflexivity|exact H].
Qed.

(** On a store that holds the first tags already, the call raises at the
    first name, and nothing is committed. *)
Example create_tags_again_raises :
  exists w',
    create_tags 3 tagged_world = Raise IntegrityError w' /\
    durable (conn w') = durable (conn tagged_world).
Proof. eexists. split; [vm_compute; reflexivity|reflexivity]. Qed.

Section CommittedRecords.

Variable executescript : pystr -> connection -> connection * bool.
Hypothesis keeps : keeps_tracking_table executescript.
Hypothesis keeps_committed : keeps_committed_tracking_table executescript.

(** One turn leaves the tracking table committed, however it ends. *)
Lemma run_migration_keeps_committed (f : file) (w : world) :
  tracking_table_committed w ->
  tracking_table_committed (final_world (run_migration executescript f w)).
Proof.
  unfold tracking_table_committed. intros Hw.
  unfold run_migration, print, bind.
  destruct (forallb is_scalar _); cbn [ret raise final_world]; [|exact Hw].
  destruct (read_text (snd f)) as [sql|]; cbn [ret raise final_world]; [|exact Hw].
  destruct (re_match (fst f)) as [[v group2]|]; cbn [ret raise final_world];
    [|exact Hw].
  destruct (encode sql) as [bs|]; cbn [ret raise final_world]; [|exact Hw].
  unfold conn_executescript.
  pose proof (keeps sql (conn w)) as Hlive.
  pose proof (keeps_committed sql (conn w) Hw) as Hdur.
  destruct (executescript sql (conn w)) as [c ok]. cbn [fst] in Hlive, Hdur.
  destruct ok; [|cbn [final_world conn]; now rewrite Hdur, Hlive].
  fold (record_of v group2 bs).
  set (w1 := {| conn := c; rng := rng w; trace := _ |}).
  destruct (insert_migration (record_of v group2 bs) (live (conn w1)))
    as [e|d] eqn:Hins.
  - rewrite (execute_err _ _ _ Hins). cbn [final_world conn w1].
    now rewrite Hdur, Hlive.
  - rewrite (execute_ok _ _ _ Hins), commit_eq. reflexivity.
Qed.

Lemma run_migration_loop_keeps_committed (fs : list file) :
  forall w,
    tracking_table_committed w ->
    tracking_table_committed
      (final_world (for_each fs (fun f _ => run_migration executescript f) tt w)).
Proof.
  induction fs as [|f fs IH]; intros w Hw; cbn [for_each]; [exact Hw|].
  unfold bind. pose proof (run_migration_keeps_committed f w Hw) as Hstep.
  destruct (run_migration executescript f w) as [[] w1|e w1]; [now apply IH|exact Hstep].
Qed.

End CommittedRecords.

(** X21.  The records of a run survive its failure.  With migration scripts
    that leave the tracking table alone, as seen and as committed, the
    tracking table is committed whenever [run_migrations] ends, whether it
    returns or raises: every record of an applied migration is durable, and
    no record is pending. *)
Theorem run_migrations_leaves_records_committed
    (executescript : pystr -> connection -> connection * bool)
    (dir : directory) (w : world) :
  keeps_tracking_table executescript ->
  keeps_committed_tracking_table executescript ->
  tracking_table_committed (final_world (run_migrations executescript dir w)).
Proof.
  intros keeps keeps_committed.
  destruct (create_migrations_table_ok (live (conn w))) as (d' & Hcreate & _).
  unfold run_migrations. unfold bind at 1. rewrite (execute_ok _ _ _ Hcreate).
  unfold bind at 1. rewrite commit_eq.
  apply run_migration_loop_keeps_committed; [assumption|assumption|reflexivity].
Qed.

(** ** The order in which the directory lists its files *)

Lemma str_ltb_total (a : pystr) :
  forall b, str_ltb a b = false -> str_ltb b a = false -> a = b.
Proof.
  induction a as [|x a IH]; intros [|y b]; cbn [str_ltb]; try easy.
  destruct (x <? y)%N eqn:Hxy; [discriminate|].
  destruct (y <? x)%N eqn:Hyx; [discriminate|].
  apply N.ltb_ge in Hxy, Hyx. intros H1 H2.
  assert (x = y) by lia. subst y. f_equal. now apply IH.
Qed.

Lemma name_le_trans (f g h : file) : name_le f g -> name_le g h -> name_le f h.
Proof.
  unfold name_le. destruct f as [a fa], g as [b fb], h as [c fc]. cbn [fst].
  clear fa fb fc. revert b c.
  induction a as [|x a IH]; intros [|y b] [|z c]; cbn [str_ltb]; try easy.
  destruct (y <? x)%N eqn:Hyx; [discriminate|].
  destruct (z <? y)%N eqn:Hzy; [discriminate|].
  apply N.ltb_ge in Hyx, Hzy.
  destruct (x <? y)%N eqn:Hxy; destruct (y <? z)%N eqn:Hyz;
    try apply N.ltb_lt in Hxy; try apply N.ltb_lt in Hyz;
    try apply N.ltb_ge in Hxy; try apply N.ltb_ge in Hyz; intros H1 H2.
  - replace (z <? x)%N with false by (symmetry; apply N.ltb_ge; lia).
    now replace (x <? z)%N with true by (symmetry; apply N.ltb_lt; lia).
  - replace (z <? x)%N with false by (symmetry; apply N.ltb_ge; lia).
    now replace (x <? z)%N with true by (symmetry; apply N.ltb_lt; lia).
  - replace (z <? x)%N with false by (symmetry; apply N.ltb_ge; lia).
    now replace (x <? z)%N with true by (symmetry; apply N.ltb_lt; lia).
  - assert (x = y) by lia. assert (y = z) by lia. subst y z.
    rewrite N.ltb_irrefl. now apply (IH b c).
Qed.

Lemma Permutation_glob_sql (dir dir' : directory) :
  Permutation dir dir' -> Permutation (glob_sql dir) (glob_sql dir').
Proof.
  unfold glob_sql.
  induction 1 as [|f l l' _ IH|f g l|l l' l'' _ IH1 _ IH2]; cbn [filter].
  - constructor.
  - destruct (ends_with _ (fst f)); [now constructor|exact IH].
  - destruct (ends_with _ (fst f)), (ends_with _ (fst g));
      try reflexivity. apply perm_swap.
  - now transitivity (filter (fun f => ends_with (u ".sql") (fst f)) l').
Qed.

Lemma same_name_same_file (l : list file) (f g : file) :
  NoDup (map fst l) -> In f l -> In g l -> fst f = fst g -> f = g.
Proof.
  induction l as [|h l IH]; cbn [map]; intros Hnd Hf Hg Hname; [destruct Hf|].
  inversion Hnd as [|? ? Hh Hnd']; subst.
  destruct Hf as [->|Hf], Hg as [->|Hg].
  - reflexivity.
  - exfalso. apply Hh. rewrite Hname. now apply in_map.
  - exfalso. apply Hh. rewrite <- Hname. now apply in_map.
  - now apply IH.
Qed.

(** Two lists of files in the order of their names, with the same files
    under distinct names, are one list. *)
Lemma sorted_files_unique (l1 : list file) :
  forall l2,
    StronglySorted name_le l1 -> StronglySorted name_le l2 ->
    Permutation l1 l2 -> NoDup (map fst l1) -> l1 = l2.
Proof.
  induction l1 as [|f l1 IH]; intros l2 S1 S2 Hperm Hnd.
  - apply Permutation_nil in Hperm. now subst.
  - destruct l2 as [|g l2]; [apply Permutation_sym, Permutation_nil in Hperm;
                              discriminate Hperm|].
    inversion S1 as [|? ? S1' F1]; subst. inversion S2 as [|? ? S2' F2]; subst.
    assert (Hfg : f = g).
    { assert (Hg : In g (f :: l1))
        by (apply (Permutation_in g (Permutation_sym Hperm)); now left).
      assert (Hf : In f (g :: l2)) by (apply (Permutation_in f Hperm); now left).
      destruct Hg as [E|Hg]; [exact E|]. destruct Hf as [E|Hf]; [now symmetry|].
      rewrite Forall_forall in F1, F2.
      apply (same_name_same_file (f :: l1)); [exact Hnd|now left|now right|].
      apply str_ltb_total; [apply (F2 f Hf)|apply (F1 g Hg)]. }
    subst g. f_equal. apply IH; [assumption|assumption| |].
    + now apply Permutation_cons_inv with f.
    + cbn [map] in Hnd. now inversion Hnd.
Qed.

Lemma sorted_files_permuted (l l' : list file) :
  Permutation l l' -> NoDup (map fst l) ->
  sorted path_ltb l = sorted path_ltb l'.
Proof.
  intros Hperm Hnd.
  assert (Htrans : Relations_1.Transitive name_le)
    by (intros f g h; apply name_le_trans).
  apply sorted_files_unique.
  - apply Sorted_StronglySorted; [exact Htrans|apply sorted_by_name].
  - apply Sorted_StronglySorted; [exact Htrans|apply sorted_by_name].
  - transitivity l; [apply Permutation_sym, sorted_perm|].
    transitivity l'; [exact Hperm|apply sorted_perm].
  - apply (Permutation_NoDup (l := map fst l)); [|exact Hnd].
    apply Permutation_map, sorted_perm.
Qed.

(** X22.  The run does not depend on the order in which the directory lists
    its files: two listings of the same files, under distinct names, give
    the same run, step for step. *)
Theorem run_migrations_ignores_the_listing_order
    (executescript : pystr -> connection -> connection * bool)
    (dir dir' : directory) (w : world) :
  Permutation dir dir' ->
  NoDup (map fst dir) ->
  run_migrations executescript dir w = run_migrations executescript dir' w.
Proof.
  intros Hperm Hnd. unfold run_migrations.
  rewrite (sorted_files_permuted (glob_sql dir) (glob_sql dir')); [reflexivity| |].
  - now apply Permutation_glob_sql.
  - unfold glob_sql. clear -Hnd.
    induction dir as [|f dir IH]; cbn [filter map]; [constructor|].
    cbn [map] in Hnd. inversion Hnd as [|? ? Hf Hnd']; subst.
    destruct (ends_with _ (fst f)); [|now apply IH].
    cbn [map]. constructor; [|now apply IH].
    intros Hin. apply Hf. apply in_map_iff in Hin as (g & Hg & Hin).
    apply filter_In in Hin as [Hin _]. rewrite <- Hg. now apply in_map.
Qed.

(** ** The properties, on the sample inputs *)

Lemma initial_schema_recorded : recorded initial_schema_file initial_schema_record.
Proof.
  apply (recorded_intro _ _ (u "SELECT 1;") (ascii_bytes "SELECT 1;")
           (u "initial_schema")).
  - vm_compute. reflexivity.
  - vm_compute. reflexivity.
  - vm_compute. reflexivity.
  - reflexivity.
  - reflexivity.
  - reflexivity.
  - reflexivity.
Defined.

Lemma version_and_description_of_a_file_name_witness :
  fst initial_schema_file = u "20260102000001" ++ u "_" ++ u "initial_schema" ++ u ".sql" /\
  u "20260102000001" <> [] /\
  forallb is_ascii_digit (u "20260102000001") = true /\
  u "initial_schema" <> [] /\
  ~ In 10%N (u "initial_schema") /\
  recorded initial_schema_file initial_schema_record /\
  re_match (fst initial_schema_file)
  = Some (int_of_digits (map digit_value (u "20260102000001")), u "initial_schema") /\
  version initial_schema_record = int_of_digits (map digit_value (u "20260102000001")) /\
  description initial_schema_record = replace_char 95 32 (u "initial_schema").
Proof.
  assert (H1 : fst initial_schema_file
               = u "20260102000001" ++ u "_" ++ u "initial_schema" ++ u ".sql")
    by reflexivity.
  assert (H2 : u "20260102000001" <> []) by discriminate.
  assert (H3 : forallb is_ascii_digit (u "20260102000001") = true) by reflexivity.
  assert (H4 : u "initial_schema" <> []) by discriminate.
  assert (H5 : ~ In 10%N (u "initial_schema")).
  { intros H. cbn in H. intuition discriminate. }
  split; [exact H1|]. split; [exact H2|]. split; [exact H3|]. split; [exact H4|].
  split; [exact H5|]. split; [exact initial_schema_recorded|].
  exact (version_and_description_of_a_file_name initial_schema_file
           (u "20260102000001") (u "initial_schema") initial_schema_record
           H1 H2 H3 H4 H5 initial_schema_recorded).
Defined.

Lemma run_migrations_adds_well_formed_records_witness :
  keeps_tracking_table sample_executescript /\
  adds_well_formed_records sample_executescript dir_fixed (start sample_oracle).
Proof.
  split; [exact sample_executescript_keeps_tracking_table|].
  exact (run_migrations_adds_well_formed_records sample_executescript dir_fixed
           (start sample_oracle) sample_executescript_keeps_tracking_table).
Defined.

Lemma run_migrations_twice_is_rejected_witness :
  keeps_tracking_table sample_executescript /\
  glob_sql dir_9_10 <> [] /\
  run_migrations sample_executescript dir_9_10 (start sample_oracle)
  = Return tt migrated_world /\
  second_run_is_rejected sample_executescript dir_9_10 migrated_world.
Proof.
  assert (H2 : glob_sql dir_9_10 <> []) by (vm_compute; discriminate).
  assert (H3 : run_migrations sample_executescript dir_9_10 (start sample_oracle)
               = Return tt migrated_world) by (vm_compute; reflexivity).
  split; [exact sample_executescript_keeps_tracking_table|].
  split; [exact H2|]. split; [exact H3|].
  exact (run_migrations_twice_is_rejected sample_executescript dir_9_10
           (start sample_oracle) migrated_world
           sample_executescript_keeps_tracking_table H2 H3).
Defined.

Lemma create_tags_appends_one_row_per_name_witness :
  (forall name, In name (firstn 3 TAG_NAMES) ->
                ~ In name (tag_names (live (conn (start sample_oracle))))) /\
  appends_tag_rows 3 (start sample_oracle).
Proof.
  assert (H : forall name, In name (firstn 3 TAG_NAMES) ->
                           ~ In name (tag_names (live (conn (start sample_oracle)))))
    by (intros name _ []).
  split; [exact H|].
  exact (create_tags_appends_one_row_per_name 3 (start sample_oracle) H).
Defined.

Lemma create_articles_appends_generated_rows_witness :
  [1; 2] <> [] /\
  appends_article_rows 3 1000000000000000 [1; 2] (start sample_oracle).
Proof.
  assert (H : [1; 2] <> []) by discriminate.
  split; [exact H|].
  exact (create_articles_appends_generated_rows 3 1000000000000000 [1; 2]
           (start sample_oracle) H).
Defined.

Lemma create_articles_numbers_by_identifier_witness :
  [1; 2] <> [] /\
  articles (live (conn (start sample_oracle))) = [] /\
  numbers_articles_by_identifier 3 1000000000000000 [1; 2] (start sample_oracle).
Proof.
  assert (H : [1; 2] <> []) by discriminate.
  split; [exact H|]. split; [reflexivity|].
  exact (create_articles_numbers_by_identifier 3 1000000000000000 [1; 2]
           (start sample_oracle) H eq_refl).
Defined.

Lemma create_articles_again_is_rejected_witness :
  mirror_populated (live (conn loaded_world)) = true /\
  articles (live (conn loaded_world)) <> [] /\
  [1; 2] <> [] /\
  exists w',
    create_articles 2 1000000000000000 [1; 2] loaded_world = Raise IntegrityError w' /\
    length (articles (live (conn w')))
    = (length (articles (live (conn loaded_world))) + 2)%nat /\
    articles_fts (live (conn w')) = articles_fts (live (conn loaded_world)) /\
    fts_triggers_dropped (live (conn w')) /\
    durable (conn w') = live (conn w').
Proof.
  assert (H1 : mirror_populated (live (conn loaded_world)) = true)
    by (vm_compute; reflexivity).
  assert (H2 : articles (live (conn loaded_world)) <> []).
  { assert (E : length (articles (live (conn loaded_world))) = 3%nat)
      by (vm_compute; reflexivity).
    intros H. rewrite H in E. discriminate E. }
  assert (H3 : [1; 2] <> []) by discriminate.
  split; [exact H1|]. split; [exact H2|]. split; [exact H3|].
  exact (create_articles_again_is_rejected 2 1000000000000000 [1; 2] loaded_world
           H1 H2 H3).
Defined.

Lemma checksum_of_text_file_witness :
  decode (snd initial_schema_file) = Some (u "SELECT 1;") /\
  ~ In 13%N (u "SELECT 1;") /\
  recorded initial_schema_file initial_schema_record /\
  checksum initial_schema_record = Sha384.digest (snd initial_schema_file).
Proof.
  assert (H1 : decode (snd initial_schema_file) = Some (u "SELECT 1;"))
    by (vm_compute; reflexivity).
  assert (H2 : ~ In 13%N (u "SELECT 1;")).
  { intros H. cbn in H. intuition discriminate. }
  split; [exact H1|]. split; [exact H2|]. split; [exact initial_schema_recorded|].
  exact (checksum_of_text_file initial_schema_file initial_schema_record
           (u "SELECT 1;") H1 H2 initial_schema_recorded).
Defined.

Lemma loaded_world_mirrors : mirrors (live (conn loaded_world)).
Proof.
  assert (E : create_articles 3 1000000000000000 [1; 2] (start sample_oracle)
              = Return tt loaded_world) by (vm_compute; reflexivity).
  assert (H : no_orphan_entries (live (conn (start sample_oracle))))
    by (intros k Hk; exact Hk).
  exact (proj1 (proj1 (mirror_after_load_holds 3 1000000000000000 [1; 2]
                         (start sample_oracle) H) loaded_world E)).
Defined.

Lemma insert_trigger_maintains_mirror_witness :
  has_trigger (u "articles_fts_insert") (live (conn loaded_world)) = true /\
  mirrors (live (conn loaded_world)) /\
  exists d',
    insert_article later_article (live (conn loaded_world)) = inr d' /\
    articles d'
    = articles (live (conn loaded_world))
      ++ [(next_rowid (articles (live (conn loaded_world))), later_article)] /\
    mirrors d'.
Proof.
  assert (H1 : has_trigger (u "articles_fts_insert") (live (conn loaded_world)) = true)
    by (vm_compute; reflexivity).
  split; [exact H1|]. split; [exact loaded_world_mirrors|].
  exact (insert_trigger_maintains_mirror later_article (live (conn loaded_world))
           H1 loaded_world_mirrors).
Defined.

Lemma sample_executescript_keeps_committed_tracking_table :
  keeps_committed_tracking_table sample_executescript.
Proof.
  intros sql c H. unfold sample_executescript.
  destruct sql as [|[|p] rest]; try exact H.
  do 6 (destruct p as [p|p|]; try exact H).
Qed.

Lemma run_migrations_leaves_records_committed_witness :
  keeps_tracking_table sample_executescript /\
  keeps_committed_tracking_table sample_executescript /\
  tracking_table_committed
    (final_world (run_migrations sample_executescript dir_fixed (start sample_oracle))).
Proof.
  split; [exact sample_executescript_keeps_tracking_table|].
  split; [exact sample_executescript_keeps_committed_tracking_table|].
  exact (run_migrations_leaves_records_committed sample_executescript dir_fixed
           (start sample_oracle) sample_executescript_keeps_tracking_table
           sample_executescript_keeps_committed_tracking_table).
Defined.

Lemma run_migrations_ignores_the_listing_order_witness :
  Permutation dir_9_10 (rev dir_9_10) /\
  NoDup (map fst dir_9_10) /\
  run_migrations sample_executescript dir_9_10 (start sample_oracle)
  = run_migrations sample_executescript (rev dir_9_10) (start sample_oracle).
Proof.
  assert (H1 : Permutation dir_9_10 (rev dir_9_10)) by apply Permutation_rev.
  assert (H2 : NoDup (map fst dir_9_10)).
  { constructor; [|constructor; [intros []|constructor]].
    intros [H|[]]. discriminate H. }
  split; [exact H1|]. split; [exact H2|].
  exact (run_migrations_ignores_the_listing_order sample_executescript dir_9_10
           (rev dir_9_10) (start sample_oracle) H1 H2).
Defined.
